(** * Verification of [git lfs fsck] (commands/command_fsck.go)

    A shallow embedding of the integrity checker of the Git LFS object
    store: scan-range resolution, the object pass ([doFsckObjects],
    [fsckPointer]), the pointer pass ([doFsckPointers]) and the repair
    step that moves corrupt objects to the [bad] directory; and of the
    construction of server endpoints from URLs (lfshttp/endpoint.go).

    Go strings are byte sequences and are modelled by [string]; [int64]
    sizes by [Z]; the object store by a finite map from path names to
    file-system nodes; the process by a state-and-exit monad over that
    store and the lines written to standard output. *)

From Stdlib Require Import ZArith Ascii String.
From stdpp Require Import base tactics option list strings gmap.

Local Open Scope Z_scope.

(** ** crypto/sha256 and encoding/hex

    [fsckPointer] keys objects by the lower-case hexadecimal SHA-256
    digest of their bytes.  The digest is the function of FIPS 180-4 on
    32-bit words, written here on [Z] with the wrap-around explicit. *)
Module Sha256.

Definition w32 (x : Z) : Z := Z.land x 0xffffffff.

Definition add32 (x y : Z) : Z := w32 (x + y).

Definition rotr (n x : Z) : Z :=
  Z.lor (Z.shiftr x n) (w32 (Z.shiftl x (32 - n))).

Definition xor3 (a b c : Z) : Z := Z.lxor (Z.lxor a b) c.

Definition ch (e f g : Z) : Z :=
  Z.lxor (Z.land e f) (Z.land (Z.lxor e 0xffffffff) g).

Definition maj (a b c : Z) : Z :=
  xor3 (Z.land a b) (Z.land a c) (Z.land b c).

Definition bsig0 (a : Z) : Z := xor3 (rotr 2 a) (rotr 13 a) (rotr 22 a).
Definition bsig1 (e : Z) : Z := xor3 (rotr 6 e) (rotr 11 e) (rotr 25 e).
Definition ssig0 (x : Z) : Z := xor3 (rotr 7 x) (rotr 18 x) (Z.shiftr x 3).
Definition ssig1 (x : Z) : Z := xor3 (rotr 17 x) (rotr 19 x) (Z.shiftr x 10).

(** The first sixty-four primes. *)
Definition primes : list Z :=
  [ 2; 3; 5; 7; 11; 13; 17; 19; 23; 29; 31; 37; 41; 43; 47; 53;
    59; 61; 67; 71; 73; 79; 83; 89; 97; 101; 103; 107; 109; 113; 127; 131;
    137; 139; 149; 151; 157; 163; 167; 173; 179; 181; 191; 193; 197; 199; 211; 223;
    227; 229; 233; 239; 241; 251; 257; 263; 269; 271; 277; 281; 283; 293; 307; 311 ].

(** The integer cube root of [x], built bit by bit from bit [n - 1] down. *)
Fixpoint cbrt_bits (n : nat) (x r : Z) : Z :=
  match n with
  | O => r
  | S k =>
      let c := r + 2 ^ Z.of_nat k in
      if c * c * c <=? x then cbrt_bits k x c else cbrt_bits k x r
  end.

(** The first 32 bits of the fractional part of the square root and of
    the cube root of [p]. *)
Definition frac_sqrt (p : Z) : Z := w32 (Z.sqrt (p * 2 ^ 64)).
Definition frac_cbrt (p : Z) : Z := w32 (cbrt_bits 40 (p * 2 ^ 96) 0).

(** The initial hash value: from the square roots of the first eight
    primes. *)
Definition init : list Z := Eval vm_compute in frac_sqrt <$> take 8 primes.

(** The round constants: from the cube roots of the first sixty-four
    primes. *)
Definition K : list Z := Eval vm_compute in frac_cbrt <$> primes.

(** Big-endian bytes of the low [8 * n] bits of [x]. *)
Fixpoint be_bytes (n : nat) (x : Z) : list Z :=
  match n with
  | O => []
  | S m => Z.land (Z.shiftr x (8 * Z.of_nat m)) 0xff :: be_bytes m x
  end.

Definition be_word (bs : list Z) : Z :=
  foldl (fun acc b => Z.lor (Z.shiftl acc 8) b) 0 bs.

(** The message followed by [0x80], zero bytes up to 56 modulo 64, and
    the bit length on eight bytes. *)
Definition pad (msg : list Z) : list Z :=
  let len := Z.of_nat (length msg) in
  let zeros := Z.to_nat ((55 - len) mod 64) in
  msg ++ 0x80 :: replicate zeros 0 ++ be_bytes 8 (8 * len).

Fixpoint words (fuel : nat) (bs : list Z) : list Z :=
  match fuel, bs with
  | S k, _ :: _ => be_word (take 4 bs) :: words k (drop 4 bs)
  | _, _ => []
  end.

Definition prev (i : nat) (rev_w : list Z) : Z := default 0 (rev_w !! i).

(** The schedule, most recent word first while it is extended. *)
Fixpoint extend (n : nat) (rev_w : list Z) : list Z :=
  match n with
  | O => rev_w
  | S m =>
      let wt := add32 (add32 (ssig1 (prev 1 rev_w)) (prev 6 rev_w))
                      (add32 (ssig0 (prev 14 rev_w)) (prev 15 rev_w)) in
      extend m (wt :: rev_w)
  end.

Definition schedule (block : list Z) : list Z :=
  reverse (extend 48 (reverse block)).

Definition round (s : list Z) (kw : Z * Z) : list Z :=
  match s with
  | [a; b; c; d; e; f; g; h] =>
      let t1 := add32 (add32 (add32 h (bsig1 e)) (add32 (ch e f g) kw.1)) kw.2 in
      let t2 := add32 (bsig0 a) (maj a b c) in
      [add32 t1 t2; a; b; c; add32 d t1; e; f; g]
  | _ => s
  end.

Definition compress (h : list Z) (block : list Z) : list Z :=
  zip_with add32 h (foldl round h (zip K (schedule block))).

Fixpoint blocks (fuel : nat) (ws : list Z) : list (list Z) :=
  match fuel, ws with
  | S k, _ :: _ => take 16 ws :: blocks k (drop 16 ws)
  | _, _ => []
  end.

Definition digest (msg : list Z) : list Z :=
  let bs := pad msg in
  let ws := words (length bs) bs in
  mjoin (be_bytes 4 <$> foldl compress init (blocks (length ws) ws)).

End Sha256.

Definition hex_digit (n : Z) : ascii :=
  Ascii.ascii_of_N (Z.to_N (if n <? 10 then 48 + n else 87 + n)).

(** [hex.EncodeToString]: two lower-case digits per byte. *)
Fixpoint hex_EncodeToString (bs : list Z) : string :=
  match bs with
  | [] => EmptyString
  | b :: rest =>
      String (hex_digit (Z.shiftr b 4))
        (String (hex_digit (Z.land b 0xf)) (hex_EncodeToString rest))
  end.

Fixpoint bytes_of_string (s : string) : list Z :=
  match s with
  | EmptyString => []
  | String c rest => Z.of_N (Ascii.N_of_ascii c) :: bytes_of_string rest
  end.

(** The digest [fsckPointer] recomputes for a file holding [data]. *)
Definition sha256_hex (data : string) : string :=
  hex_EncodeToString (Sha256.digest (bytes_of_string data)).


(** ** Strings, paths and formatting *)

Definition dquote : string := String (Ascii.ascii_of_nat 34) EmptyString.
Definition bslash : string := String (Ascii.ascii_of_nat 92) EmptyString.

(** [strip_prefix p s] is [Some r] exactly when [s = p ++ r]. *)
Fixpoint strip_prefix (p s : string) : option string :=
  match p, s with
  | EmptyString, _ => Some s
  | String a p', String b s' =>
      if Ascii.eqb a b then strip_prefix p' s' else None
  | String _ _, EmptyString => None
  end.

(** The text before and after the first occurrence of [sep] in [s]. *)
Fixpoint strings_Cut (sep s : string) : option (string * string) :=
  match strip_prefix sep s with
  | Some after => Some (EmptyString, after)
  | None =>
      match s with
      | EmptyString => None
      | String c rest =>
          match strings_Cut sep rest with
          | Some (before, after) => Some (String c before, after)
          | None => None
          end
      end
  end.

(** [strings.SplitN(s, sep, 2)] for a non-empty separator: [s] alone when
    [sep] does not occur, otherwise the two sides of its first occurrence. *)
Definition strings_SplitN2 (s sep : string) : list string :=
  match strings_Cut sep s with
  | Some (before, after) => [before; after]
  | None => [s]
  end.

(** Every character of [s] satisfies [P]. *)
Fixpoint string_forall (P : ascii -> bool) (s : string) : bool :=
  match s with
  | EmptyString => true
  | String c rest => P c && string_forall P rest
  end.

(** The value of a byte. *)
Definition byte (c : ascii) : Z := Z.of_N (Ascii.N_of_ascii c).

(** [strings.Split(s, "/")]: the pieces of [s] between its slashes. *)
Fixpoint split_slash (s : string) : list string :=
  match s with
  | EmptyString => [EmptyString]
  | String c rest =>
      if Ascii.eqb c "/" then EmptyString :: split_slash rest
      else
        match split_slash rest with
        | piece :: pieces => String c piece :: pieces
        | [] => [String c EmptyString]
        end
  end.

(** [strings.Join(elems, "/")]. *)
Fixpoint join_slash (elems : list string) : string :=
  match elems with
  | [] => EmptyString
  | [e] => e
  | e :: rest => e +:+ "/" +:+ join_slash rest
  end.

(** One turn of the loop of [filepath.Clean], on the next element of the
    path.  [out] is the buffer the loop writes, as the list of the
    elements written so far, the last one first.  An empty element and
    [.] are dropped; [..] removes the last element when there is one to
    go back over, is dropped at the root, and is kept at the head of a
    path that is not rooted; any other element is written. *)
Definition clean_step (rooted : bool) (out : list string) (elem : string)
  : list string :=
  if String.eqb elem EmptyString || String.eqb elem "." then out
  else if String.eqb elem ".." then
    match out with
    | last :: before =>
        if String.eqb last ".." then (if rooted then out else ".." :: out)
        else before
    | [] => if rooted then [] else [".."]
    end
  else elem :: out.

(** [filepath.Clean] where the separator is the slash: the shortest path
    that names the same file by reading the text alone.  The empty path
    and a path that cleans to nothing become [.]. *)
Definition filepath_Clean (path : string) : string :=
  match path with
  | EmptyString => "."
  | String c _ =>
      let rooted := Ascii.eqb c "/" in
      let out := fold_left (clean_step rooted) (split_slash path) [] in
      if rooted then "/" +:+ join_slash (rev out)
      else
        match out with
        | [] => "."
        | _ => join_slash (rev out)
        end
  end.

(** [filepath.Join] of two elements: the elements from the first one that
    is not empty are joined with slashes and the result is cleaned; two
    empty elements give the empty path. *)
Definition filepath_Join (dir elem : string) : string :=
  match dir, elem with
  | EmptyString, EmptyString => EmptyString
  | EmptyString, _ => filepath_Clean elem
  | _, _ => filepath_Clean (dir +:+ "/" +:+ elem)
  end.

(** [o] is a file name: not empty, without a slash, neither [.] nor
    [..].  The sixty-four hexadecimal digits of a content hash are one. *)
Definition path_element (o : string) : bool :=
  negb (String.eqb o EmptyString) && negb (String.eqb o ".")
  && negb (String.eqb o "..")
  && string_forall (fun c => negb (Ascii.eqb c "/")) o.

(** [dir] is written in clean form and is neither the root nor [.], so
    that a file name joined to it is [dir/name]. *)
Definition clean_dir (dir : string) : Prop :=
  filepath_Clean dir = dir /\ dir <> "/"%string /\ dir <> "."%string.

(** [n] hexadecimal digits of [r], the most significant first. *)
Fixpoint hex_digits (n : nat) (r : Z) : string :=
  match n with
  | O => EmptyString
  | S k => String (hex_digit (Z.land (Z.shiftr r (4 * Z.of_nat k)) 0xf)) (hex_digits k r)
  end.

(** [utf8.RuneError]. *)
Definition RuneError : Z := 0xFFFD.

(** The table [first] of package utf8 for a byte above [0x7f]: the length
    of the sequence the byte starts and the range in which the second
    byte must lie; [None] for a byte that starts no sequence. *)
Definition utf8_first (s0 : Z) : option (Z * Z * Z) :=
  if s0 <? 0xC2 then None
  else if s0 <? 0xE0 then Some (2, 0x80, 0xBF)
  else if s0 =? 0xE0 then Some (3, 0xA0, 0xBF)
  else if s0 =? 0xED then Some (3, 0x80, 0x9F)
  else if s0 <? 0xF0 then Some (3, 0x80, 0xBF)
  else if s0 =? 0xF0 then Some (4, 0x90, 0xBF)
  else if s0 <? 0xF4 then Some (4, 0x80, 0xBF)
  else if s0 =? 0xF4 then Some (4, 0x80, 0x8F)
  else None.

(** [b] is a continuation byte. *)
Definition utf8_continues (b : Z) : bool := (0x80 <=? b) && (b <=? 0xBF).

(** [utf8.DecodeRuneInString]: the first rune of [s] and its width in
    bytes; [(RuneError, 1)] when [s] does not begin with a well-formed
    sequence. *)
Definition utf8_DecodeRuneInString (s : string) : Z * nat :=
  match s with
  | EmptyString => (RuneError, 0%nat)
  | String c0 rest =>
      let s0 := byte c0 in
      if s0 <? 0x80 then (s0, 1%nat)
      else
        match utf8_first s0, rest with
        | Some (sz, lo, hi), String c1 rest1 =>
            let s1 := byte c1 in
            if (s1 <? lo) || (hi <? s1) then (RuneError, 1%nat)
            else if sz <=? 2
            then (Z.lor (Z.shiftl (Z.land s0 0x1F) 6) (Z.land s1 0x3F), 2%nat)
            else
              match rest1 with
              | String c2 rest2 =>
                  let s2 := byte c2 in
                  if negb (utf8_continues s2) then (RuneError, 1%nat)
                  else if sz <=? 3
                  then (Z.lor (Z.shiftl (Z.land s0 0x0F) 12)
                          (Z.lor (Z.shiftl (Z.land s1 0x3F) 6) (Z.land s2 0x3F)),
                        3%nat)
                  else
                    match rest2 with
                    | String c3 _ =>
                        let s3 := byte c3 in
                        if negb (utf8_continues s3) then (RuneError, 1%nat)
                        else (Z.lor (Z.shiftl (Z.land s0 0x07) 18)
                                (Z.lor (Z.shiftl (Z.land s1 0x3F) 12)
                                   (Z.lor (Z.shiftl (Z.land s2 0x3F) 6)
                                      (Z.land s3 0x3F))),
                              4%nat)
                    | EmptyString => (RuneError, 1%nat)
                    end
              | EmptyString => (RuneError, 1%nat)
              end
        | _, _ => (RuneError, 1%nat)
        end
  end.

(** The runes above U+00FF that are letters, marks, numbers, punctuation
    or symbols, as ranges.  The Go library reads them from the Unicode
    tables of its release; these are the ranges of Unicode 14.0.0. *)
Definition isPrint_ranges : list (Z * Z) :=
  [(0x100, 0x377); (0x37A, 0x37F); (0x384, 0x38A); (0x38C, 0x38C);
   (0x38E, 0x3A1); (0x3A3, 0x52F); (0x531, 0x556); (0x559, 0x58A);
   (0x58D, 0x58F); (0x591, 0x5C7); (0x5D0, 0x5EA); (0x5EF, 0x5F4);
   (0x606, 0x61B); (0x61D, 0x6DC); (0x6DE, 0x70D); (0x710, 0x74A);
   (0x74D, 0x7B1); (0x7C0, 0x7FA); (0x7FD, 0x82D); (0x830, 0x83E);
   (0x840, 0x85B); (0x85E, 0x85E); (0x860, 0x86A); (0x870, 0x88E);
   (0x898, 0x8E1); (0x8E3, 0x983); (0x985, 0x98C); (0x98F, 0x990);
   (0x993, 0x9A8); (0x9AA, 0x9B0); (0x9B2, 0x9B2); (0x9B6, 0x9B9);
   (0x9BC, 0x9C4); (0x9C7, 0x9C8); (0x9CB, 0x9CE); (0x9D7, 0x9D7);
   (0x9DC, 0x9DD); (0x9DF, 0x9E3); (0x9E6, 0x9FE); (0xA01, 0xA03);
   (0xA05, 0xA0A); (0xA0F, 0xA10); (0xA13, 0xA28); (0xA2A, 0xA30);
   (0xA32, 0xA33); (0xA35, 0xA36); (0xA38, 0xA39); (0xA3C, 0xA3C);
   (0xA3E, 0xA42); (0xA47, 0xA48); (0xA4B, 0xA4D); (0xA51, 0xA51);
   (0xA59, 0xA5C); (0xA5E, 0xA5E); (0xA66, 0xA76); (0xA81, 0xA83);
   (0xA85, 0xA8D); (0xA8F, 0xA91); (0xA93, 0xAA8); (0xAAA, 0xAB0);
   (0xAB2, 0xAB3); (0xAB5, 0xAB9); (0xABC, 0xAC5); (0xAC7, 0xAC9);
   (0xACB, 0xACD); (0xAD0, 0xAD0); (0xAE0, 0xAE3); (0xAE6, 0xAF1);
   (0xAF9, 0xAFF); (0xB01, 0xB03); (0xB05, 0xB0C); (0xB0F, 0xB10);
   (0xB13, 0xB28); (0xB2A, 0xB30); (0xB32, 0xB33); (0xB35, 0xB39);
   (0xB3C, 0xB44); (0xB47, 0xB48); (0xB4B, 0xB4D); (0xB55, 0xB57);
   (0xB5C, 0xB5D); (0xB5F, 0xB63); (0xB66, 0xB77); (0xB82, 0xB83);
   (0xB85, 0xB8A); (0xB8E, 0xB90); (0xB92, 0xB95); (0xB99, 0xB9A);
   (0xB9C, 0xB9C); (0xB9E, 0xB9F); (0xBA3, 0xBA4); (0xBA8, 0xBAA);
   (0xBAE, 0xBB9); (0xBBE, 0xBC2); (0xBC6, 0xBC8); (0xBCA, 0xBCD);
   (0xBD0, 0xBD0); (0xBD7, 0xBD7); (0xBE6, 0xBFA); (0xC00, 0xC0C);
   (0xC0E, 0xC10); (0xC12, 0xC28); (0xC2A, 0xC39); (0xC3C, 0xC44);
   (0xC46, 0xC48); (0xC4A, 0xC4D); (0xC55, 0xC56); (0xC58, 0xC5A);
   (0xC5D, 0xC5D); (0xC60, 0xC63); (0xC66, 0xC6F); (0xC77, 0xC8C);
   (0xC8E, 0xC90); (0xC92, 0xCA8); (0xCAA, 0xCB3); (0xCB5, 0xCB9);
   (0xCBC, 0xCC4); (0xCC6, 0xCC8); (0xCCA, 0xCCD); (0xCD5, 0xCD6);
   (0xCDD, 0xCDE); (0xCE0, 0xCE3); (0xCE6, 0xCEF); (0xCF1, 0xCF2);
   (0xD00, 0xD0C); (0xD0E, 0xD10); (0xD12, 0xD44); (0xD46, 0xD48);
   (0xD4A, 0xD4F); (0xD54, 0xD63); (0xD66, 0xD7F); (0xD81, 0xD83);
   (0xD85, 0xD96); (0xD9A, 0xDB1); (0xDB3, 0xDBB); (0xDBD, 0xDBD);
   (0xDC0, 0xDC6); (0xDCA, 0xDCA); (0xDCF, 0xDD4); (0xDD6, 0xDD6);
   (0xDD8, 0xDDF); (0xDE6, 0xDEF); (0xDF2, 0xDF4); (0xE01, 0xE3A);
   (0xE3F, 0xE5B); (0xE81, 0xE82); (0xE84, 0xE84); (0xE86, 0xE8A);
   (0xE8C, 0xEA3); (0xEA5, 0xEA5); (0xEA7, 0xEBD); (0xEC0, 0xEC4);
   (0xEC6, 0xEC6); (0xEC8, 0xECD); (0xED0, 0xED9); (0xEDC, 0xEDF);
   (0xF00, 0xF47); (0xF49, 0xF6C); (0xF71, 0xF97); (0xF99, 0xFBC);
   (0xFBE, 0xFCC); (0xFCE, 0xFDA); (0x1000, 0x10C5); (0x10C7, 0x10C7);
   (0x10CD, 0x10CD); (0x10D0, 0x1248); (0x124A, 0x124D); (0x1250, 0x1256);
   (0x1258, 0x1258); (0x125A, 0x125D); (0x1260, 0x1288); (0x128A, 0x128D);
   (0x1290, 0x12B0); (0x12B2, 0x12B5); (0x12B8, 0x12BE); (0x12C0, 0x12C0);
   (0x12C2, 0x12C5); (0x12C8, 0x12D6); (0x12D8, 0x1310); (0x1312, 0x1315);
   (0x1318, 0x135A); (0x135D, 0x137C); (0x1380, 0x1399); (0x13A0, 0x13F5);
   (0x13F8, 0x13FD); (0x1400, 0x167F); (0x1681, 0x169C); (0x16A0, 0x16F8);
   (0x1700, 0x1715); (0x171F, 0x1736); (0x1740, 0x1753); (0x1760, 0x176C);
   (0x176E, 0x1770); (0x1772, 0x1773); (0x1780, 0x17DD); (0x17E0, 0x17E9);
   (0x17F0, 0x17F9); (0x1800, 0x180D); (0x180F, 0x1819); (0x1820, 0x1878);
   (0x1880, 0x18AA); (0x18B0, 0x18F5); (0x1900, 0x191E); (0x1920, 0x192B);
   (0x1930, 0x193B); (0x1940, 0x1940); (0x1944, 0x196D); (0x1970, 0x1974);
   (0x1980, 0x19AB); (0x19B0, 0x19C9); (0x19D0, 0x19DA); (0x19DE, 0x1A1B);
   (0x1A1E, 0x1A5E); (0x1A60, 0x1A7C); (0x1A7F, 0x1A89); (0x1A90, 0x1A99);
   (0x1AA0, 0x1AAD); (0x1AB0, 0x1ACE); (0x1B00, 0x1B4C); (0x1B50, 0x1B7E);
   (0x1B80, 0x1BF3); (0x1BFC, 0x1C37); (0x1C3B, 0x1C49); (0x1C4D, 0x1C88);
   (0x1C90, 0x1CBA); (0x1CBD, 0x1CC7); (0x1CD0, 0x1CFA); (0x1D00, 0x1F15);
   (0x1F18, 0x1F1D); (0x1F20, 0x1F45); (0x1F48, 0x1F4D); (0x1F50, 0x1F57);
   (0x1F59, 0x1F59); (0x1F5B, 0x1F5B); (0x1F5D, 0x1F5D); (0x1F5F, 0x1F7D);
   (0x1F80, 0x1FB4); (0x1FB6, 0x1FC4); (0x1FC6, 0x1FD3); (0x1FD6, 0x1FDB);
   (0x1FDD, 0x1FEF); (0x1FF2, 0x1FF4); (0x1FF6, 0x1FFE); (0x2010, 0x2027);
   (0x2030, 0x205E); (0x2070, 0x2071); (0x2074, 0x208E); (0x2090, 0x209C);
   (0x20A0, 0x20C0); (0x20D0, 0x20F0); (0x2100, 0x218B); (0x2190, 0x2426);
   (0x2440, 0x244A); (0x2460, 0x2B73); (0x2B76, 0x2B95); (0x2B97, 0x2CF3);
   (0x2CF9, 0x2D25); (0x2D27, 0x2D27); (0x2D2D, 0x2D2D); (0x2D30, 0x2D67);
   (0x2D6F, 0x2D70); (0x2D7F, 0x2D96); (0x2DA0, 0x2DA6); (0x2DA8, 0x2DAE);
   (0x2DB0, 0x2DB6); (0x2DB8, 0x2DBE); (0x2DC0, 0x2DC6); (0x2DC8, 0x2DCE);
   (0x2DD0, 0x2DD6); (0x2DD8, 0x2DDE); (0x2DE0, 0x2E5D); (0x2E80, 0x2E99);
   (0x2E9B, 0x2EF3); (0x2F00, 0x2FD5); (0x2FF0, 0x2FFB); (0x3001, 0x303F);
   (0x3041, 0x3096); (0x3099, 0x30FF); (0x3105, 0x312F); (0x3131, 0x318E);
   (0x3190, 0x31E3); (0x31F0, 0x321E); (0x3220, 0xA48C); (0xA490, 0xA4C6);
   (0xA4D0, 0xA62B); (0xA640, 0xA6F7); (0xA700, 0xA7CA); (0xA7D0, 0xA7D1);
   (0xA7D3, 0xA7D3); (0xA7D5, 0xA7D9); (0xA7F2, 0xA82C); (0xA830, 0xA839);
   (0xA840, 0xA877); (0xA880, 0xA8C5); (0xA8CE, 0xA8D9); (0xA8E0, 0xA953);
   (0xA95F, 0xA97C); (0xA980, 0xA9CD); (0xA9CF, 0xA9D9); (0xA9DE, 0xA9FE);
   (0xAA00, 0xAA36); (0xAA40, 0xAA4D); (0xAA50, 0xAA59); (0xAA5C, 0xAAC2);
   (0xAADB, 0xAAF6); (0xAB01, 0xAB06); (0xAB09, 0xAB0E); (0xAB11, 0xAB16);
   (0xAB20, 0xAB26); (0xAB28, 0xAB2E); (0xAB30, 0xAB6B); (0xAB70, 0xABED);
   (0xABF0, 0xABF9); (0xAC00, 0xD7A3); (0xD7B0, 0xD7C6); (0xD7CB, 0xD7FB);
   (0xF900, 0xFA6D); (0xFA70, 0xFAD9); (0xFB00, 0xFB06); (0xFB13, 0xFB17);
   (0xFB1D, 0xFB36); (0xFB38, 0xFB3C); (0xFB3E, 0xFB3E); (0xFB40, 0xFB41);
   (0xFB43, 0xFB44); (0xFB46, 0xFBC2); (0xFBD3, 0xFD8F); (0xFD92, 0xFDC7);
   (0xFDCF, 0xFDCF); (0xFDF0, 0xFE19); (0xFE20, 0xFE52); (0xFE54, 0xFE66);
   (0xFE68, 0xFE6B); (0xFE70, 0xFE74); (0xFE76, 0xFEFC); (0xFF01, 0xFFBE);
   (0xFFC2, 0xFFC7); (0xFFCA, 0xFFCF); (0xFFD2, 0xFFD7); (0xFFDA, 0xFFDC);
   (0xFFE0, 0xFFE6); (0xFFE8, 0xFFEE); (0xFFFC, 0xFFFD); (0x10000, 0x1000B);
   (0x1000D, 0x10026); (0x10028, 0x1003A); (0x1003C, 0x1003D);
   (0x1003F, 0x1004D); (0x10050, 0x1005D); (0x10080, 0x100FA);
   (0x10100, 0x10102); (0x10107, 0x10133); (0x10137, 0x1018E);
   (0x10190, 0x1019C); (0x101A0, 0x101A0); (0x101D0, 0x101FD);
   (0x10280, 0x1029C); (0x102A0, 0x102D0); (0x102E0, 0x102FB);
   (0x10300, 0x10323); (0x1032D, 0x1034A); (0x10350, 0x1037A);
   (0x10380, 0x1039D); (0x1039F, 0x103C3); (0x103C8, 0x103D5);
   (0x10400, 0x1049D); (0x104A0, 0x104A9); (0x104B0, 0x104D3);
   (0x104D8, 0x104FB); (0x10500, 0x10527); (0x10530, 0x10563);
   (0x1056F, 0x1057A); (0x1057C, 0x1058A); (0x1058C, 0x10592);
   (0x10594, 0x10595); (0x10597, 0x105A1); (0x105A3, 0x105B1);
   (0x105B3, 0x105B9); (0x105BB, 0x105BC); (0x10600, 0x10736);
   (0x10740, 0x10755); (0x10760, 0x10767); (0x10780, 0x10785);
   (0x10787, 0x107B0); (0x107B2, 0x107BA); (0x10800, 0x10805);
   (0x10808, 0x10808); (0x1080A, 0x10835); (0x10837, 0x10838);
   (0x1083C, 0x1083C); (0x1083F, 0x10855); (0x10857, 0x1089E);
   (0x108A7, 0x108AF); (0x108E0, 0x108F2); (0x108F4, 0x108F5);
   (0x108FB, 0x1091B); (0x1091F, 0x10939); (0x1093F, 0x1093F);
   (0x10980, 0x109B7); (0x109BC, 0x109CF); (0x109D2, 0x10A03);
   (0x10A05, 0x10A06); (0x10A0C, 0x10A13); (0x10A15, 0x10A17);
   (0x10A19, 0x10A35); (0x10A38, 0x10A3A); (0x10A3F, 0x10A48);
   (0x10A50, 0x10A58); (0x10A60, 0x10A9F); (0x10AC0, 0x10AE6);
   (0x10AEB, 0x10AF6); (0x10B00, 0x10B35); (0x10B39, 0x10B55);
   (0x10B58, 0x10B72); (0x10B78, 0x10B91); (0x10B99, 0x10B9C);
   (0x10BA9, 0x10BAF); (0x10C00, 0x10C48); (0x10C80, 0x10CB2);
   (0x10CC0, 0x10CF2); (0x10CFA, 0x10D27); (0x10D30, 0x10D39);
   (0x10E60, 0x10E7E); (0x10E80, 0x10EA9); (0x10EAB, 0x10EAD);
   (0x10EB0, 0x10EB1); (0x10F00, 0x10F27); (0x10F30, 0x10F59);
   (0x10F70, 0x10F89); (0x10FB0, 0x10FCB); (0x10FE0, 0x10FF6);
   (0x11000, 0x1104D); (0x11052, 0x11075); (0x1107F, 0x110BC);
   (0x110BE, 0x110C2); (0x110D0, 0x110E8); (0x110F0, 0x110F9);
   (0x11100, 0x11134); (0x11136, 0x11147); (0x11150, 0x11176);
   (0x11180, 0x111DF); (0x111E1, 0x111F4); (0x11200, 0x11211);
   (0x11213, 0x1123E); (0x11280, 0x11286); (0x11288, 0x11288);
   (0x1128A, 0x1128D); (0x1128F, 0x1129D); (0x1129F, 0x112A9);
   (0x112B0, 0x112EA); (0x112F0, 0x112F9); (0x11300, 0x11303);
   (0x11305, 0x1130C); (0x1130F, 0x11310); (0x11313, 0x11328);
   (0x1132A, 0x11330); (0x11332, 0x11333); (0x11335, 0x11339);
   (0x1133B, 0x11344); (0x11347, 0x11348); (0x1134B, 0x1134D);
   (0x11350, 0x11350); (0x11357, 0x11357); (0x1135D, 0x11363);
   (0x11366, 0x1136C); (0x11370, 0x11374); (0x11400, 0x1145B);
   (0x1145D, 0x11461); (0x11480, 0x114C7); (0x114D0, 0x114D9);
   (0x11580, 0x115B5); (0x115B8, 0x115DD); (0x11600, 0x11644);
   (0x11650, 0x11659); (0x11660, 0x1166C); (0x11680, 0x116B9);
   (0x116C0, 0x116C9); (0x11700, 0x1171A); (0x1171D, 0x1172B);
   (0x11730, 0x11746); (0x11800, 0x1183B); (0x118A0, 0x118F2);
   (0x118FF, 0x11906); (0x11909, 0x11909); (0x1190C, 0x11913);
   (0x11915, 0x11916); (0x11918, 0x11935); (0x11937, 0x11938);
   (0x1193B, 0x11946); (0x11950, 0x11959); (0x119A0, 0x119A7);
   (0x119AA, 0x119D7); (0x119DA, 0x119E4); (0x11A00, 0x11A47);
   (0x11A50, 0x11AA2); (0x11AB0, 0x11AF8); (0x11C00, 0x11C08);
   (0x11C0A, 0x11C36); (0x11C38, 0x11C45); (0x11C50, 0x11C6C);
   (0x11C70, 0x11C8F); (0x11C92, 0x11CA7); (0x11CA9, 0x11CB6);
   (0x11D00, 0x11D06); (0x11D08, 0x11D09); (0x11D0B, 0x11D36);
   (0x11D3A, 0x11D3A); (0x11D3C, 0x11D3D); (0x11D3F, 0x11D47);
   (0x11D50, 0x11D59); (0x11D60, 0x11D65); (0x11D67, 0x11D68);
   (0x11D6A, 0x11D8E); (0x11D90, 0x11D91); (0x11D93, 0x11D98);
   (0x11DA0, 0x11DA9); (0x11EE0, 0x11EF8); (0x11FB0, 0x11FB0);
   (0x11FC0, 0x11FF1); (0x11FFF, 0x12399); (0x12400, 0x1246E);
   (0x12470, 0x12474); (0x12480, 0x12543); (0x12F90, 0x12FF2);
   (0x13000, 0x1342E); (0x14400, 0x14646); (0x16800, 0x16A38);
   (0x16A40, 0x16A5E); (0x16A60, 0x16A69); (0x16A6E, 0x16ABE);
   (0x16AC0, 0x16AC9); (0x16AD0, 0x16AED); (0x16AF0, 0x16AF5);
   (0x16B00, 0x16B45); (0x16B50, 0x16B59); (0x16B5B, 0x16B61);
   (0x16B63, 0x16B77); (0x16B7D, 0x16B8F); (0x16E40, 0x16E9A);
   (0x16F00, 0x16F4A); (0x16F4F, 0x16F87); (0x16F8F, 0x16F9F);
   (0x16FE0, 0x16FE4); (0x16FF0, 0x16FF1); (0x17000, 0x187F7);
   (0x18800, 0x18CD5); (0x18D00, 0x18D08); (0x1AFF0, 0x1AFF3);
   (0x1AFF5, 0x1AFFB); (0x1AFFD, 0x1AFFE); (0x1B000, 0x1B122);
   (0x1B150, 0x1B152); (0x1B164, 0x1B167); (0x1B170, 0x1B2FB);
   (0x1BC00, 0x1BC6A); (0x1BC70, 0x1BC7C); (0x1BC80, 0x1BC88);
   (0x1BC90, 0x1BC99); (0x1BC9C, 0x1BC9F); (0x1CF00, 0x1CF2D);
   (0x1CF30, 0x1CF46); (0x1CF50, 0x1CFC3); (0x1D000, 0x1D0F5);
   (0x1D100, 0x1D126); (0x1D129, 0x1D172); (0x1D17B, 0x1D1EA);
   (0x1D200, 0x1D245); (0x1D2E0, 0x1D2F3); (0x1D300, 0x1D356);
   (0x1D360, 0x1D378); (0x1D400, 0x1D454); (0x1D456, 0x1D49C);
   (0x1D49E, 0x1D49F); (0x1D4A2, 0x1D4A2); (0x1D4A5, 0x1D4A6);
   (0x1D4A9, 0x1D4AC); (0x1D4AE, 0x1D4B9); (0x1D4BB, 0x1D4BB);
   (0x1D4BD, 0x1D4C3); (0x1D4C5, 0x1D505); (0x1D507, 0x1D50A);
   (0x1D50D, 0x1D514); (0x1D516, 0x1D51C); (0x1D51E, 0x1D539);
   (0x1D53B, 0x1D53E); (0x1D540, 0x1D544); (0x1D546, 0x1D546);
   (0x1D54A, 0x1D550); (0x1D552, 0x1D6A5); (0x1D6A8, 0x1D7CB);
   (0x1D7CE, 0x1DA8B); (0x1DA9B, 0x1DA9F); (0x1DAA1, 0x1DAAF);
   (0x1DF00, 0x1DF1E); (0x1E000, 0x1E006); (0x1E008, 0x1E018);
   (0x1E01B, 0x1E021); (0x1E023, 0x1E024); (0x1E026, 0x1E02A);
   (0x1E100, 0x1E12C); (0x1E130, 0x1E13D); (0x1E140, 0x1E149);
   (0x1E14E, 0x1E14F); (0x1E290, 0x1E2AE); (0x1E2C0, 0x1E2F9);
   (0x1E2FF, 0x1E2FF); (0x1E7E0, 0x1E7E6); (0x1E7E8, 0x1E7EB);
   (0x1E7ED, 0x1E7EE); (0x1E7F0, 0x1E7FE); (0x1E800, 0x1E8C4);
   (0x1E8C7, 0x1E8D6); (0x1E900, 0x1E94B); (0x1E950, 0x1E959);
   (0x1E95E, 0x1E95F); (0x1EC71, 0x1ECB4); (0x1ED01, 0x1ED3D);
   (0x1EE00, 0x1EE03); (0x1EE05, 0x1EE1F); (0x1EE21, 0x1EE22);
   (0x1EE24, 0x1EE24); (0x1EE27, 0x1EE27); (0x1EE29, 0x1EE32);
   (0x1EE34, 0x1EE37); (0x1EE39, 0x1EE39); (0x1EE3B, 0x1EE3B);
   (0x1EE42, 0x1EE42); (0x1EE47, 0x1EE47); (0x1EE49, 0x1EE49);
   (0x1EE4B, 0x1EE4B); (0x1EE4D, 0x1EE4F); (0x1EE51, 0x1EE52);
   (0x1EE54, 0x1EE54); (0x1EE57, 0x1EE57); (0x1EE59, 0x1EE59);
   (0x1EE5B, 0x1EE5B); (0x1EE5D, 0x1EE5D); (0x1EE5F, 0x1EE5F);
   (0x1EE61, 0x1EE62); (0x1EE64, 0x1EE64); (0x1EE67, 0x1EE6A);
   (0x1EE6C, 0x1EE72); (0x1EE74, 0x1EE77); (0x1EE79, 0x1EE7C);
   (0x1EE7E, 0x1EE7E); (0x1EE80, 0x1EE89); (0x1EE8B, 0x1EE9B);
   (0x1EEA1, 0x1EEA3); (0x1EEA5, 0x1EEA9); (0x1EEAB, 0x1EEBB);
   (0x1EEF0, 0x1EEF1); (0x1F000, 0x1F02B); (0x1F030, 0x1F093);
   (0x1F0A0, 0x1F0AE); (0x1F0B1, 0x1F0BF); (0x1F0C1, 0x1F0CF);
   (0x1F0D1, 0x1F0F5); (0x1F100, 0x1F1AD); (0x1F1E6, 0x1F202);
   (0x1F210, 0x1F23B); (0x1F240, 0x1F248); (0x1F250, 0x1F251);
   (0x1F260, 0x1F265); (0x1F300, 0x1F6D7); (0x1F6DD, 0x1F6EC);
   (0x1F6F0, 0x1F6FC); (0x1F700, 0x1F773); (0x1F780, 0x1F7D8);
   (0x1F7E0, 0x1F7EB); (0x1F7F0, 0x1F7F0); (0x1F800, 0x1F80B);
   (0x1F810, 0x1F847); (0x1F850, 0x1F859); (0x1F860, 0x1F887);
   (0x1F890, 0x1F8AD); (0x1F8B0, 0x1F8B1); (0x1F900, 0x1FA53);
   (0x1FA60, 0x1FA6D); (0x1FA70, 0x1FA74); (0x1FA78, 0x1FA7C);
   (0x1FA80, 0x1FA86); (0x1FA90, 0x1FAAC); (0x1FAB0, 0x1FABA);
   (0x1FAC0, 0x1FAC5); (0x1FAD0, 0x1FAD9); (0x1FAE0, 0x1FAE7);
   (0x1FAF0, 0x1FAF6); (0x1FB00, 0x1FB92); (0x1FB94, 0x1FBCA);
   (0x1FBF0, 0x1FBF9); (0x20000, 0x2A6DF); (0x2A700, 0x2B738);
   (0x2B740, 0x2B81D); (0x2B820, 0x2CEA1); (0x2CEB0, 0x2EBE0);
   (0x2F800, 0x2FA1D); (0x30000, 0x3134A); (0xE0100, 0xE01EF)].

(** [strconv.IsPrint]: up to U+00FF the answer is written in the
    function, above it the tables decide. *)
Definition strconv_IsPrint (r : Z) : bool :=
  if r <=? 0xFF then
    if (0x20 <=? r) && (r <=? 0x7E) then true
    else if (0xA1 <=? r) && (r <=? 0xFF) then negb (r =? 0xAD)
    else false
  else existsb (fun '(lo, hi) => (lo <=? r) && (r <=? hi)) isPrint_ranges.

(** [appendEscapedRune] of package strconv, for the double quote: what
    [%q] writes for the rune [r], whose bytes in the operand are [raw]. *)
Definition escaped_rune (r : Z) (raw : string) : string :=
  if (r =? 34) || (r =? 92) then bslash +:+ raw
  else if strconv_IsPrint r then raw
  else if r =? 7 then bslash +:+ "a"
  else if r =? 8 then bslash +:+ "b"
  else if r =? 12 then bslash +:+ "f"
  else if r =? 10 then bslash +:+ "n"
  else if r =? 13 then bslash +:+ "r"
  else if r =? 9 then bslash +:+ "t"
  else if r =? 11 then bslash +:+ "v"
  else if (r <? 32) || (r =? 0x7f) then bslash +:+ "x" +:+ hex_digits 2 r
  else if r <? 0x10000 then bslash +:+ "u" +:+ hex_digits 4 r
  else bslash +:+ "U" +:+ hex_digits 8 r.

(** The loop of [strconv.Quote] over the operand: a byte that begins no
    well-formed sequence is written as [\x] and two digits, every rune as
    [escaped_rune] has it.  [skip] counts the bytes of the current rune
    still to pass over. *)
Fixpoint quote_body (skip : nat) (s : string) : string :=
  match s with
  | EmptyString => EmptyString
  | String c rest =>
      match skip with
      | S k => quote_body k rest
      | O =>
          let '(r, width) := utf8_DecodeRuneInString s in
          (if (width =? 1)%nat && (r =? RuneError)
           then bslash +:+ "x" +:+ hex_digits 2 (byte c)
           else escaped_rune r (substring 0 width s))
          +:+ quote_body (width - 1) rest
      end
  end.

(** [strconv.Quote], which formats a [%q] operand. *)
Definition strconv_Quote (s : string) : string :=
  dquote +:+ quote_body 0 s +:+ dquote.

(** The text made of the bytes [bs]. *)
Definition string_of_bytes (bs : list Z) : string :=
  string_of_list_ascii ((fun b => Ascii.ascii_of_N (Z.to_N b)) <$> bs).



(** ** Errors *)

Inductive errno := ENOENT | EACCES | EEXIST | EISDIR | ENOTDIR | EROFS | EIO.

Definition errno_Error (e : errno) : string :=
  match e with
  | ENOENT => "no such file or directory"
  | EACCES => "permission denied"
  | EEXIST => "file exists"
  | EISDIR => "is a directory"
  | ENOTDIR => "not a directory"
  | EROFS => "read-only file system"
  | EIO => "input/output error"
  end.

(** The [error] values that reach this command. *)
Inductive error :=
  | PathError (Op Path : string) (Err : errno)        (* *os.PathError *)
  | LinkError (Op Old New : string) (Err : errno)     (* *os.LinkError *)
  | PointerScanError (treeishOid path : string)       (* errors.PointerScanError *)
  | ErrorString (msg : string).                       (* any other error *)

(** Modelled from the spec: [errors.IsPointerScanError] (package errors)
    recognises the error a tree scan yields where a tree entry should
    have been a pointer but was not; every other error is not one. *)
Definition IsPointerScanError (err : option error) : bool :=
  match err with
  | Some (PointerScanError _ _) => true
  | _ => false
  end.

(** The type assertion [err.(errors.PointerScanError)]: OID and path. *)
Definition as_PointerScanError (err : option error) : option (string * string) :=
  match err with
  | Some (PointerScanError oid path) => Some (oid, path)
  | _ => None
  end.

(** ** The object store and the process *)

Inductive access := Readable | Denied | Faulty.

(** A regular file with its bytes, or a directory.  A [Denied] file
    cannot be opened; a [Faulty] one opens and fails when read. *)
Inductive node :=
  | File (data : string) (mode : access)
  | Dir.

#[global] Instance access_eq_dec : EqDecision access.
Proof. solve_decision. Defined.

#[global] Instance node_eq_dec : EqDecision node.
Proof. solve_decision. Defined.

(** The directories above [name]: what stands before each of its
    slashes.  Before a leading slash that is the empty text, the root. *)
Fixpoint directories_above (name : string) : list string :=
  match name with
  | EmptyString => []
  | String c rest =>
      (if Ascii.eqb c "/" then [EmptyString] else [])
      ++ (String c <$> directories_above rest)
  end.

(** The store lists the directories of what it holds: above every path
    in it, each directory is in it, as a directory. *)
Definition tree_like (store : gmap string node) : Prop :=
  map_Forall
    (fun name _ =>
       Forall (fun d => d = EmptyString \/ store !! d = Some Dir)
         (directories_above name))
    store.

Record World := mkWorld {
  fs : gmap string node;        (* path name to node *)
  readonly : bool;              (* the file system refuses every change *)
  stdout : list string;         (* lines written by Print *)
  trace : list string           (* lines written by Debug *)
}.

(** How the process can end other than by returning from the command. *)
Inductive exit :=
  | os_Exit (code : Z)
  | ExitWithError (err : error)
  | Panic (err : option error) (msg : string)
  | runtime_panic (msg : string).

Inductive outcome (A : Type) :=
  | Return (a : A)
  | Exits (e : exit).
Arguments Return {A} a.
Arguments Exits {A} e.

(** Modelled from the spec: [ExitWithError] and [Panic] (package commands,
    defined outside this file) abort the command with a surfaced error and
    a non-zero status that is not the status 1 of "corruption found";
    Git LFS and the Go run time use 2.  Returning from the command ends
    the process with status 0. *)
Definition exit_status {A} (o : outcome A) : Z :=
  match o with
  | Return _ => 0
  | Exits (os_Exit code) => code
  | Exits _ => 2
  end.

(** A command step: it reads and changes the world and either returns a
    value or ends the process. *)
Definition M (A : Type) : Type := World -> outcome A * World.

#[global] Instance M_ret : MRet M := fun A a w => (Return a, w).

#[global] Instance M_bind : MBind M := fun A B k m w =>
  match m w with
  | (Return a, w') => k a w'
  | (Exits e, w') => (Exits e, w')
  end.

Definition leave {A} (e : exit) : M A := fun w => (Exits e, w).

Definition printed (line : string) (w : World) : World :=
  mkWorld (fs w) (readonly w) (stdout w ++ [line]) (trace w).

Definition traced (line : string) (w : World) : World :=
  mkWorld (fs w) (readonly w) (stdout w) (trace w ++ [line]).

(** [Print] writes a line to standard output, [Debug] to the trace. *)
Definition Print (line : string) : M unit := fun w => (Return (), printed line w).

Definition Debug (line : string) : M unit := fun w => (Return (), traced line w).

Record file := mkFile { fname : string; fnode : node }.

(** [os.Open]: a missing path and a file without read permission fail
    with a [*PathError]; anything else opens. *)
Definition os_Open (name : string) : M (error + file) := fun w =>
  match fs w !! name with
  | None => (Return (inl (PathError "open" name ENOENT)), w)
  | Some (File _ Denied) => (Return (inl (PathError "open" name EACCES)), w)
  | Some n => (Return (inr (mkFile name n)), w)
  end.

(** What [io.Copy(oidHash, f)] feeds to the hash, and its error. *)
Definition io_Copy (f : file) : string * option error :=
  match fnode f with
  | File data Readable => (data, None)
  | File _ _ => (EmptyString, Some (PathError "read" (fname f) EIO))
  | Dir => (EmptyString, Some (PathError "read" (fname f) EISDIR))
  end.

(** [os.Rename].  The library first looks at the new name: when it is a
    directory the call fails, with the error of the old name if that one
    is missing and with [EEXIST] otherwise.  Then the system call: it
    refuses every change on a read-only file system, needs the old name
    to exist, does not put a directory in the place of a file, and
    otherwise moves the node, replacing a file at the new name. *)
Definition os_Rename (old new : string) : M (option error) := fun w =>
  let failed e := (Return (Some (LinkError "rename" old new e)), w) in
  match fs w !! new, fs w !! old with
  | Some Dir, None => failed ENOENT
  | Some Dir, Some _ => failed EEXIST
  | at_new, at_old =>
      if readonly w then failed EROFS
      else
        match at_old, at_new with
        | None, _ => failed ENOENT
        | Some Dir, Some (File _ _) => failed ENOTDIR
        | Some n, _ =>
            (Return None,
             mkWorld (<[new := n]> (delete old (fs w))) (readonly w) (stdout w) (trace w))
        end
  end.

(** Modelled from the spec: [tools.MkdirAll] (package tools) ensures the
    directory exists, creating it if absent. *)
Definition tools_MkdirAll (path : string) : M (option error) := fun w =>
  match fs w !! path with
  | Some Dir => (Return None, w)
  | Some (File _ _) => (Return (Some (PathError "mkdir" path ENOTDIR)), w)
  | None =>
      if readonly w then (Return (Some (PathError "mkdir" path EROFS)), w)
      else (Return None, mkWorld (<[path := Dir]> (fs w)) (readonly w) (stdout w) (trace w))
  end.

(** ** Collaborators: configuration, refs and the pointer scanner *)

(** The parts of [cfg] the command reads. *)
Record Configuration := mkConfiguration {
  LFSStorageDir : string;
  ObjectPathname : string -> string;      (* cfg.Filesystem().ObjectPathname *)
  FetchExcludePaths : list string
}.

Record Ref := mkRef { RefName : string; Sha : string }.

(** The fields of [lfs.WrappedPointer] the command reads. *)
Record WrappedPointer := mkWrappedPointer {
  Sha1 : string;          (* blob id *)
  Name : string;          (* path *)
  Oid : string;           (* content hash *)
  Size : Z;               (* declared size, int64 *)
  Canonical : bool
}.

(** [filepathfilter.New(include, exclude)]. *)
Record Filter := mkFilter { include : list string; exclude : list string }.

(** One call of the scanner's callback: [(p, err)]. *)
Definition found : Type := option WrappedPointer * option error.

(** What one scan does: the callback calls it makes, in order, and the
    error it returns at the end. *)
Record scan := mkScan { calls : list found; result : option error }.

(** Modelled from the spec: ref resolution (package git) and the history
    and index scanner (package lfs) are producers outside this file; a
    scanner is created with the filter [doFsckObjects] attaches, or none.
    [lfs.NewGitScanner] is given the configuration of the process, with
    which it runs Git: a [Repository] is the repository as that scanner
    reads it, and what its scans yield is taken as given. *)
Record Repository := mkRepository {
  CurrentRef : error + Ref;
  ResolveRefs : list string -> error + list Ref;
  ScanRef : option Filter -> string -> scan;
  ScanRefRange : option Filter -> string -> string -> scan;
  ScanIndex : option Filter -> string -> scan;
  ScanRefByTree : option Filter -> string -> scan;
  ScanRefRangeByTree : option Filter -> string -> string -> scan
}.

(** The package-level flags [fsckDryRun], [fsckObjects], [fsckPointers]. *)
Record Flags := mkFlags {
  fsckDryRun : bool;
  fsckObjects : bool;
  fsckPointers : bool
}.

Record corruptPointer := mkCorruptPointer {
  blobOid : string;
  treeOid : string;
  lfsOid : string;
  path : string;
  message : string;
  kind : string
}.

(** [corruptPointer.String]. *)
Definition corruptPointer_String (p : corruptPointer) : string :=
  kind p +:+ ": " +:+ message p.

(** Runs a scan: the callback [cb] is called on every [found] in order,
    threading the variable it captures; the scan's own error is returned. *)
Fixpoint run_calls {S} (cb : S -> found -> M S) (l : list found) (s : S) : M S :=
  match l with
  | [] => mret s
  | c :: rest => s' ← cb s c; run_calls cb rest s'
  end.

Definition run_scan {S} (cb : S -> found -> M S) (sc : scan) (s : S)
  : M (S * option error) :=
  s' ← run_calls cb (calls sc) s; mret (s', result sc).

(** [if err := ...; err != nil { ExitWithError(err) }]. *)
Definition exit_on_error {S} (m : M (S * option error)) : M S :=
  r ← m;
  match r.2 with
  | Some err => leave (ExitWithError err)
  | None => mret r.1
  end.

Section Fsck.

Context (cfg : Configuration) (git : Repository).

(** [fsckPointer] (lines 208-241). *)
Definition fsckPointer (name oid : string) (size : Z) : M (bool * option error) :=
  let path := ObjectPathname cfg oid in
  Debug ("Examining " +:+ name +:+ " (" +:+ path +:+ ")");;
  f ← os_Open path;
  match f with
  | inl (PathError _ _ pErr_Err) =>
      if size =? 0 then mret (true, None)
      else
        Print ("objects: openError: " +:+ name +:+ " (" +:+ oid
               +:+ ") could not be checked: " +:+ errno_Error pErr_Err);;
        mret (false, None)
  | inl err => mret (false, Some err)
  | inr f =>
      let '(written, err) := io_Copy f in
      match err with
      | Some err => mret (false, Some err)
      | None =>
          let recalculatedOid := sha256_hex written in
          if String.eqb recalculatedOid oid then mret (true, None)
          else
            Print ("objects: corruptObject: " +:+ name +:+ " (" +:+ oid
                   +:+ ") is corrupt");;
            mret (false, None)
      end
  end.

(** The callback of [doFsckObjects] (lines 120-132); [corruptOids] is
    the slice it captures. *)
Definition objects_callback (corruptOids : list string) (c : found)
  : M (list string) :=
  let '(p, err) := c in
  '(corruptOids, err) ←
    match err with
    | None =>
        match p with
        | Some p =>
            '(pointerOk, err) ← fsckPointer (Name p) (Oid p) (Size p);
            mret (if pointerOk : bool then corruptOids else corruptOids ++ [Oid p], err)
        | None => leave (runtime_panic "nil pointer dereference")
        end
    | Some _ => mret (corruptOids, err)
    end;
  match err with
  | Some err => leave (Panic (Some err) "Error checking Git LFS files")
  | None => mret corruptOids
  end.

(** [doFsckObjects] (lines 118-159). *)
Definition doFsckObjects (start end_ : string) (useIndex : bool) : M (list string) :=
  let filter := Some (mkFilter [] (FetchExcludePaths cfg)) in
  corruptOids ←
    (if String.eqb start EmptyString
     then exit_on_error (run_scan objects_callback (ScanRef git filter end_) [])
     else exit_on_error (run_scan objects_callback (ScanRefRange git filter start end_) []));
  if useIndex
  then exit_on_error (run_scan objects_callback (ScanIndex git filter "HEAD") corruptOids)
  else mret corruptOids.

(** The callback of [doFsckPointers] (lines 164-192). *)
Definition pointers_callback (corruptPointers : list corruptPointer) (c : found)
  : M (list corruptPointer) :=
  let '(p, err) := c in
  match p with
  | Some p =>
      Debug ("Examining " +:+ Oid p +:+ " (" +:+ Name p +:+ ")");;
      if negb (Canonical p) then
        let cp := {| blobOid := Sha1 p;
                     treeOid := EmptyString;
                     lfsOid := Oid p;
                     path := EmptyString;
                     message := "Pointer for " +:+ Oid p +:+ " (blob " +:+ Sha1 p
                                +:+ ") was not canonical";
                     kind := "nonCanonicalPointer" |} in
        Print ("pointer: " +:+ corruptPointer_String cp);;
        mret (corruptPointers ++ [cp])
      else mret corruptPointers
  | None =>
      if IsPointerScanError err then
        match as_PointerScanError err with
        | Some (psErr_OID, psErr_Path) =>
            let cp := {| blobOid := EmptyString;
                         treeOid := psErr_OID;
                         lfsOid := EmptyString;
                         path := psErr_Path;
                         message := strconv_Quote psErr_Path +:+ " (treeish "
                                    +:+ psErr_OID
                                    +:+ ") should have been a pointer but was not";
                         kind := "unexpectedGitObject" |} in
            Print ("pointer: " +:+ corruptPointer_String cp);;
            mret (corruptPointers ++ [cp])
        | None => mret corruptPointers
        end
      else leave (Panic err "Error checking Git LFS files")
  end.

(** [doFsckPointers] (lines 162-206). *)
Definition doFsckPointers (start end_ : string) : M (list corruptPointer) :=
  if String.eqb start EmptyString
  then exit_on_error (run_scan pointers_callback (ScanRefByTree git None end_) [])
  else exit_on_error (run_scan pointers_callback (ScanRefRangeByTree git None start end_) []).

(** Lines 49-73 of [fsckCommand]: [(useIndex, start, end)]. *)
Definition scan_range (args : list string) : M (bool * string * string) :=
  match args with
  | [] =>
      match CurrentRef git with
      | inl err => leave (ExitWithError err)
      | inr ref => mret (true, EmptyString, Sha ref)
      end
  | [arg] =>
      let pieces := strings_SplitN2 arg ".." in
      match ResolveRefs git pieces with
      | inl err => leave (ExitWithError err)
      | inr [r0; r1] => mret (false, Sha r0, Sha r1)
      | inr (r0 :: _) => mret (false, EmptyString, Sha r0)
      | inr [] => leave (runtime_panic "index out of range")
      end
  | _ => mret (false, EmptyString, "HEAD")
  end.

(** Lines 75-78: with neither [--objects] nor [--pointers], both run. *)
Definition requested (flags : Flags) : bool * bool :=
  if negb (fsckPointers flags) && negb (fsckObjects flags)
  then (true, true)
  else (fsckObjects flags, fsckPointers flags).

(** Lines 83-86: the object pass, if requested, and [ok] after it. *)
Definition objects_pass (objects : bool) (start end_ : string) (useIndex : bool)
    (ok : bool) : M (bool * list string) :=
  if objects
  then corruptOids ← doFsckObjects start end_ useIndex;
       mret (ok && bool_decide (length corruptOids = 0%nat), corruptOids)
  else mret (ok, []).

(** Lines 87-90: the pointer pass, if requested, and [ok] after it. *)
Definition pointers_pass (pointers : bool) (start end_ : string)
    (ok : bool) : M (bool * list corruptPointer) :=
  if pointers
  then corruptPointers ← doFsckPointers start end_;
       mret (ok && bool_decide (length corruptPointers = 0%nat), corruptPointers)
  else mret (ok, []).

(** Lines 49-90: the range, the requested passes and the running [ok]. *)
Definition passes (flags : Flags) (args : list string)
  : M (bool * list string * list corruptPointer) :=
  '(useIndex, start, end_) ← scan_range args;
  let '(objects, pointers) := requested flags in
  '(ok, corruptOids) ← objects_pass objects start end_ useIndex true;
  '(ok, corruptPointers) ← pointers_pass pointers start end_ ok;
  mret (ok, corruptOids, corruptPointers).

(** Lines 108-113: each corrupt object is renamed into [badDir]. *)
Fixpoint move_corrupt (badDir : string) (corruptOids : list string) : M unit :=
  match corruptOids with
  | [] => mret ()
  | oid :: rest =>
      let badFile := filepath_Join badDir oid in
      err ← os_Rename (ObjectPathname cfg oid) badFile;
      match err with
      | Some err => leave (ExitWithError err)
      | None => move_corrupt badDir rest
      end
  end.

(** Lines 92-114: the verdict and the repair. *)
Definition conclude (flags : Flags)
    (r : bool * list string * list corruptPointer) : M unit :=
  let '(ok, corruptOids, _) := r in
  if ok then Print "Git LFS fsck OK"
  else if fsckDryRun flags || bool_decide (length corruptOids = 0%nat)
  then leave (os_Exit 1)
  else
    let badDir := filepath_Join (LFSStorageDir cfg) "bad" in
    Print ("objects: repair: moving corrupt objects to " +:+ badDir);;
    err ← tools_MkdirAll badDir;
    match err with
    | Some err => leave (ExitWithError err)
    | None => move_corrupt badDir corruptOids;; leave (os_Exit 1)
    end.

(** [fsckCommand] (lines 45-115).  [installHooks] and [setupRepository]
    prepare the repository and do not touch the object store. *)
Definition fsckCommand (flags : Flags) (args : list string) : M unit :=
  r ← passes flags args; conclude flags r.

End Fsck.

(** ** Specification-side notions *)

(** [s] contains [sep]. *)
Definition contains (sep s : string) : Prop :=
  exists before after, s = before +:+ sep +:+ after.

(** The step [m] reads the store but leaves it as it was. *)
Definition reads_only {A} (m : M A) : Prop :=
  forall w o w', m w = (o, w') -> fs w' = fs w /\ readonly w' = readonly w.

(** The step [m] writes nothing to standard output. *)
Definition silent {A} (m : M A) : Prop :=
  forall w o w', m w = (o, w') -> stdout w' = stdout w.

(** The verdict of the object pass on one pointer, read off the store:
    what [fsckPointer] decides, without its printing. *)
Inductive verdict := ObjectOK | OpenError (e : errno) | CorruptObject | ReadError (e : error).

Definition classify (cfg : Configuration) (store : gmap string node)
    (p : WrappedPointer) : verdict :=
  let name := ObjectPathname cfg (Oid p) in
  match store !! name with
  | None => if Size p =? 0 then ObjectOK else OpenError ENOENT
  | Some (File _ Denied) => if Size p =? 0 then ObjectOK else OpenError EACCES
  | Some (File data Readable) =>
      if String.eqb (sha256_hex data) (Oid p) then ObjectOK else CorruptObject
  | Some (File _ Faulty) => ReadError (PathError "read" name EIO)
  | Some Dir => ReadError (PathError "read" name EISDIR)
  end.

Definition is_finding (v : verdict) : bool :=
  match v with
  | OpenError _ | CorruptObject => true
  | _ => false
  end.

(** The pointers among the callback calls of a scan. *)
Definition pointers_of (l : list found) : list WrappedPointer :=
  omap fst l.

(** The store keeps the objects [oids] and the quarantine apart: no two
    of them share a store path, and no store path of theirs is the
    quarantine directory or the place of one of them in it. *)
Record separate_paths (cfg : Configuration) (oids : list string) : Prop := {
  object_paths_inj :
    forall o o', o ∈ oids -> o' ∈ oids ->
      ObjectPathname cfg o = ObjectPathname cfg o' -> o = o';
  object_not_bad :
    forall o o', o ∈ oids -> o' ∈ oids ->
      ObjectPathname cfg o
      <> filepath_Join (filepath_Join (LFSStorageDir cfg) "bad") o';
  object_not_badDir :
    forall o, o ∈ oids ->
      ObjectPathname cfg o <> filepath_Join (LFSStorageDir cfg) "bad"
}.

(** The history scan [doFsckObjects] runs, and the one [doFsckPointers]
    runs: over a ref when [start] is empty, over a range otherwise. *)
Definition blob_scan (cfg : Configuration) (git : Repository)
    (start end_ : string) : scan :=
  let filter := Some (mkFilter [] (FetchExcludePaths cfg)) in
  if String.eqb start EmptyString
  then ScanRef git filter end_
  else ScanRefRange git filter start end_.

Definition index_scan (cfg : Configuration) (git : Repository) : scan :=
  ScanIndex git (Some (mkFilter [] (FetchExcludePaths cfg))) "HEAD".

Definition tree_scan (git : Repository) (start end_ : string) : scan :=
  if String.eqb start EmptyString
  then ScanRefByTree git None end_
  else ScanRefRangeByTree git None start end_.

Definition openError_line (p : WrappedPointer) (e : errno) : string :=
  "objects: openError: " +:+ Name p +:+ " (" +:+ Oid p
  +:+ ") could not be checked: " +:+ errno_Error e.

Definition corruptObject_line (p : WrappedPointer) : string :=
  "objects: corruptObject: " +:+ Name p +:+ " (" +:+ Oid p +:+ ") is corrupt".

Definition examining_line (cfg : Configuration) (p : WrappedPointer) : string :=
  "Examining " +:+ Name p +:+ " (" +:+ ObjectPathname cfg (Oid p) +:+ ")".

(** The object pass, run on [w] with these arguments, gets to the call
    [c] with the corrupt list [acc] in the world [w1], [post] being the
    calls still to come in that scan: either in the history scan, or in
    the index scan after the history scan has ended without an error. *)
Inductive object_pass_reaches (cfg : Configuration) (git : Repository)
    (start end_ : string) (useIndex : bool) (w : World)
  : found -> list found -> list string -> World -> Prop :=
  | reaches_in_history pre c post acc w1 :
      calls (blob_scan cfg git start end_) = pre ++ c :: post ->
      run_calls (objects_callback cfg) pre [] w = (Return acc, w1) ->
      object_pass_reaches cfg git start end_ useIndex w c post acc w1
  | reaches_in_index pre c post acc0 w0 acc w1 :
      useIndex = true ->
      result (blob_scan cfg git start end_) = None ->
      run_calls (objects_callback cfg) (calls (blob_scan cfg git start end_)) [] w
      = (Return acc0, w0) ->
      calls (index_scan cfg git) = pre ++ c :: post ->
      run_calls (objects_callback cfg) pre acc0 w0 = (Return acc, w1) ->
      object_pass_reaches cfg git start end_ useIndex w c post acc w1.

(** C2, as stated: whenever the open fails and it is not the case that
    the path is missing while the declared size is 0, the content hash is
    added to the corrupt set. *)
Definition every_other_open_failure_is_openError : Prop :=
  forall cfg acc p w err w',
    os_Open (ObjectPathname cfg (Oid p)) w = (Return (inl err), w') ->
    ~ (fs w !! ObjectPathname cfg (Oid p) = None /\ Size p = 0) ->
    exists w'', objects_callback cfg acc (Some p, None) w
                = (Return (acc ++ [Oid p]), w'').

(** The callback [cb] prints one line for each entry it appends. *)
Definition line_per_finding {A} (cb : list A -> found -> M (list A)) : Prop :=
  forall acc c w acc' w',
    cb acc c w = (Return acc', w') ->
    exists new lines,
      acc' = acc ++ new /\ stdout w' = stdout w ++ lines
      /\ length new = length lines.

(** C1, as stated: whenever a pass has a finding, the process ends with
    status 1. *)
Definition every_finding_exits_1 : Prop :=
  forall cfg git flags args w ok oids ptrs w1,
    passes cfg git flags args w = (Return (ok, oids, ptrs), w1) ->
    oids <> [] \/ ptrs <> [] ->
    exit_status (fsckCommand cfg git flags args w).1 = 1.

(** C9, as stated: the corrupt list of the object pass never holds a
    content hash twice. *)
Definition corrupt_oids_never_repeat : Prop :=
  forall cfg git start end_ useIndex w oids w',
    doFsckObjects cfg git start end_ useIndex w = (Return oids, w') ->
    NoDup oids.

(** The content hashes of the records among [l] whose stored object is
    found missing or corrupt in [store], one for each such record. *)
Definition findings_of (cfg : Configuration) (store : gmap string node)
    (l : list found) : list string :=
  Oid <$> filter (fun p => is_finding (classify cfg store p) = true) (pointers_of l).

(** The callback calls of the object pass, history first. *)
Definition object_pass_calls (cfg : Configuration) (git : Repository)
    (start end_ : string) (useIndex : bool) : list found :=
  calls (blob_scan cfg git start end_)
  ++ (if useIndex then calls (index_scan cfg git) else []).


(** The corrupt pointers the passes returned, none if the process ended. *)
Definition pointer_findings
    (o : outcome (bool * list string * list corruptPointer)) : list corruptPointer :=
  match o with
  | Return (_, _, corruptPointers) => corruptPointers
  | Exits _ => []
  end.

(** The repository [git] with another index scan. *)
Definition with_ScanIndex (git : Repository)
    (index : option Filter -> string -> scan) : Repository :=
  {| CurrentRef := CurrentRef git;
     ResolveRefs := ResolveRefs git;
     ScanRef := ScanRef git;
     ScanRefRange := ScanRefRange git;
     ScanIndex := index;
     ScanRefByTree := ScanRefByTree git;
     ScanRefRangeByTree := ScanRefRangeByTree git |}.

(** The step [m], when it ends the process, does not end it through
    [os.Exit]: it aborts with an error. *)
Definition never_os_Exit {A} (m : M A) : Prop :=
  forall w e w', m w = (Exits e, w') -> forall code, e <> os_Exit code.

(** The repository [git] with other answers about refs. *)
Definition with_refs (git : Repository) (current : error + Ref)
    (resolve : list string -> error + list Ref) : Repository :=
  {| CurrentRef := current;
     ResolveRefs := resolve;
     ScanRef := ScanRef git;
     ScanRefRange := ScanRefRange git;
     ScanIndex := ScanIndex git;
     ScanRefByTree := ScanRefByTree git;
     ScanRefRangeByTree := ScanRefRangeByTree git |}.


(** The line [fsckPointer] prints for a record whose object is missing or
    corrupt in [store]. *)
Definition object_line (cfg : Configuration) (store : gmap string node)
    (p : WrappedPointer) : string :=
  match classify cfg store p with
  | OpenError e => openError_line p e
  | _ => corruptObject_line p
  end.

(** The records among [l] whose stored object is missing or corrupt. *)
Definition failing_records (cfg : Configuration) (store : gmap string node)
    (l : list found) : list WrappedPointer :=
  filter (fun p => is_finding (classify cfg store p) = true) (pointers_of l).




(** [c] is one of [0-9a-f]. *)
Definition lower_hex (c : ascii) : bool :=
  let n := Ascii.N_of_ascii c in
  ((48 <=? n) && (n <=? 57) || (97 <=? n) && (n <=? 102))%N.

(** ** lfshttp/endpoint.go

    How an endpoint of a Git LFS server is built from a URL.  [url.Parse]
    belongs to the Go library and is a parameter of
    [EndpointFromBareSshUrl]; the regular expression and the string
    functions are written out. *)
Module Lfshttp.

(** The fields of [url.URL] and [url.Userinfo] the file reads. *)
Record Userinfo := mkUserinfo { Username : string }.

Record URL := mkURL {
  User : option Userinfo;
  Host : string;
  URLPath : string                  (* u.Path *)
}.

(** [ssh.SSHMetadata]. *)
Record ssh_SSHMetadata := mkSSHMetadata {
  UserAndHost : string;
  Port : string;
  Path : string
}.

(** [Endpoint]. *)
Record Endpoint := mkEndpoint {
  Url : string;
  SSHMetadata : ssh_SSHMetadata;
  Operation : string
}.

Definition UrlUnknown : string := "<unknown>".

(** The zero value of the struct, as [var endpoint Endpoint] gives it. *)
Definition zero_Endpoint : Endpoint :=
  mkEndpoint EmptyString (mkSSHMetadata EmptyString EmptyString EmptyString) EmptyString.

(** [endpointOperation] (lines 22-33). *)
Definition endpointOperation (e : Endpoint) (method : string) : string :=
  if (0 <? String.length (Operation e))%nat then Operation e
  else if String.eqb method "GET" || String.eqb method "HEAD" then "download"
  else "upload".

Definition not_colon (c : ascii) : bool := negb (Ascii.eqb c ":").

Definition is_digit (c : ascii) : bool :=
  let n := Ascii.N_of_ascii c in ((48 <=? n) && (n <=? 57))%N.

(** The longest prefix of [s] without a colon, and what follows it. *)
Fixpoint span_not_colon (s : string) : string * string :=
  match s with
  | EmptyString => (EmptyString, EmptyString)
  | String c rest =>
      if not_colon c
      then let '(h, r) := span_not_colon rest in (String c h, r)
      else (EmptyString, s)
  end.

(** [FindStringSubmatch] for the expression of line 39: one or more
    characters other than a colon, then optionally a colon and one or
    more digits, up to the end of the text.  The slice holds the whole
    match and the two groups, the second empty when there is no port. *)
Definition FindStringSubmatch (s : string) : option (list string) :=
  let '(host, rest) := span_not_colon s in
  match host, rest with
  | EmptyString, _ => None
  | _, EmptyString => Some [s; host; EmptyString]
  | _, String _ EmptyString => None
  | _, String _ port =>
      if string_forall is_digit port then Some [s; host; port] else None
  end.

(** [EndpointFromSshUrl] (lines 36-64). *)
Definition EndpointFromSshUrl (u : URL) : Endpoint :=
  match FindStringSubmatch (Host u) with
  | None => mkEndpoint UrlUnknown (SSHMetadata zero_Endpoint) (Operation zero_Endpoint)
  | Some match_ =>
      if (length match_ <? 2)%nat
      then mkEndpoint UrlUnknown (SSHMetadata zero_Endpoint) (Operation zero_Endpoint)
      else
        let host := nth 1 match_ EmptyString in
        let userAndHost :=
          match User u with
          | Some user =>
              if negb (String.eqb (Username user) EmptyString)
              then Username user +:+ "@" +:+ host
              else host
          | None => host
          end in
        let port :=
          if (2 <? length match_)%nat then nth 2 match_ EmptyString
          else Port (SSHMetadata zero_Endpoint) in
        mkEndpoint ("https://" +:+ host +:+ URLPath u)
          (mkSSHMetadata userAndHost port (URLPath u))
          (Operation zero_Endpoint)
  end.

(** [strings.Split(s, ":")]. *)
Fixpoint strings_Split_colon (s : string) : list string :=
  match s with
  | EmptyString => [EmptyString]
  | String c rest =>
      if not_colon c
      then match strings_Split_colon rest with
           | piece :: pieces => String c piece :: pieces
           | [] => [String c EmptyString]
           end
      else EmptyString :: strings_Split_colon rest
  end.

(** [strings.Join]. *)
Fixpoint strings_Join (elems : list string) (sep : string) : string :=
  match elems with
  | [] => EmptyString
  | [e] => e
  | e :: rest => e +:+ sep +:+ strings_Join rest sep
  end.

(** [strings.TrimPrefix]. *)
Definition strings_TrimPrefix (s prefix : string) : string :=
  match strip_prefix prefix s with
  | Some rest => rest
  | None => s
  end.

Fixpoint string_rev (s acc : string) : string :=
  match s with
  | EmptyString => acc
  | String c rest => string_rev rest (String c acc)
  end.

(** [strings.TrimSuffix], through the reversed strings. *)
Definition strings_TrimSuffix (s suffix : string) : string :=
  match strip_prefix (string_rev suffix EmptyString) (string_rev s EmptyString) with
  | Some rest => string_rev rest EmptyString
  | None => s
  end.

(** Lines 72-88 of [EndpointFromBareSshUrl]: the [ssh://] URL that is
    handed to [url.Parse], or nothing when [rawurl] has no colon. *)
Definition bare_ssh_rawurl (rawurl : string) : option string :=
  let parts := strings_Split_colon rawurl in
  let partsLen := length parts in
  if (partsLen <? 2)%nat then None
  else
    let newPath :=
      if (2 <? length parts)%nat then
        let parts := <[0%nat := strings_TrimPrefix (nth 0 parts EmptyString) "["]> parts in
        let parts := <[1%nat := strings_TrimSuffix (nth 1 parts EmptyString) "]"]> parts in
        nth 0 parts EmptyString +:+ ":" +:+ strings_Join (drop 1 parts) "/"
      else strings_Join parts "/" in
    Some ("ssh://" +:+ newPath).

(** [EndpointFromBareSshUrl] (lines 71-99). *)
Definition EndpointFromBareSshUrl (url_Parse : string -> error + URL)
    (rawurl : string) : Endpoint :=
  match bare_ssh_rawurl rawurl with
  | None => mkEndpoint rawurl (SSHMetadata zero_Endpoint) (Operation zero_Endpoint)
  | Some newrawurl =>
      match url_Parse newrawurl with
      | inl _ =>
          mkEndpoint UrlUnknown (SSHMetadata zero_Endpoint) (Operation zero_Endpoint)
      | inr newu =>
          let endpoint := EndpointFromSshUrl newu in
          match strip_prefix "/" (Path (SSHMetadata endpoint)) with
          | Some rest =>
              mkEndpoint (Url endpoint)
                (mkSSHMetadata (UserAndHost (SSHMetadata endpoint))
                   (Port (SSHMetadata endpoint)) rest)
                (Operation endpoint)
          | None => endpoint
          end
      end
  end.

(** A host name, with an optional port, as line 39 accepts it. *)
Definition host_and_port (h port : string) : string :=
  match port with
  | EmptyString => h
  | _ => h +:+ ":" +:+ port
  end.

Definition well_formed_host (h port : string) : Prop :=
  h <> EmptyString /\ string_forall not_colon h = true
  /\ string_forall is_digit port = true.

(** A parser that knows one URL. *)
Definition parse_example (s : string) : error + URL :=
  if String.eqb s "ssh://git@example.com:2222/org/repo.git"
  then inr (mkURL (Some (mkUserinfo "git")) "example.com:2222" "/org/repo.git")
  else inl (ErrorString "parse error").

End Lfshttp.

(** ** A sample store *)
Module Sample.

Definition cfg : Configuration :=
  {| LFSStorageDir := "/repo/.git/lfs";
     ObjectPathname := fun oid => "/repo/.git/lfs/objects/" +:+ oid;
     FetchExcludePaths := [] |}.

Definition oid_abc : string :=
  "ba7816bf8f01cfea414140de5dae2223b00361a396177a9cb410ff61f20015ad".
Definition oid_hello : string :=
  "2cf24dba5fb0a30e26e83b2ac5b9e29e1b161e5c1fa7425e73043362938b9824".
Definition oid_gone : string :=
  "ffe054fe7ae0cb6dc65c3af9b61d5209f439851db43d0ba5997337df154668eb".
Definition oid_empty : string :=
  "e3b0c44298fc1c149afbf4c8996fb92427ae41e4649b934ca495991b7852b855".
Definition oid_hundred : string :=
  "d6cbb053abf2933889a0ccbf6ac244623a63a2e3397e991dde09266bdaa932d1".
Definition oid_dir : string :=
  "b35439a4ac6f0948b6d6f9e3c6af0f5f590ce20f1bde7090ef7970686ec6738a".

(** [abc] is intact, [hello] has one bit flipped, the object of a
    hundred bytes is cut to fifty, the empty object is present but
    unreadable, one object path is a directory, and [oid_gone] has no
    file. *)
Definition store : gmap string node :=
  <[ObjectPathname cfg oid_abc := File "abc" Readable]>
    (<[ObjectPathname cfg oid_hundred
       := File "bbbbbbbbbbbbbbbbbbbbbbbbbbbbbbbbbbbbbbbbbbbbbbbbbb" Readable]>
    (<[ObjectPathname cfg oid_hello := File "helln" Readable]>
       (<[ObjectPathname cfg oid_empty := File EmptyString Denied]>
          (<[ObjectPathname cfg oid_dir := Dir]> ∅)))).

Definition world : World :=
  {| fs := store; readonly := false; stdout := []; trace := [] |}.

(** The same store with the directories above the objects listed. *)
Definition repository : World :=
  {| fs := <["/repo" := Dir]>
             (<["/repo/.git" := Dir]>
                (<[LFSStorageDir cfg := Dir]>
                   (<["/repo/.git/lfs/objects" := Dir]> store)));
     readonly := false; stdout := []; trace := [] |}.

Definition p_abc := mkWrappedPointer "1a2b" "a.bin" oid_abc 3 true.
Definition p_hello := mkWrappedPointer "3c4d" "h.bin" oid_hello 5 true.
Definition p_hundred := mkWrappedPointer "4d5e" "t.bin" oid_hundred 100 true.
Definition p_gone := mkWrappedPointer "5e6f" "g.bin" oid_gone 64 true.
Definition p_empty := mkWrappedPointer "7a8b" "e.bin" oid_empty 0 true.
Definition p_dir := mkWrappedPointer "9c0d" "d.bin" oid_dir 56 true.
Definition p_loose := mkWrappedPointer "e1f2" "l.bin" oid_abc 3 false.

Definition calls_read_error : list found :=
  [(Some p_abc, None); (Some p_dir, None); (Some p_hello, None)].


Definition calls_two_corrupt : list found :=
  [(Some p_hello, None); (Some p_abc, None); (Some p_hundred, None)].

Definition calls_clean : list found := [(Some p_abc, None); (Some p_empty, None)].

Definition head : Ref := mkRef "refs/heads/main" "c0ffee".

(** A repository whose scans all make the calls [objs] (by blob) or
    [trees] (by tree), and whose index scan makes the calls [idx]. *)
Definition repo (objs idx trees : list found) : Repository :=
  {| CurrentRef := inr head;
     ResolveRefs := fun names => inr ((fun n => mkRef n ("sha-" +:+ n)) <$> names);
     ScanRef := fun _ _ => mkScan objs None;
     ScanRefRange := fun _ _ _ => mkScan objs None;
     ScanIndex := fun _ _ => mkScan idx None;
     ScanRefByTree := fun _ _ => mkScan trees None;
     ScanRefRangeByTree := fun _ _ _ => mkScan trees None |}.

(** A repository in which no ref resolves. *)
Definition unborn : Repository :=
  {| CurrentRef := inl (ErrorString "ref not found");
     ResolveRefs := fun _ => inl (ErrorString "ref not found");
     ScanRef := fun _ _ => mkScan [] None;
     ScanRefRange := fun _ _ _ => mkScan [] None;
     ScanIndex := fun _ _ => mkScan [] None;
     ScanRefByTree := fun _ _ => mkScan [] None;
     ScanRefRangeByTree := fun _ _ _ => mkScan [] None |}.

(** A repository whose history scan makes the calls [objs] and then
    returns the error [err]. *)
Definition broken_scan (objs : list found) (err : error) : Repository :=
  {| CurrentRef := inr head;
     ResolveRefs := fun names => inr ((fun n => mkRef n ("sha-" +:+ n)) <$> names);
     ScanRef := fun _ _ => mkScan objs (Some err);
     ScanRefRange := fun _ _ _ => mkScan objs (Some err);
     ScanIndex := fun _ _ => mkScan [(Some p_hundred, None)] None;
     ScanRefByTree := fun _ _ => mkScan [] None;
     ScanRefRangeByTree := fun _ _ _ => mkScan [] None |}.

(** The hash of [abc] in capitals, and a store that keeps [abc] under
    that name. *)
Definition oid_ABC : string :=
  "BA7816BF8F01CFEA414140DE5DAE2223B00361A396177A9CB410FF61F20015AD".

Definition p_ABC := mkWrappedPointer "a1b2" "A.bin" oid_ABC 3 true.

Definition capitals : World :=
  {| fs := {[ ObjectPathname cfg oid_ABC := File "abc" Readable ]};
     readonly := false; stdout := []; trace := [] |}.

Definition default_flags : Flags := mkFlags false false false.
Definition dry_run : Flags := mkFlags true false false.
Definition pointers_only : Flags := mkFlags false false true.

End Sample.

(** * Theorems *)

(** Closes [l = r] by evaluating both sides, leaving [r] as it is written
    in the proof. *)
Ltac by_vm :=
  lazymatch goal with
  | |- ?l = ?r => vm_cast_no_check (@eq_refl _ r)
  end.

Example sha256_constants :
  Sha256.init !! 0%nat = Some 0x6a09e667 /\ Sha256.init !! 7%nat = Some 0x5be0cd19
  /\ Sha256.K !! 0%nat = Some 0x428a2f98 /\ Sha256.K !! 63%nat = Some 0xc67178f2
  /\ length Sha256.K = 64%nat.
Proof. repeat split. Qed.

Example sha256_hex_empty :
  sha256_hex EmptyString
  = "e3b0c44298fc1c149afbf4c8996fb92427ae41e4649b934ca495991b7852b855"%string.
Proof. vm_compute. reflexivity. Qed.

Example sha256_hex_abc :
  sha256_hex "abc"
  = "ba7816bf8f01cfea414140de5dae2223b00361a396177a9cb410ff61f20015ad"%string.
Proof. vm_compute. reflexivity. Qed.

Example sha256_hex_two_blocks :
  sha256_hex "aaaaaaaaaaaaaaaaaaaaaaaaaaaaaaaaaaaaaaaaaaaaaaaaaaaaaaaa"
  = "b35439a4ac6f0948b6d6f9e3c6af0f5f590ce20f1bde7090ef7970686ec6738a"%string.
Proof. vm_compute. reflexivity. Qed.

Example sha256_hex_full_block :
  sha256_hex "aaaaaaaaaaaaaaaaaaaaaaaaaaaaaaaaaaaaaaaaaaaaaaaaaaaaaaaaaaaaaaaa"
  = Sample.oid_gone.
Proof. vm_compute. reflexivity. Qed.

(** ** Strings *)

Lemma append_nil s : EmptyString +:+ s = s.
Proof. reflexivity. Qed.

Lemma append_cons c s t : String c s +:+ t = String c (s +:+ t).
Proof. reflexivity. Qed.

Lemma append_assoc a b c : (a +:+ b) +:+ c = a +:+ b +:+ c.
Proof.
  induction a as [|x a IH]; [reflexivity|]. rewrite !append_cons. now f_equal.
Qed.

Lemma append_inj_l p a b : p +:+ a = p +:+ b -> a = b.
Proof.
  induction p as [|c p IH]; [now rewrite !append_nil|].
  rewrite !append_cons. intros H. inversion H. auto.
Qed.

Lemma append_empty_r p : p +:+ EmptyString = p.
Proof. induction p as [|c p IH]; [reflexivity|]. rewrite append_cons. now f_equal. Qed.

Lemma append_snoc_ne d s : s <> EmptyString -> d +:+ s <> d.
Proof.
  intros Hs H. rewrite <- (append_empty_r d) in H at 2.
  apply append_inj_l in H. contradiction.
Qed.

(** The models of [filepath.Clean], [filepath.Join] and [strconv.Quote]
    on inputs of the library's own tests. *)
Example filepath_Clean_cases :
  filepath_Clean EmptyString = "."%string
  /\ filepath_Clean "abc/def/" = "abc/def"%string
  /\ filepath_Clean "abc//def//ghi" = "abc/def/ghi"%string
  /\ filepath_Clean "/./abc/def" = "/abc/def"%string
  /\ filepath_Clean "abc/def/../ghi/../jkl" = "abc/jkl"%string
  /\ filepath_Clean "abc/def/../.." = "."%string
  /\ filepath_Clean "/abc/def/../../.." = "/"%string
  /\ filepath_Clean "abc/def/../../../ghi/jkl/../../../mno" = "../../mno"%string
  /\ filepath_Clean "abc/../../././../def" = "../../def"%string
  /\ filepath_Clean "//abc//" = "/abc"%string.
Proof. repeat split. Qed.

Example filepath_Join_cases :
  filepath_Join "/repo/.git/lfs/" "bad" = "/repo/.git/lfs/bad"%string
  /\ filepath_Join "/repo/.git/lfs/bad" "../objects/x" = "/repo/.git/lfs/objects/x"%string
  /\ filepath_Join "a" EmptyString = "a"%string
  /\ filepath_Join EmptyString "b/../c" = "c"%string
  /\ filepath_Join EmptyString EmptyString = EmptyString.
Proof. repeat split. Qed.

Example strconv_Quote_cases :
  strconv_Quote "data.bin" = dquote +:+ "data.bin" +:+ dquote
  /\ strconv_Quote (string_of_bytes [7; 8; 12; 13; 10; 9; 11])
     = dquote +:+ "\a\b\f\r\n\t\v" +:+ dquote
  /\ strconv_Quote (string_of_bytes [97; 34; 98; 92; 99])
     = dquote +:+ "a" +:+ bslash +:+ dquote +:+ "b" +:+ bslash +:+ bslash +:+ "c"
       +:+ dquote
  /\ strconv_Quote (string_of_bytes [97; 98; 99; 0xff; 100; 101; 102])
     = dquote +:+ "abc\xffdef" +:+ dquote
  /\ strconv_Quote (string_of_bytes [4; 0x7f]) = dquote +:+ "\x04\x7f" +:+ dquote
  /\ strconv_Quote (string_of_bytes [0xC2; 0x85]) = dquote +:+ "\u0085" +:+ dquote
  /\ strconv_Quote (string_of_bytes [0xC3; 0xA9])
     = dquote +:+ string_of_bytes [0xC3; 0xA9] +:+ dquote
  /\ strconv_Quote (string_of_bytes [0xC0; 0x80; 0xED; 0xA0; 0x80])
     = dquote +:+ "\xc0\x80\xed\xa0\x80" +:+ dquote
  /\ strconv_Quote (string_of_bytes [33; 0xC2; 0xA0; 33; 0xE2; 0x80; 0x80; 33])
     = dquote +:+ "!\u00a0!\u2000!" +:+ dquote
  /\ strconv_Quote (string_of_bytes [0xE2; 0x98; 0xBA])
     = dquote +:+ string_of_bytes [0xE2; 0x98; 0xBA] +:+ dquote
  /\ strconv_Quote (string_of_bytes [0xF4; 0x8F; 0xBF; 0xBF])
     = dquote +:+ "\U0010ffff" +:+ dquote.
Proof. repeat split; vm_compute; reflexivity. Qed.



(** ** Steps and their sequencing *)

Lemma run_as_pair {A} (r : outcome A * World) (o : outcome A) :
  r.1 = o -> r = (o, r.2).
Proof. destruct r as [o' w]. cbn. now intros ->. Qed.

Lemma bind_Return {A B} (m : M A) (k : A -> M B) w a w' :
  m w = (Return a, w') -> (m ≫= k) w = k a w'.
Proof. intros H. unfold mbind, M_bind. now rewrite H. Qed.

Lemma bind_Exits {A B} (m : M A) (k : A -> M B) w e w' :
  m w = (Exits e, w') -> (m ≫= k) w = (Exits e, w').
Proof. intros H. unfold mbind, M_bind. now rewrite H. Qed.

Lemma bind_inv {A B} (m : M A) (k : A -> M B) w o w2 :
  (m ≫= k) w = (o, w2) ->
  (exists a w1, m w = (Return a, w1) /\ k a w1 = (o, w2))
  \/ (exists e, m w = (Exits e, w2) /\ o = Exits e).
Proof.
  unfold mbind, M_bind. destruct (m w) as [[a|e] w1]; intros H.
  - left. eauto.
  - right. inversion H; subst. eauto.
Qed.

(** *** Steps that leave the store alone *)

Lemma reads_only_ret {A} (a : A) : reads_only (mret a).
Proof. intros w o w' H. inversion H; auto. Qed.

Lemma reads_only_leave {A} e : reads_only (@leave A e).
Proof. intros w o w' H. inversion H; auto. Qed.

Lemma reads_only_bind {A B} (m : M A) (k : A -> M B) :
  reads_only m -> (forall a, reads_only (k a)) -> reads_only (m ≫= k).
Proof.
  intros Hm Hk w o w2 H. apply bind_inv in H as [(a & w1 & H1 & H2)|(e & H1 & _)].
  - apply Hm in H1 as [E1 E2]. apply Hk in H2 as [E3 E4]. split; congruence.
  - now apply Hm in H1.
Qed.

Lemma reads_only_Print line : reads_only (Print line).
Proof. intros w o w' H. inversion H; auto. Qed.

Lemma reads_only_Debug line : reads_only (Debug line).
Proof. intros w o w' H. inversion H; auto. Qed.

Lemma reads_only_os_Open name : reads_only (os_Open name).
Proof.
  intros w o w' H. unfold os_Open in H.
  repeat case_match; inversion H; auto.
Qed.

Create HintDb frame.
#[local] Hint Resolve reads_only_ret reads_only_leave reads_only_Print
  reads_only_Debug reads_only_os_Open : frame.

Ltac frame_step :=
  first [ solve [auto with frame]
        | apply reads_only_bind; [| intros ? ]
        | progress cbv zeta
        | case_match ].

Lemma reads_only_fsckPointer cfg name oid size :
  reads_only (fsckPointer cfg name oid size).
Proof. unfold fsckPointer. repeat frame_step. Qed.

Lemma reads_only_objects_callback cfg acc c :
  reads_only (objects_callback cfg acc c).
Proof.
  unfold objects_callback. destruct c as [p err].
  pose proof reads_only_fsckPointer. repeat frame_step.
Qed.

Lemma reads_only_pointers_callback acc c :
  reads_only (pointers_callback acc c).
Proof. unfold pointers_callback. destruct c as [p err]. repeat frame_step. Qed.

Lemma reads_only_run_calls {S} (cb : S -> found -> M S) l :
  (forall s c, reads_only (cb s c)) -> forall s, reads_only (run_calls cb l s).
Proof.
  intros Hcb. induction l as [|c l IH]; intros s; simpl; repeat frame_step.
Qed.

Lemma reads_only_scan {S} (cb : S -> found -> M S) sc s :
  (forall s c, reads_only (cb s c)) -> reads_only (exit_on_error (run_scan cb sc s)).
Proof.
  intros Hcb. unfold exit_on_error, run_scan.
  pose proof (reads_only_run_calls cb (calls sc) Hcb). repeat frame_step.
Qed.

Lemma reads_only_doFsckObjects cfg git start end_ useIndex :
  reads_only (doFsckObjects cfg git start end_ useIndex).
Proof.
  unfold doFsckObjects.
  pose proof (fun sc s => reads_only_scan (objects_callback cfg) sc s
                            (reads_only_objects_callback cfg)).
  repeat frame_step.
Qed.

Lemma reads_only_doFsckPointers git start end_ :
  reads_only (doFsckPointers git start end_).
Proof.
  unfold doFsckPointers.
  pose proof (fun sc s => reads_only_scan pointers_callback sc s
                            reads_only_pointers_callback).
  repeat frame_step.
Qed.

Lemma reads_only_scan_range git args : reads_only (scan_range git args).
Proof. unfold scan_range. repeat frame_step. Qed.

Lemma reads_only_passes cfg git flags args :
  reads_only (passes cfg git flags args).
Proof.
  unfold passes.
  pose proof reads_only_scan_range. pose proof reads_only_doFsckObjects.
  pose proof reads_only_doFsckPointers.
  unfold objects_pass, pointers_pass. repeat frame_step.
Qed.

(** ** The object pass *)

(** What the callback of the object pass does with a pointer, by the
    verdict on its stored object. *)
Lemma objects_callback_classify cfg acc p w :
  objects_callback cfg acc (Some p, None) w =
  let w0 := traced (examining_line cfg p) w in
  match classify cfg (fs w) p with
  | ObjectOK => (Return acc, w0)
  | OpenError e => (Return (acc ++ [Oid p]), printed (openError_line p e) w0)
  | CorruptObject => (Return (acc ++ [Oid p]), printed (corruptObject_line p) w0)
  | ReadError e => (Exits (Panic (Some e) "Error checking Git LFS files"), w0)
  end.
Proof.
  unfold objects_callback, fsckPointer, classify, mbind, M_bind, Debug, os_Open,
    io_Copy, Print, mret, M_ret, leave; cbn [fs traced fname fnode].
  destruct (fs w !! ObjectPathname cfg (Oid p)) as [[data []|]|];
    cbn [fname fnode]; repeat case_match; simplify_eq; reflexivity.
Qed.

Lemma os_Open_inv name w r w' :
  os_Open name w = (r, w') ->
  w' = w /\
  match r with
  | Return (inl err) =>
      (fs w !! name = None /\ err = PathError "open" name ENOENT)
      \/ (exists data, fs w !! name = Some (File data Denied)
                       /\ err = PathError "open" name EACCES)
  | Return (inr f) =>
      fs w !! name = Some (fnode f) /\ fname f = name
      /\ forall data, fnode f <> File data Denied
  | Exits _ => False
  end.
Proof.
  unfold os_Open. intros H.
  destruct (fs w !! name) as [[data []|]|] eqn:E; inversion H; subst;
    split; eauto; cbn; repeat split; try congruence; eauto.
Qed.

Lemma io_Copy_inv f written err :
  io_Copy f = (written, err) ->
  match err with
  | None => fnode f = File written Readable
  | Some e =>
      (exists data m, fnode f = File data m /\ m <> Readable
                      /\ e = PathError "read" (fname f) EIO)
      \/ (fnode f = Dir /\ e = PathError "read" (fname f) EISDIR)
  end.
Proof.
  unfold io_Copy. destruct (fnode f) as [data []|]; intros H; inversion H; subst;
    eauto; left; do 2 eexists; repeat split; congruence.
Qed.

Lemma run_calls_cons {S} (cb : S -> found -> M S) c rest s w s' w' :
  cb s c w = (Return s', w') ->
  run_calls cb (c :: rest) s w = run_calls cb rest s' w'.
Proof. intros H. cbn [run_calls]. now apply bind_Return. Qed.

Lemma run_calls_app_Return {S} (cb : S -> found -> M S) pre post s w s' w' :
  run_calls cb pre s w = (Return s', w') ->
  run_calls cb (pre ++ post) s w = run_calls cb post s' w'.
Proof.
  revert s w. induction pre as [|c pre IH]; intros s w H; cbn in *.
  - now inversion H.
  - apply bind_inv in H as [(a & w1 & H1 & H2)|(e & _ & ?)]; [|discriminate].
    erewrite bind_Return by eassumption. now apply IH.
Qed.

Lemma run_calls_abort {S} (cb : S -> found -> M S) pre c post s w s' w' e w'' :
  run_calls cb pre s w = (Return s', w') ->
  cb s' c w' = (Exits e, w'') ->
  run_calls cb (pre ++ c :: post) s w = (Exits e, w'').
Proof.
  intros Hpre Hc. erewrite run_calls_app_Return by eassumption.
  cbn [run_calls]. now apply bind_Exits.
Qed.

Lemma fsckPointer_classify cfg p w :
  fsckPointer cfg (Name p) (Oid p) (Size p) w =
  let w0 := traced (examining_line cfg p) w in
  match classify cfg (fs w) p with
  | ObjectOK => (Return (true, None), w0)
  | OpenError e => (Return (false, None), printed (openError_line p e) w0)
  | CorruptObject => (Return (false, None), printed (corruptObject_line p) w0)
  | ReadError e => (Return (false, Some e), w0)
  end.
Proof.
  unfold fsckPointer, classify, mbind, M_bind, Debug, os_Open,
    io_Copy, Print, mret, M_ret; cbn [fs traced fname fnode].
  destruct (fs w !! ObjectPathname cfg (Oid p)) as [[data []|]|];
    cbn [fname fnode]; repeat case_match; simplify_eq; reflexivity.
Qed.

Lemma classify_open_failure cfg p w err w' :
  os_Open (ObjectPathname cfg (Oid p)) w = (Return (inl err), w') ->
  exists e, err = PathError "open" (ObjectPathname cfg (Oid p)) e
            /\ classify cfg (fs w) p = if Size p =? 0 then ObjectOK else OpenError e.
Proof.
  intros H. apply os_Open_inv in H as [_ [[E ->]|(data & E & ->)]];
    eexists; (split; [reflexivity|]); unfold classify; now rewrite E.
Qed.

Lemma classify_opened cfg p w f w' data :
  os_Open (ObjectPathname cfg (Oid p)) w = (Return (inr f), w') ->
  io_Copy f = (data, None) ->
  fs w !! ObjectPathname cfg (Oid p) = Some (File data Readable)
  /\ classify cfg (fs w) p
     = if String.eqb (sha256_hex data) (Oid p) then ObjectOK else CorruptObject.
Proof.
  intros H Hc. apply os_Open_inv in H as [_ (E & _ & _)].
  apply io_Copy_inv in Hc. rewrite Hc in E. unfold classify. now rewrite E.
Qed.

Lemma classify_read_failure cfg p w f w' part e :
  os_Open (ObjectPathname cfg (Oid p)) w = (Return (inr f), w') ->
  io_Copy f = (part, Some e) ->
  classify cfg (fs w) p = ReadError e.
Proof.
  intros H Hc. apply os_Open_inv in H as [_ (E & En & Hd)].
  apply io_Copy_inv in Hc as [(data & m & Ef & Hm & ->)|[Ef ->]];
    rewrite Ef in E; unfold classify; rewrite E, En.
  - destruct m; try reflexivity; [congruence | now destruct (Hd data)].
  - reflexivity.
Qed.

(** C2, counterexample: the empty object's file exists but cannot be
    opened (permission denied) and the pointer declares size 0; the open
    fails for a reason other than a missing path, yet [fsckPointer]
    answers OK and nothing is added to the corrupt set. *)
Lemma denied_empty_object_is_ok : ~ every_other_open_failure_is_openError.
Proof.
  intros H.
  assert (Hfile : fs Sample.world !! ObjectPathname Sample.cfg (Oid Sample.p_empty)
                  = Some (File EmptyString Denied)) by by_vm.
  assert (Hcb : objects_callback Sample.cfg [] (Some Sample.p_empty, None) Sample.world
                = (Return [],
                   traced (examining_line Sample.cfg Sample.p_empty) Sample.world))
    by by_vm.
  destruct (H Sample.cfg [] Sample.p_empty Sample.world
              (PathError "open" (ObjectPathname Sample.cfg (Oid Sample.p_empty)) EACCES)
              Sample.world) as [w'' Hw''].
  - by_vm.
  - intros [E _]. rewrite Hfile in E. discriminate.
  - rewrite Hcb in Hw''. inversion Hw''.
Qed.

(** C2 (amended): when opening the stored object fails, the failure is a
    path error; with declared size 0 the object is classified OK whatever
    the cause of the failure (missing path, permission denied); with any
    other size it is classified openError, the diagnostic is printed, the
    content hash is appended to the corrupt list, and in both cases the
    scan goes on with the next record. *)
Theorem open_failure_verdict cfg acc p w err w' rest :
  os_Open (ObjectPathname cfg (Oid p)) w = (Return (inl err), w') ->
  exists e, err = PathError "open" (ObjectPathname cfg (Oid p)) e /\
    let w0 := traced (examining_line cfg p) w in
    (Size p = 0 ->
       fsckPointer cfg (Name p) (Oid p) (Size p) w = (Return (true, None), w0)
       /\ objects_callback cfg acc (Some p, None) w = (Return acc, w0)
       /\ run_calls (objects_callback cfg) ((Some p, None) :: rest) acc w
          = run_calls (objects_callback cfg) rest acc w0)
    /\ (Size p <> 0 ->
       let w1 := printed (openError_line p e) w0 in
       fsckPointer cfg (Name p) (Oid p) (Size p) w = (Return (false, None), w1)
       /\ objects_callback cfg acc (Some p, None) w = (Return (acc ++ [Oid p]), w1)
       /\ run_calls (objects_callback cfg) ((Some p, None) :: rest) acc w
          = run_calls (objects_callback cfg) rest (acc ++ [Oid p]) w1).
Proof.
  intros H. destruct (classify_open_failure _ _ _ _ _ H) as (e & -> & Hc).
  exists e. split; [reflexivity|]. cbv zeta.
  pose proof (fsckPointer_classify cfg p w) as Hf.
  pose proof (objects_callback_classify cfg acc p w) as Ho.
  rewrite Hc in Hf, Ho. cbv zeta in Hf, Ho.
  split; intros Hs.
  - apply Z.eqb_eq in Hs. rewrite Hs in Hf, Ho.
    repeat split; auto. now apply run_calls_cons.
  - apply Z.eqb_neq in Hs. rewrite Hs in Hf, Ho.
    repeat split; auto. now apply run_calls_cons.
Qed.

Lemma open_failure_verdict_witness :
  os_Open (ObjectPathname Sample.cfg (Oid Sample.p_gone)) Sample.world
  = (Return (inl (PathError "open" (ObjectPathname Sample.cfg (Oid Sample.p_gone))
                    ENOENT)),
     Sample.world)
  /\ exists e,
       PathError "open" (ObjectPathname Sample.cfg (Oid Sample.p_gone)) ENOENT
       = PathError "open" (ObjectPathname Sample.cfg (Oid Sample.p_gone)) e
       /\ objects_callback Sample.cfg [] (Some Sample.p_gone, None) Sample.world
          = (Return ([] ++ [Oid Sample.p_gone]),
             printed (openError_line Sample.p_gone e)
               (traced (examining_line Sample.cfg Sample.p_gone) Sample.world)).
Proof.
  assert (Hopen :
    os_Open (ObjectPathname Sample.cfg (Oid Sample.p_gone)) Sample.world
    = (Return (inl (PathError "open" (ObjectPathname Sample.cfg (Oid Sample.p_gone))
                      ENOENT)),
       Sample.world)) by by_vm.
  split; [exact Hopen|].
  destruct (open_failure_verdict Sample.cfg [] Sample.p_gone Sample.world _ _ []
              Hopen) as (e & He & _ & Hne).
  exists e. split; [exact He|].
  assert (Hsize : Size Sample.p_gone <> 0) by discriminate.
  exact (proj1 (proj2 (Hne Hsize))).
Defined.

(** C3: when the stored object opens and is read to the end, the bytes
    hashed are the whole file; if their SHA-256 digest in hexadecimal is
    the declared content hash the object is classified OK and nothing is
    recorded, and on any mismatch it is reported as corruptObject and its
    content hash is appended to the corrupt list. *)
Theorem hash_comparison_verdict cfg acc p w f w' data :
  os_Open (ObjectPathname cfg (Oid p)) w = (Return (inr f), w') ->
  io_Copy f = (data, None) ->
  let w0 := traced (examining_line cfg p) w in
  fs w !! ObjectPathname cfg (Oid p) = Some (File data Readable)
  /\ (sha256_hex data = Oid p ->
        fsckPointer cfg (Name p) (Oid p) (Size p) w = (Return (true, None), w0)
        /\ objects_callback cfg acc (Some p, None) w = (Return acc, w0))
  /\ (sha256_hex data <> Oid p ->
        let w1 := printed (corruptObject_line p) w0 in
        fsckPointer cfg (Name p) (Oid p) (Size p) w = (Return (false, None), w1)
        /\ objects_callback cfg acc (Some p, None) w = (Return (acc ++ [Oid p]), w1)).
Proof.
  intros H Hio. destruct (classify_opened _ _ _ _ _ _ H Hio) as [E Hc].
  cbv zeta. split; [exact E|].
  pose proof (fsckPointer_classify cfg p w) as Hf.
  pose proof (objects_callback_classify cfg acc p w) as Ho.
  rewrite Hc in Hf, Ho. cbv zeta in Hf, Ho.
  split; intros Hs.
  - apply String.eqb_eq in Hs. rewrite Hs in Hf, Ho. auto.
  - apply String.eqb_neq in Hs. rewrite Hs in Hf, Ho. auto.
Qed.

Lemma hash_comparison_verdict_witness :
  (os_Open (ObjectPathname Sample.cfg (Oid Sample.p_hello)) Sample.world
   = (Return (inr (mkFile (ObjectPathname Sample.cfg (Oid Sample.p_hello))
                     (File "helln" Readable))), Sample.world)
   /\ io_Copy (mkFile (ObjectPathname Sample.cfg (Oid Sample.p_hello))
                 (File "helln" Readable)) = ("helln"%string, None)
   /\ sha256_hex "helln" <> Oid Sample.p_hello)
  /\ objects_callback Sample.cfg [] (Some Sample.p_hello, None) Sample.world
     = (Return ([] ++ [Oid Sample.p_hello]),
        printed (corruptObject_line Sample.p_hello)
          (traced (examining_line Sample.cfg Sample.p_hello) Sample.world)).
Proof.
  assert (Hopen :
    os_Open (ObjectPathname Sample.cfg (Oid Sample.p_hello)) Sample.world
    = (Return (inr (mkFile (ObjectPathname Sample.cfg (Oid Sample.p_hello))
                      (File "helln" Readable))), Sample.world))
    by by_vm.
  assert (Hio : io_Copy (mkFile (ObjectPathname Sample.cfg (Oid Sample.p_hello))
                           (File "helln" Readable)) = ("helln"%string, None))
    by reflexivity.
  assert (Hne : sha256_hex "helln" <> Oid Sample.p_hello)
    by (vm_compute; discriminate).
  split; [split; [exact Hopen | split; [exact Hio | exact Hne]]|].
  exact (proj2 (proj2 (proj2 (hash_comparison_verdict Sample.cfg [] Sample.p_hello
                                Sample.world _ _ _ Hopen Hio)) Hne)).
Defined.

(** *** From a callback to the command *)

Lemma doFsckObjects_eq cfg git start end_ useIndex :
  doFsckObjects cfg git start end_ useIndex =
  (corruptOids ←
     exit_on_error (run_scan (objects_callback cfg) (blob_scan cfg git start end_) []);
   if useIndex
   then exit_on_error (run_scan (objects_callback cfg) (index_scan cfg git) corruptOids)
   else mret corruptOids).
Proof.
  unfold doFsckObjects, blob_scan, index_scan.
  now destruct (String.eqb start EmptyString).
Qed.

Lemma doFsckPointers_eq git start end_ :
  doFsckPointers git start end_ =
  exit_on_error (run_scan pointers_callback (tree_scan git start end_) []).
Proof.
  unfold doFsckPointers, tree_scan. now destruct (String.eqb start EmptyString).
Qed.

Lemma scan_Exits {S} (cb : S -> found -> M S) sc s w e w' :
  run_calls cb (calls sc) s w = (Exits e, w') ->
  exit_on_error (run_scan cb sc s) w = (Exits e, w').
Proof.
  intros H. unfold exit_on_error, run_scan.
  apply bind_Exits. now apply bind_Exits.
Qed.

Lemma scan_Return {S} (cb : S -> found -> M S) sc s w s' w' :
  run_calls cb (calls sc) s w = (Return s', w') ->
  exit_on_error (run_scan cb sc s) w =
  match result sc with
  | Some err => (Exits (ExitWithError err), w')
  | None => (Return s', w')
  end.
Proof.
  intros H. unfold exit_on_error, run_scan.
  erewrite bind_Return; [|erewrite bind_Return by eassumption; reflexivity].
  cbn. now destruct (result sc).
Qed.

Lemma object_pass_abort cfg git start end_ useIndex w c post acc w1 e w2 :
  object_pass_reaches cfg git start end_ useIndex w c post acc w1 ->
  objects_callback cfg acc c w1 = (Exits e, w2) ->
  doFsckObjects cfg git start end_ useIndex w = (Exits e, w2).
Proof.
  intros Hr Hc. rewrite doFsckObjects_eq. destruct Hr as [pre c post acc w1 Hcalls Hpre
    | pre c post acc0 w0 acc w1 -> Hres Hhist Hcalls Hpre].
  - apply bind_Exits, scan_Exits. rewrite Hcalls.
    eapply run_calls_abort; eassumption.
  - erewrite bind_Return
      by (erewrite scan_Return by eassumption; rewrite Hres; reflexivity).
    apply scan_Exits. rewrite Hcalls. eapply run_calls_abort; eassumption.
Qed.

Lemma scan_range_world git args w o w' :
  scan_range git args w = (o, w') -> w' = w.
Proof.
  unfold scan_range. intros H.
  repeat case_match; inversion H; reflexivity.
Qed.

Lemma passes_objects_exit cfg git flags args w useIndex start end_ e w' :
  scan_range git args w = (Return (useIndex, start, end_), w) ->
  (requested flags).1 = true ->
  doFsckObjects cfg git start end_ useIndex w = (Exits e, w') ->
  fsckCommand cfg git flags args w = (Exits e, w').
Proof.
  intros Hr Hreq Hd. unfold fsckCommand, passes.
  apply bind_Exits. erewrite bind_Return by eassumption.
  destruct (requested flags) as [objects pointers]. cbn in Hreq. subst objects.
  apply bind_Exits. unfold objects_pass. now apply bind_Exits.
Qed.

(** C4: when the stored object of a record opens but reading it fails,
    the callback of the object pass ends the process through [Panic] with
    that error; the calls that follow are not made, no classification is
    printed, and the command ends there with a status other than 0 and 1. *)
Theorem read_error_aborts cfg git flags args w useIndex start end_
    p post acc w1 f part e :
  scan_range git args w = (Return (useIndex, start, end_), w) ->
  (requested flags).1 = true ->
  object_pass_reaches cfg git start end_ useIndex w (Some p, None) post acc w1 ->
  os_Open (ObjectPathname cfg (Oid p)) w1 = (Return (inr f), w1) ->
  io_Copy f = (part, Some e) ->
  let fatal := Panic (Some e) "Error checking Git LFS files" in
  let w2 := traced (examining_line cfg p) w1 in
  objects_callback cfg acc (Some p, None) w1 = (Exits fatal, w2)
  /\ fsckCommand cfg git flags args w = (Exits fatal, w2)
  /\ stdout w2 = stdout w1 /\ fs w2 = fs w
  /\ exit_status (fsckCommand cfg git flags args w).1 = 2.
Proof.
  intros Hr Hreq Hreach Hopen Hio. cbv zeta.
  pose proof (objects_callback_classify cfg acc p w1) as Ho.
  rewrite (classify_read_failure _ _ _ _ _ _ _ Hopen Hio) in Ho. cbv zeta in Ho.
  assert (Hcmd : fsckCommand cfg git flags args w
                 = (Exits (Panic (Some e) "Error checking Git LFS files"),
                    traced (examining_line cfg p) w1)).
  { eapply passes_objects_exit; try eassumption.
    eapply object_pass_abort; eassumption. }
  split; [exact Ho|]. split; [exact Hcmd|].
  split; [reflexivity|]. split; [|now rewrite Hcmd].
  cbn [fs traced]. destruct Hreach.
    + eapply reads_only_run_calls; [apply reads_only_objects_callback|eassumption].
    + transitivity (fs w0);
        (eapply reads_only_run_calls; [apply reads_only_objects_callback|eassumption]).
Qed.

Lemma read_error_aborts_witness :
  let git := Sample.repo Sample.calls_read_error [] [] in
  let w1 := traced (examining_line Sample.cfg Sample.p_abc) Sample.world in
  let e := PathError "read" (ObjectPathname Sample.cfg (Oid Sample.p_dir)) EISDIR in
  object_pass_reaches Sample.cfg git EmptyString "c0ffee" true Sample.world
    (Some Sample.p_dir, None) [(Some Sample.p_hello, None)] [] w1
  /\ fsckCommand Sample.cfg git Sample.default_flags [] Sample.world
     = (Exits (Panic (Some e) "Error checking Git LFS files"),
        traced (examining_line Sample.cfg Sample.p_dir) w1).
Proof.
  cbv zeta.
  assert (Hcalls :
    calls (blob_scan Sample.cfg (Sample.repo Sample.calls_read_error [] [])
             EmptyString "c0ffee")
    = [(Some Sample.p_abc, None)] ++ (Some Sample.p_dir, None)
      :: [(Some Sample.p_hello, None)]) by reflexivity.
  assert (Hpre :
    run_calls (objects_callback Sample.cfg) [(Some Sample.p_abc, None)] [] Sample.world
    = (Return [], traced (examining_line Sample.cfg Sample.p_abc) Sample.world))
    by by_vm.
  pose proof (reaches_in_history Sample.cfg
                (Sample.repo Sample.calls_read_error [] []) EmptyString "c0ffee" true
                Sample.world _ _ _ _ _ Hcalls Hpre) as Hreach.
  split; [exact Hreach|].
  assert (Hrange :
    scan_range (Sample.repo Sample.calls_read_error [] []) [] Sample.world
    = (Return (true, EmptyString, "c0ffee"%string), Sample.world)) by reflexivity.
  assert (Hreq : (requested Sample.default_flags).1 = true) by reflexivity.
  assert (Hopen :
    os_Open (ObjectPathname Sample.cfg (Oid Sample.p_dir))
      (traced (examining_line Sample.cfg Sample.p_abc) Sample.world)
    = (Return (inr (mkFile (ObjectPathname Sample.cfg (Oid Sample.p_dir)) Dir)),
       traced (examining_line Sample.cfg Sample.p_abc) Sample.world))
    by by_vm.
  assert (Hio :
    io_Copy (mkFile (ObjectPathname Sample.cfg (Oid Sample.p_dir)) Dir)
    = (EmptyString,
       Some (PathError "read" (ObjectPathname Sample.cfg (Oid Sample.p_dir)) EISDIR)))
    by reflexivity.
  exact (proj1 (proj2 (read_error_aborts Sample.cfg
                         (Sample.repo Sample.calls_read_error [] [])
                         Sample.default_flags [] Sample.world true EmptyString "c0ffee"
                         Sample.p_dir [(Some Sample.p_hello, None)] [] _ _ _ _
                         Hrange Hreq Hreach Hopen Hio))).
Defined.

(** ** The pointer pass *)

Lemma pointers_callback_pointer acc p err w :
  pointers_callback acc (Some p, err) w =
  let w0 := traced ("Examining " +:+ Oid p +:+ " (" +:+ Name p +:+ ")") w in
  if Canonical p then (Return acc, w0)
  else
    let cp := {| blobOid := Sha1 p; treeOid := EmptyString; lfsOid := Oid p;
                 path := EmptyString;
                 message := "Pointer for " +:+ Oid p +:+ " (blob " +:+ Sha1 p
                            +:+ ") was not canonical";
                 kind := "nonCanonicalPointer" |} in
    (Return (acc ++ [cp]), printed ("pointer: " +:+ corruptPointer_String cp) w0).
Proof. unfold pointers_callback. now destruct (Canonical p). Qed.

Lemma pointers_callback_error acc err w :
  pointers_callback acc (None, err) w =
  match err with
  | Some (PointerScanError oid name) =>
      let cp := {| blobOid := EmptyString; treeOid := oid; lfsOid := EmptyString;
                   path := name;
                   message := strconv_Quote name +:+ " (treeish " +:+ oid
                              +:+ ") should have been a pointer but was not";
                   kind := "unexpectedGitObject" |} in
      (Return (acc ++ [cp]), printed ("pointer: " +:+ corruptPointer_String cp) w)
  | _ => (Exits (Panic err "Error checking Git LFS files"), w)
  end.
Proof. unfold pointers_callback. now destruct err as [[]|]. Qed.




(** ** The scan range *)

Lemma strip_prefix_Some p s r : strip_prefix p s = Some r <-> s = p +:+ r.
Proof.
  revert s. induction p as [|a p IH]; intros s; cbn [strip_prefix].
  - rewrite append_nil. split; congruence.
  - rewrite append_cons. destruct s as [|b s]; [split; discriminate|].
    destruct (Ascii.eqb_spec a b) as [->|Hne].
    + rewrite IH. split; congruence.
    + split; [discriminate|]. intros H. congruence.
Qed.

Lemma strings_Cut_unfold sep s :
  strings_Cut sep s =
  match strip_prefix sep s with
  | Some after => Some (EmptyString, after)
  | None =>
      match s with
      | EmptyString => None
      | String c rest =>
          match strings_Cut sep rest with
          | Some (before, after) => Some (String c before, after)
          | None => None
          end
      end
  end.
Proof. now destruct s. Qed.

Lemma strings_Cut_Some sep s before after :
  strings_Cut sep s = Some (before, after) -> s = before +:+ sep +:+ after.
Proof.
  revert before. induction s as [|c s IH]; intros before;
    rewrite strings_Cut_unfold;
    destruct (strip_prefix sep _) eqn:E.
  - intros H. inversion H; subst. now apply strip_prefix_Some in E.
  - discriminate.
  - intros H. inversion H; subst. now apply strip_prefix_Some in E.
  - destruct (strings_Cut sep s) as [[b a]|]; [|discriminate].
    intros H. inversion H; subst. rewrite append_cons. f_equal. now apply IH.
Qed.

Lemma strings_Cut_None sep s : strings_Cut sep s = None -> ~ contains sep s.
Proof.
  induction s as [|c s IH]; rewrite strings_Cut_unfold;
    destruct (strip_prefix sep _) eqn:E; try discriminate.
  - intros _ (before & after & H). destruct before; [|discriminate].
    rewrite append_nil in H. apply strip_prefix_Some in H. congruence.
  - destruct (strings_Cut sep s) as [[b a]|]; [discriminate|].
    intros _ (before & after & H). destruct before as [|c' before].
    + rewrite append_nil in H. apply strip_prefix_Some in H. congruence.
    + rewrite append_cons in H. inversion H; subst. apply IH; [reflexivity|].
      now exists before, after.
Qed.

Lemma strings_SplitN2_found s sep :
  contains sep s ->
  exists before after,
    strings_SplitN2 s sep = [before; after] /\ s = before +:+ sep +:+ after.
Proof.
  intros Hc. unfold strings_SplitN2.
  destruct (strings_Cut sep s) as [[b a]|] eqn:E.
  - exists b, a. split; [reflexivity|]. now apply strings_Cut_Some.
  - now apply strings_Cut_None in E.
Qed.

Lemma strings_SplitN2_absent s sep :
  ~ contains sep s -> strings_SplitN2 s sep = [s].
Proof.
  intros Hc. unfold strings_SplitN2.
  destruct (strings_Cut sep s) as [[b a]|] eqn:E; [|reflexivity].
  destruct Hc. apply strings_Cut_Some in E. now exists b, a.
Qed.

Lemma fsckCommand_range_exit cfg git flags args w e w' :
  scan_range git args w = (Exits e, w') ->
  fsckCommand cfg git flags args w = (Exits e, w').
Proof. intros H. unfold fsckCommand, passes. now do 2 apply bind_Exits. Qed.

(** C8: with no argument the range is the index and the history ending
    at the current ref, with an empty start; one argument containing [..]
    is split at it and both sides are resolved, two refs giving start and
    end and a single ref the end alone; one argument without [..] is
    resolved to the end alone; and when a ref does not resolve the command
    ends through [ExitWithError] before anything is scanned or printed. *)
Theorem scan_range_resolution git w :
  (forall ref, CurrentRef git = inr ref ->
     scan_range git [] w = (Return (true, EmptyString, Sha ref), w))
  /\ (forall arg, contains ".." arg ->
        exists before after,
          arg = before +:+ ".." +:+ after
          /\ strings_SplitN2 arg ".." = [before; after]
          /\ (forall r0 r1, ResolveRefs git [before; after] = inr [r0; r1] ->
                scan_range git [arg] w = (Return (false, Sha r0, Sha r1), w))
          /\ (forall r0, ResolveRefs git [before; after] = inr [r0] ->
                scan_range git [arg] w = (Return (false, EmptyString, Sha r0), w)))
  /\ (forall arg r0, ~ contains ".." arg -> ResolveRefs git [arg] = inr [r0] ->
        scan_range git [arg] w = (Return (false, EmptyString, Sha r0), w))
  /\ (forall err cfg flags, CurrentRef git = inl err ->
        fsckCommand cfg git flags [] w = (Exits (ExitWithError err), w)
        /\ exit_status (fsckCommand cfg git flags [] w).1 <> 0)
  /\ (forall arg err cfg flags,
        ResolveRefs git (strings_SplitN2 arg "..") = inl err ->
        fsckCommand cfg git flags [arg] w = (Exits (ExitWithError err), w)
        /\ exit_status (fsckCommand cfg git flags [arg] w).1 <> 0).
Proof.
  split; [|split; [|split; [|split]]].
  - intros ref H. unfold scan_range. now rewrite H.
  - intros arg Hc. destruct (strings_SplitN2_found _ _ Hc) as (b & a & Hs & Ha).
    exists b, a. split; [exact Ha|]. split; [exact Hs|]. split.
    + intros r0 r1 H. unfold scan_range. now rewrite Hs, H.
    + intros r0 H. unfold scan_range. now rewrite Hs, H.
  - intros arg r0 Hc H. unfold scan_range.
    now rewrite (strings_SplitN2_absent _ _ Hc), H.
  - intros err cfg flags H.
    assert (E : fsckCommand cfg git flags [] w = (Exits (ExitWithError err), w))
      by (apply fsckCommand_range_exit; unfold scan_range; now rewrite H).
    split; [exact E|]. now rewrite E.
  - intros arg err cfg flags H.
    assert (E : fsckCommand cfg git flags [arg] w = (Exits (ExitWithError err), w))
      by (apply fsckCommand_range_exit; unfold scan_range; now rewrite H).
    split; [exact E|]. now rewrite E.
Qed.

Lemma scan_range_resolution_witness :
  contains ".." "main..topic"
  /\ scan_range (Sample.repo [] [] []) [] Sample.world
     = (Return (true, EmptyString, Sha Sample.head), Sample.world)
  /\ scan_range (Sample.repo [] [] []) ["main..topic"%string] Sample.world
     = (Return (false, Sha (mkRef "main" "sha-main"), Sha (mkRef "topic" "sha-topic")),
        Sample.world)
  /\ fsckCommand Sample.cfg Sample.unborn Sample.default_flags ["main..topic"%string]
       Sample.world
     = (Exits (ExitWithError (ErrorString "ref not found")), Sample.world).
Proof.
  assert (Hc : contains ".." "main..topic") by (now exists "main"%string, "topic"%string).
  assert (Hsplit : strings_SplitN2 "main..topic" ".." = ["main"%string; "topic"%string])
    by by_vm.
  split; [exact Hc|].
  destruct (scan_range_resolution (Sample.repo [] [] []) Sample.world)
    as (H0 & H2 & _).
  split; [apply (H0 Sample.head); reflexivity|]. split.
  - destruct (H2 _ Hc) as (b & a & _ & Hs & Hr & _).
    rewrite Hsplit in Hs. inversion Hs; subst b a.
    apply (Hr (mkRef "main" "sha-main") (mkRef "topic" "sha-topic")).
    by_vm.
  - destruct (scan_range_resolution Sample.unborn Sample.world)
      as (_ & _ & _ & _ & He).
    apply He. rewrite Hsplit. reflexivity.
Defined.

(** ** Findings and what is printed *)

Lemma line_per_finding_objects cfg : line_per_finding (objects_callback cfg).
Proof.
  intros acc [[p|] [e|]] w acc' w' H.
  - discriminate.
  - rewrite objects_callback_classify in H. cbv zeta in H.
    destruct (classify cfg (fs w) p); inversion H; subst; clear H.
    + exists [], []. now rewrite !app_nil_r.
    + now exists [Oid p], [openError_line p e].
    + now exists [Oid p], [corruptObject_line p].
  - discriminate.
  - discriminate.
Qed.

Lemma line_per_finding_pointers : line_per_finding pointers_callback.
Proof.
  intros acc [[p|] err] w acc' w' H.
  - rewrite pointers_callback_pointer in H. cbv zeta in H.
    destruct (Canonical p); inversion H; subst; clear H.
    + exists [], []. now rewrite !app_nil_r.
    + eexists [_], [_]. repeat split.
  - rewrite pointers_callback_error in H.
    destruct err as [[]|]; inversion H; subst; clear H.
    eexists [_], [_]. repeat split.
Qed.

Lemma line_per_finding_run_calls {A} (cb : list A -> found -> M (list A)) l :
  line_per_finding cb -> line_per_finding (fun acc _ => run_calls cb l acc).
Proof.
  intros Hcb. induction l as [|c l IH]; intros acc c0 w acc' w' H; cbn in H.
  - inversion H; subst. exists [], []. now rewrite !app_nil_r.
  - apply bind_inv in H as [(a & w1 & H1 & H2)|(e & _ & ?)]; [|discriminate].
    apply Hcb in H1 as (n1 & l1 & -> & E1 & L1).
    apply (IH _ c0) in H2 as (n2 & l2 & -> & E2 & L2).
    exists (n1 ++ n2), (l1 ++ l2). rewrite E2, E1, !app_assoc, !length_app.
    repeat split. lia.
Qed.

Lemma scan_inv {S} (cb : S -> found -> M S) sc s w s' w' :
  exit_on_error (run_scan cb sc s) w = (Return s', w') ->
  run_calls cb (calls sc) s w = (Return s', w') /\ result sc = None.
Proof.
  unfold exit_on_error, run_scan. intros H.
  apply bind_inv in H as [([a r] & w1 & H1 & H2)|(e & _ & ?)]; [|discriminate].
  apply bind_inv in H1 as [(a' & w2 & H1 & H3)|(e & _ & ?)]; [|discriminate].
  inversion H3; subst; clear H3. cbn in H2.
  destruct (result sc); inversion H2; subst. auto.
Qed.

Lemma doFsckObjects_inv cfg git start end_ useIndex w oids w' :
  doFsckObjects cfg git start end_ useIndex w = (Return oids, w') ->
  result (blob_scan cfg git start end_) = None
  /\ (useIndex = true -> result (index_scan cfg git) = None)
  /\ run_calls (objects_callback cfg)
       (calls (blob_scan cfg git start end_)
        ++ (if useIndex then calls (index_scan cfg git) else [])) [] w
     = (Return oids, w').
Proof.
  rewrite doFsckObjects_eq. intros H.
  apply bind_inv in H as [(a & w1 & H1 & H2)|(e & _ & ?)]; [|discriminate].
  apply scan_inv in H1 as [H1 R1]. split; [exact R1|].
  erewrite run_calls_app_Return by eassumption.
  destruct useIndex.
  - apply scan_inv in H2 as [H2 R2]. auto.
  - inversion H2; subst. split; [discriminate|reflexivity].
Qed.

Lemma doFsckPointers_inv git start end_ w ptrs w' :
  doFsckPointers git start end_ w = (Return ptrs, w') ->
  result (tree_scan git start end_) = None
  /\ run_calls pointers_callback (calls (tree_scan git start end_)) [] w
     = (Return ptrs, w').
Proof.
  rewrite doFsckPointers_eq. intros H. apply scan_inv in H as [H R]. auto.
Qed.

Lemma objects_pass_inv cfg git objects start end_ useIndex ok0 w ok oids w' :
  objects_pass cfg git objects start end_ useIndex ok0 w = (Return (ok, oids), w') ->
  ok = ok0 && bool_decide (oids = [])
  /\ (if objects
      then doFsckObjects cfg git start end_ useIndex w = (Return oids, w')
      else oids = [] /\ w' = w).
Proof.
  unfold objects_pass. destruct objects; intros H.
  - apply bind_inv in H as [(a & w1 & H1 & H2)|(e & _ & ?)]; [|discriminate].
    inversion H2; subst. split; [|exact H1].
    f_equal. apply bool_decide_ext. now rewrite length_zero_iff_nil.
  - inversion H; subst. rewrite bool_decide_eq_true_2 by reflexivity.
    now rewrite andb_true_r.
Qed.

Lemma pointers_pass_inv git pointers start end_ ok0 w ok ptrs w' :
  pointers_pass git pointers start end_ ok0 w = (Return (ok, ptrs), w') ->
  ok = ok0 && bool_decide (ptrs = [])
  /\ (if pointers
      then doFsckPointers git start end_ w = (Return ptrs, w')
      else ptrs = [] /\ w' = w).
Proof.
  unfold pointers_pass. destruct pointers; intros H.
  - apply bind_inv in H as [(a & w1 & H1 & H2)|(e & _ & ?)]; [|discriminate].
    inversion H2; subst. split; [|exact H1].
    f_equal. apply bool_decide_ext. now rewrite length_zero_iff_nil.
  - inversion H; subst. rewrite bool_decide_eq_true_2 by reflexivity.
    now rewrite andb_true_r.
Qed.

Lemma passes_inv cfg git flags args w ok oids ptrs w1 :
  passes cfg git flags args w = (Return (ok, oids, ptrs), w1) ->
  exists useIndex start end_ ok1 wm,
    scan_range git args w = (Return (useIndex, start, end_), w)
    /\ objects_pass cfg git (requested flags).1 start end_ useIndex true w
       = (Return (ok1, oids), wm)
    /\ pointers_pass git (requested flags).2 start end_ ok1 wm
       = (Return (ok, ptrs), w1).
Proof.
  unfold passes. intros H.
  apply bind_inv in H as [([[useIndex start] end_] & w0 & H0 & H)|(e & _ & ?)];
    [|discriminate].
  pose proof (scan_range_world _ _ _ _ _ H0) as ->.
  destruct (requested flags) as [objects pointers]. cbn [fst snd].
  apply bind_inv in H as [([ok1 oids'] & wm & H1 & H)|(e & _ & ?)]; [|discriminate].
  apply bind_inv in H as [([ok2 ptrs'] & w2 & H2 & H)|(e & _ & ?)]; [|discriminate].
  inversion H; subst. eauto 10.
Qed.

(** With [line_per_finding], what the passes print is one line for each
    finding. *)
Lemma passes_lines cfg git flags args w ok oids ptrs w1 :
  passes cfg git flags args w = (Return (ok, oids, ptrs), w1) ->
  exists lines, stdout w1 = stdout w ++ lines
                /\ length lines = (length oids + length ptrs)%nat.
Proof.
  intros H. apply passes_inv in H
    as (useIndex & start & end_ & ok1 & wm & _ & Ho & Hp).
  apply objects_pass_inv in Ho as [_ Ho]. apply pointers_pass_inv in Hp as [_ Hp].
  assert (exists l1, stdout wm = stdout w ++ l1 /\ length l1 = length oids)
    as (l1 & E1 & L1).
  { destruct (requested flags).1.
    - apply doFsckObjects_inv in Ho as (_ & _ & Ho).
      apply (line_per_finding_run_calls _ _ (line_per_finding_objects cfg) _ (None, None))
        in Ho as (n & l & -> & E & L). eauto.
    - destruct Ho as [-> ->]. exists []. now rewrite app_nil_r. }
  assert (exists l2, stdout w1 = stdout wm ++ l2 /\ length l2 = length ptrs)
    as (l2 & E2 & L2).
  { destruct (requested flags).2.
    - apply doFsckPointers_inv in Hp as (_ & Hp).
      apply (line_per_finding_run_calls _ _ line_per_finding_pointers _ (None, None))
        in Hp as (n & l & -> & E & L). eauto.
    - destruct Hp as [-> ->]. exists []. now rewrite app_nil_r. }
  exists (l1 ++ l2). rewrite E2, E1, app_assoc, length_app. split; [reflexivity|lia].
Qed.

(** ** The verdict *)

Lemma tools_MkdirAll_inv name w r w' :
  tools_MkdirAll name w = (r, w') ->
  (r = Return None /\ readonly w' = readonly w /\ stdout w' = stdout w
   /\ trace w' = trace w /\ fs w' !! name = Some Dir
   /\ forall other, other <> name -> fs w' !! other = fs w !! other)
  \/ (exists e, r = Return (Some (PathError "mkdir" name e)) /\ w' = w).
Proof.
  unfold tools_MkdirAll. intros H.
  destruct (fs w !! name) as [[data m|]|] eqn:E.
  - right. inversion H. eauto.
  - left. inversion H; subst. auto 10.
  - destruct (readonly w) eqn:Ero; inversion H; subst; [right; eauto|left].
    cbn. rewrite lookup_insert_eq. repeat split; auto.
    intros other Hne. now rewrite lookup_insert_ne.
Qed.

Lemma os_Rename_inv old new w r w' :
  os_Rename old new w = (r, w') ->
  (exists e, r = Return (Some (LinkError "rename" old new e)) /\ w' = w)
  \/ (exists n,
        r = Return None /\ fs w !! old = Some n /\ readonly w = false
        /\ fs w !! new <> Some Dir
        /\ w' = mkWorld (<[new := n]> (delete old (fs w)))
                  (readonly w) (stdout w) (trace w)).
Proof.
  unfold os_Rename. intros H.
  destruct (fs w !! new) as [[data m|]|] eqn:En;
    destruct (fs w !! old) as [[data' m'|]|] eqn:Eo;
    destruct (readonly w) eqn:Er;
    inversion H; subst; clear H; eauto;
    right; eexists; repeat split; try reflexivity; discriminate.
Qed.

Lemma move_corrupt_outcome cfg badDir oids w o w' :
  move_corrupt cfg badDir oids w = (o, w') ->
  o = Return ()
  \/ exists oid e,
       oid ∈ oids
       /\ o = Exits (ExitWithError
                      (LinkError "rename" (ObjectPathname cfg oid)
                         (filepath_Join badDir oid) e)).
Proof.
  revert w. induction oids as [|oid oids IH]; intros w H; cbn [move_corrupt] in H.
  - inversion H. auto.
  - apply bind_inv in H as [(err & w1 & H1 & H2)|(x & H1 & _)];
      apply os_Rename_inv in H1 as [(e & E & ->)|(n & E & _)];
      inversion E; subst; clear E.
    + inversion H2. right. exists oid, e. split; [left|reflexivity].
    + apply IH in H2 as [?|(o' & e & ? & ?)]; [now left|].
      right. exists o', e. split; [now right|assumption].
Qed.

Lemma fsckCommand_conclude cfg git flags args w r w1 :
  passes cfg git flags args w = (Return r, w1) ->
  fsckCommand cfg git flags args w = conclude cfg flags r w1.
Proof. intros H. unfold fsckCommand. now apply bind_Return. Qed.

Lemma verdict_ok cfg git flags args w ok oids ptrs w1 :
  passes cfg git flags args w = (Return (ok, oids, ptrs), w1) ->
  (ok = true <-> oids = [] /\ ptrs = [])
  /\ ((requested flags).1 = false -> oids = [])
  /\ ((requested flags).2 = false -> ptrs = []).
Proof.
  intros H. apply passes_inv in H
    as (useIndex & start & end_ & ok1 & wm & _ & Ho & Hp).
  apply objects_pass_inv in Ho as [-> Ho]. apply pointers_pass_inv in Hp as [-> Hp].
  split; [|split].
  - rewrite !andb_true_iff, !bool_decide_eq_true. tauto.
  - intros E. rewrite E in Ho. tauto.
  - intros E. rewrite E in Hp. tauto.
Qed.

(** C1, counterexample: the object of a pointer of size 64 is missing, so
    the object pass has an openError finding; without [--dry-run] the
    repair renames a file that is not there, the rename fails, and the
    command ends through [ExitWithError] with status 2, not 1. *)
Lemma missing_object_exits_2 : ~ every_finding_exits_1.
Proof.
  intros H.
  assert (Hpasses :
    (passes Sample.cfg (Sample.repo [(Some Sample.p_gone, None)] [] [])
       Sample.default_flags [] Sample.world).1
    = Return (false, [Sample.oid_gone], [])) by by_vm.
  apply run_as_pair in Hpasses.
  assert (Hstatus :
    exit_status
      (fsckCommand Sample.cfg (Sample.repo [(Some Sample.p_gone, None)] [] [])
         Sample.default_flags [] Sample.world).1 = 2) by by_vm.
  assert (Hfinding : [Sample.oid_gone] <> [] \/ @nil corruptPointer <> [])
    by (left; discriminate).
  pose proof (H _ _ _ _ _ _ _ _ _ Hpasses Hfinding) as H1.
  rewrite Hstatus in H1. discriminate.
Qed.

(** C1 (amended): the run is OK exactly when every requested pass has no
    finding (a pass that was not requested has none); when OK the command
    prints the success line, its only line of output, and the process ends
    with status 0; when a finding exists the process ends with status 1
    unless dry-run is off, a corrupt object exists and creating the
    quarantine directory or renaming a corrupt object fails, in which case
    the command ends through [ExitWithError] with that error. *)
Theorem exit_code_contract cfg git flags args w ok oids ptrs w1 :
  passes cfg git flags args w = (Return (ok, oids, ptrs), w1) ->
  let r := fsckCommand cfg git flags args w in
  let badDir := filepath_Join (LFSStorageDir cfg) "bad" in
  (ok = true <-> oids = [] /\ ptrs = [])
  /\ ((requested flags).1 = false -> oids = [])
  /\ ((requested flags).2 = false -> ptrs = [])
  /\ (ok = true ->
        r = (Return (), printed "Git LFS fsck OK" w1)
        /\ stdout r.2 = stdout w ++ ["Git LFS fsck OK"%string]
        /\ exit_status r.1 = 0)
  /\ (ok = false ->
        exit_status r.1 = 1
        \/ (fsckDryRun flags = false /\ oids <> []
            /\ ((exists e, r.1 = Exits (ExitWithError (PathError "mkdir" badDir e)))
                \/ (exists oid e,
                      oid ∈ oids
                      /\ r.1 = Exits (ExitWithError
                                       (LinkError "rename" (ObjectPathname cfg oid)
                                          (filepath_Join badDir oid) e)))))).
Proof.
  intros H. cbv zeta.
  destruct (verdict_ok _ _ _ _ _ _ _ _ _ H) as (Hok & Hno & Hnp).
  split; [exact Hok|]. split; [exact Hno|]. split; [exact Hnp|].
  rewrite (fsckCommand_conclude _ _ _ _ _ _ _ H). unfold conclude.
  split; intros ->.
  - split; [reflexivity|]. split; [|reflexivity].
    destruct (passes_lines _ _ _ _ _ _ _ _ _ H) as (lines & E & L).
    destruct Hok as [[-> ->] _]; [reflexivity|].
    destruct lines; [|discriminate]. cbn. now rewrite E, app_nil_r.
  - destruct (fsckDryRun flags); [now left|]. cbn [orb].
    case_bool_decide as Hlen; [now left|].
    assert (oids <> []) as Hne by (now intros ->).
    unfold mbind, M_bind, Print.
    destruct (tools_MkdirAll _ (printed _ w1)) as [rm w2] eqn:Em.
    apply tools_MkdirAll_inv in Em as [(-> & _)|(e & -> & ->)].
    + destruct (move_corrupt cfg _ oids w2) as [o w3] eqn:Ev.
      apply move_corrupt_outcome in Ev as [->|(oid & e & Hin & ->)]; [now left|].
      right. split; [reflexivity|]. split; [exact Hne|]. right. now exists oid, e.
    + right. split; [reflexivity|]. split; [exact Hne|]. left. now exists e.
Qed.

Lemma exit_code_contract_witness :
  let git := Sample.repo Sample.calls_clean [] Sample.calls_clean in
  let r := fsckCommand Sample.cfg git Sample.default_flags [] Sample.world in
  let w1 := (passes Sample.cfg git Sample.default_flags [] Sample.world).2 in
  (passes Sample.cfg git Sample.default_flags [] Sample.world).1
  = Return (true, [], [])
  /\ r = (Return (), printed "Git LFS fsck OK" w1)
  /\ stdout r.2 = stdout Sample.world ++ ["Git LFS fsck OK"%string]
  /\ exit_status r.1 = 0.
Proof.
  cbv zeta.
  assert (Hpasses :
    (passes Sample.cfg (Sample.repo Sample.calls_clean [] Sample.calls_clean)
       Sample.default_flags [] Sample.world).1
    = Return (true, [], [])) by by_vm.
  split; [exact Hpasses|]. apply run_as_pair in Hpasses.
  exact (proj1 (proj2 (proj2 (proj2 (exit_code_contract _ _ _ _ _ _ _ _ _ Hpasses))))
           eq_refl).
Defined.

(** C7: when the run is not OK and either dry-run is set or no object is
    corrupt, the command ends with status 1 in the world the passes left,
    whose store is the one the command started with: every path holds
    what it held, and no quarantine directory has appeared. *)
Theorem skipped_repair_changes_nothing cfg git flags args w oids ptrs w1 :
  passes cfg git flags args w = (Return (false, oids, ptrs), w1) ->
  fsckDryRun flags = true \/ oids = [] ->
  let r := fsckCommand cfg git flags args w in
  let badDir := filepath_Join (LFSStorageDir cfg) "bad" in
  r = (Exits (os_Exit 1), w1)
  /\ exit_status r.1 = 1
  /\ fs r.2 = fs w
  /\ fs r.2 !! badDir = fs w !! badDir.
Proof.
  intros H Hskip. cbv zeta.
  assert (E : fsckCommand cfg git flags args w = (Exits (os_Exit 1), w1)).
  { rewrite (fsckCommand_conclude _ _ _ _ _ _ _ H). unfold conclude.
    destruct Hskip as [->| ->]; [reflexivity|].
    rewrite bool_decide_eq_true_2 by reflexivity. now rewrite orb_true_r. }
  rewrite E. apply reads_only_passes in H as [Hfs _]. cbn [fst snd].
  now rewrite Hfs.
Qed.

Lemma skipped_repair_changes_nothing_witness :
  let git := Sample.repo [(Some Sample.p_hello, None)] [] [] in
  let r := fsckCommand Sample.cfg git Sample.dry_run [] Sample.world in
  let w1 := (passes Sample.cfg git Sample.dry_run [] Sample.world).2 in
  (passes Sample.cfg git Sample.dry_run [] Sample.world).1
  = Return (false, [Sample.oid_hello], [])
  /\ r = (Exits (os_Exit 1), w1) /\ fs r.2 = fs Sample.world.
Proof.
  cbv zeta.
  assert (Hpasses :
    (passes Sample.cfg (Sample.repo [(Some Sample.p_hello, None)] [] [])
       Sample.dry_run [] Sample.world).1
    = Return (false, [Sample.oid_hello], [])) by by_vm.
  split; [exact Hpasses|]. apply run_as_pair in Hpasses.
  assert (Hdry : fsckDryRun Sample.dry_run = true \/ [Sample.oid_hello] = [])
    by (left; reflexivity).
  destruct (skipped_repair_changes_nothing _ _ _ _ _ _ _ _ Hpasses Hdry)
    as (E & _ & Hfs & _).
  split; [exact E|exact Hfs].
Defined.

(** ** The repair *)

(** *** Joining a file name to a clean directory *)

Lemma split_slash_nonempty s : split_slash s <> [].
Proof.
  destruct s as [|c s]; cbn; [discriminate|].
  destruct (Ascii.eqb c "/"); [discriminate|]. now destruct (split_slash s).
Qed.

Lemma split_slash_piece o :
  string_forall (fun c => negb (Ascii.eqb c "/")) o = true -> split_slash o = [o].
Proof.
  induction o as [|c o IH]; cbn; [reflexivity|].
  intros H. apply andb_true_iff in H as [Hc Ho].
  apply negb_true_iff in Hc. rewrite Hc, (IH Ho). reflexivity.
Qed.

Lemma split_slash_app a b :
  split_slash (a +:+ "/" +:+ b) = split_slash a ++ split_slash b.
Proof.
  induction a as [|c a IH].
  - rewrite append_nil. reflexivity.
  - rewrite append_cons. cbn [split_slash]. rewrite IH.
    destruct (Ascii.eqb c "/"); [reflexivity|].
    pose proof (split_slash_nonempty a). now destruct (split_slash a).
Qed.

Lemma clean_step_element rooted out o :
  path_element o = true -> clean_step rooted out o = o :: out.
Proof.
  unfold path_element, clean_step. rewrite !andb_true_iff, !negb_true_iff.
  intros [[[-> ->] ->] _]. reflexivity.
Qed.

Lemma join_slash_snoc elems o :
  elems <> [] -> join_slash (elems ++ [o]) = join_slash elems +:+ "/" +:+ o.
Proof.
  induction elems as [|e elems IH]; [contradiction|]. intros _.
  destruct elems as [|e' elems]; [reflexivity|].
  change (join_slash ((e :: e' :: elems) ++ [o]))
    with (e +:+ "/" +:+ join_slash ((e' :: elems) ++ [o])).
  rewrite IH by discriminate.
  change (join_slash (e :: e' :: elems)) with (e +:+ "/" +:+ join_slash (e' :: elems)).
  now rewrite !append_assoc.
Qed.

(** A file name joined to a clean directory is [dir/name]. *)
Lemma filepath_Join_element dir o :
  clean_dir dir -> path_element o = true ->
  filepath_Join dir o = dir +:+ "/" +:+ o.
Proof.
  intros (Hclean & Hroot & Hdot) Ho.
  destruct dir as [|c dir]; [discriminate Hclean|].
  assert (Hslash : string_forall (fun c => negb (Ascii.eqb c "/")) o = true).
  { unfold path_element in Ho. now apply andb_true_iff in Ho as [_ Ho]. }
  unfold filepath_Join. destruct o as [|c' o']; [discriminate Ho|].
  set (o := String c' o') in *. unfold filepath_Clean in *.
  rewrite append_cons. rewrite <- append_cons.
  rewrite split_slash_app, (split_slash_piece o Hslash), fold_left_app.
  cbn [fold_left]. rewrite (clean_step_element _ _ _ Ho).
  set (out := fold_left (clean_step (Ascii.eqb c "/")) (split_slash (String c dir)) [])
    in *.
  cbn [rev]. destruct (Ascii.eqb c "/").
  - destruct out as [|e out].
    + cbn [rev join_slash] in Hclean. rewrite append_empty_r in Hclean. congruence.
    + rewrite join_slash_snoc.
      * rewrite <- append_assoc. now rewrite Hclean.
      * cbn [rev]. now destruct (rev out).
  - destruct out as [|e out]; [congruence|].
    rewrite join_slash_snoc.
    + now rewrite Hclean.
    + cbn [rev]. now destruct (rev out).
Qed.

Lemma path_element_bad : path_element "bad" = true.
Proof. reflexivity. Qed.

(** In a clean storage directory the quarantine directory is
    [dir/bad], itself clean, and a content hash that is a file name is
    quarantined at [dir/bad/oid]. *)
Lemma badDir_clean dir :
  clean_dir dir ->
  filepath_Join dir "bad" = dir +:+ "/bad" /\ clean_dir (dir +:+ "/bad").
Proof.
  intros Hdir. pose proof (filepath_Join_element dir "bad" Hdir path_element_bad) as E.
  split; [exact E|].
  destruct Hdir as (Hclean & Hroot & Hdot).
  destruct dir as [|c dir]; [discriminate Hclean|].
  unfold filepath_Join in E. split; [exact E|].
  rewrite append_cons. split; intros H; inversion H as [[Hc Hd]].
  - destruct dir; discriminate Hd.
  - destruct dir; discriminate Hd.
Qed.

Lemma os_Rename_ok old new w data m :
  fs w !! old = Some (File data m) -> readonly w = false -> fs w !! new <> Some Dir ->
  os_Rename old new w
  = (Return None,
     mkWorld (<[new := File data m]> (delete old (fs w)))
       (readonly w) (stdout w) (trace w)).
Proof.
  intros Ho Hr Hn. unfold os_Rename. rewrite Ho, Hr.
  destruct (fs w !! new) as [[]|]; try reflexivity. contradiction.
Qed.

Lemma os_Rename_failure old new w e w' :
  os_Rename old new w = (Return (Some e), w') -> w' = w.
Proof.
  intros H. apply os_Rename_inv in H as [(e' & _ & ->)|(n & E & _)];
    [reflexivity|discriminate].
Qed.

Section Repair.

Context (cfg : Configuration) (badDir : string).

Let src := ObjectPathname cfg.
Let dst := filepath_Join badDir.

Lemma move_corrupt_ok oids : forall w,
  readonly w = false -> NoDup oids ->
  (forall o o', o ∈ oids -> o' ∈ oids -> src o = src o' -> o = o') ->
  (forall o o', o ∈ oids -> o' ∈ oids -> dst o = dst o' -> o = o') ->
  (forall o o', o ∈ oids -> o' ∈ oids -> src o <> dst o') ->
  (forall o, o ∈ oids ->
     (exists data m, fs w !! src o = Some (File data m))
     /\ fs w !! dst o <> Some Dir) ->
  exists w',
    move_corrupt cfg badDir oids w = (Return (), w')
    /\ stdout w' = stdout w
    /\ (forall o, o ∈ oids ->
          fs w' !! src o = None /\ fs w' !! dst o = fs w !! src o)
    /\ (forall name, (forall o, o ∈ oids -> name <> src o /\ name <> dst o) ->
          fs w' !! name = fs w !! name).
Proof.
  induction oids as [|o oids IH]; intros w Hro Hnd Hsrc Hdst Hsd Hpre.
  - exists w. cbn. split; [reflexivity|]. split; [reflexivity|].
    split; [intros a Ha; inversion Ha|reflexivity].
  - apply NoDup_cons in Hnd as [Hnotin Hnd].
    assert (Hin : forall a, a ∈ oids -> a ∈ o :: oids) by (intros a Ha; now right).
    assert (Ho : o ∈ o :: oids) by left.
    destruct (Hpre o Ho) as [(data & m & Hn) Hd].
    pose proof (os_Rename_ok _ _ _ _ _ Hn Hro Hd) as Hren.
    set (w1 := mkWorld (<[dst o := File data m]> (delete (src o) (fs w)))
                 (readonly w) (stdout w) (trace w)) in Hren.
    assert (Hss : forall a, a ∈ oids -> src a <> src o).
    { intros a Ha E. apply Hsrc in E; auto. congruence. }
    assert (Hdd : forall a, a ∈ oids -> dst a <> dst o).
    { intros a Ha E. apply Hdst in E; auto. congruence. }
    assert (Hkeep : forall name, name <> src o -> name <> dst o ->
                                 fs w1 !! name = fs w !! name).
    { intros name H1 H2. cbn. rewrite lookup_insert_ne by congruence.
      now rewrite lookup_delete_ne by congruence. }
    destruct (IH w1) as (w' & Hmv & Hout & Hmoved & Hframe).
    { exact Hro. }
    { exact Hnd. }
    { intros a b Ha Hb. apply Hsrc; auto. }
    { intros a b Ha Hb. apply Hdst; auto. }
    { intros a b Ha Hb. apply Hsd; auto. }
    { intros a Ha. destruct (Hpre a (Hin a Ha)) as [(d & m' & Hs) Hdir].
      assert (Hao : src a <> dst o) by (apply Hsd; auto).
      assert (Hoa : dst a <> src o) by (intros E; now apply (Hsd o a); auto).
      split; [exists d, m'|]; rewrite Hkeep; auto. }
    exists w'. split; [|split; [exact Hout|split]].
    + cbn [move_corrupt]. erewrite bind_Return by exact Hren. exact Hmv.
    + intros a Ha. apply elem_of_cons in Ha as [->|Ha].
      * rewrite !Hframe.
        -- cbn. rewrite lookup_insert_eq.
           rewrite lookup_insert_ne by (intros E; now apply (Hsd o o)).
           rewrite lookup_delete_eq. now rewrite Hn.
        -- intros a Ha. split; [intros E; now apply (Hsd a o); auto|].
           intros E. now apply (Hdd a Ha).
        -- intros a Ha. split; [intros E; now apply (Hss a Ha)|now apply Hsd; auto].
      * destruct (Hmoved a Ha) as [E1 E2]. split; [exact E1|].
        rewrite E2. apply Hkeep; [now apply Hss|now apply Hsd; auto].
    + intros name Hname. rewrite Hframe by (intros a Ha; apply Hname; now right).
      destruct (Hname o) as [H1 H2]; [left|]. now apply Hkeep.
Qed.

End Repair.

Lemma tools_MkdirAll_ok name w :
  readonly w = false -> (forall data m, fs w !! name <> Some (File data m)) ->
  exists w',
    tools_MkdirAll name w = (Return None, w')
    /\ readonly w' = false /\ stdout w' = stdout w
    /\ fs w' !! name = Some Dir
    /\ forall other, other <> name -> fs w' !! other = fs w !! other.
Proof.
  intros Hro Hfile. unfold tools_MkdirAll. rewrite Hro.
  destruct (fs w !! name) as [[data m|]|] eqn:E.
  - now destruct (Hfile data m).
  - exists w. auto.
  - eexists. split; [reflexivity|]. cbn. rewrite lookup_insert_eq.
    repeat split; auto. intros other Hne. now rewrite lookup_insert_ne.
Qed.

Lemma conclude_repair cfg flags oids ptrs w1 :
  fsckDryRun flags = false -> oids <> [] ->
  conclude cfg flags (false, oids, ptrs) w1 =
  let badDir := filepath_Join (LFSStorageDir cfg) "bad" in
  match tools_MkdirAll badDir
          (printed ("objects: repair: moving corrupt objects to " +:+ badDir) w1) with
  | (Return (Some err), w3) => (Exits (ExitWithError err), w3)
  | (Return None, w3) =>
      match move_corrupt cfg badDir oids w3 with
      | (Return _, w4) => (Exits (os_Exit 1), w4)
      | (Exits e, w4) => (Exits e, w4)
      end
  | (Exits e, w3) => (Exits e, w3)
  end.
Proof.
  intros Hdry Hne. unfold conclude. rewrite Hdry. cbn [orb].
  rewrite bool_decide_eq_false_2 by (now rewrite length_zero_iff_nil).
  unfold mbind, M_bind, Print, leave. cbv zeta.
  now destruct (tools_MkdirAll _ _) as [[[e|]|x] w3].
Qed.

Lemma move_corrupt_abort cfg badDir pre oid post : forall w3 w4 e w5,
  move_corrupt cfg badDir pre w3 = (Return (), w4) ->
  os_Rename (ObjectPathname cfg oid) (filepath_Join badDir oid) w4
  = (Return (Some e), w5) ->
  move_corrupt cfg badDir (pre ++ oid :: post) w3 = (Exits (ExitWithError e), w4).
Proof.
  induction pre as [|o pre IH]; intros w3 w4 e w5 Hpre Hren.
  - inversion Hpre; subst. cbn [app move_corrupt].
    pose proof (os_Rename_failure _ _ _ _ _ Hren) as ->.
    now erewrite bind_Return by exact Hren.
  - cbn [app move_corrupt] in *.
    apply bind_inv in Hpre as [(a & w' & H1 & H2)|(x & _ & ?)]; [|discriminate].
    erewrite bind_Return by exact H1. destruct a as [err|]; [discriminate|].
    eapply IH; eassumption.
Qed.

(** C6: when the run is not OK, dry-run is off and some object is corrupt,
    the command creates the quarantine directory if it is absent and
    renames each corrupt object from its store path into it.  Take a
    store that lists its directories and can be written, a storage
    directory that exists and is written in clean form, a quarantine
    path that is not a regular file, distinct content hashes that are
    file names, and for each of them a regular file at its store path,
    apart from the quarantine, and no directory in its place there.
    Then the quarantine directory is [<storage>/bad], the process ends
    with status 1, each object is at [<storage>/bad/<oid>] with the node
    it had, none is left at its store path, and no other path has
    changed.  If making the directory fails, or a rename fails, the
    command ends there through [ExitWithError], the remaining objects not
    being moved. *)
Theorem repair_moves_corrupt_objects cfg git flags args w oids ptrs w1 :
  passes cfg git flags args w = (Return (false, oids, ptrs), w1) ->
  fsckDryRun flags = false -> oids <> [] ->
  let r := fsckCommand cfg git flags args w in
  let badDir := filepath_Join (LFSStorageDir cfg) "bad" in
  let w2 := printed ("objects: repair: moving corrupt objects to " +:+ badDir) w1 in
  (tree_like (fs w) -> readonly w = false ->
   clean_dir (LFSStorageDir cfg) -> fs w !! LFSStorageDir cfg = Some Dir ->
   (forall data m, fs w !! badDir <> Some (File data m)) ->
   NoDup oids -> Forall (fun o => path_element o = true) oids ->
   separate_paths cfg oids ->
   (forall o, o ∈ oids ->
      (exists data m, fs w !! ObjectPathname cfg o = Some (File data m))
      /\ fs w !! (badDir +:+ "/" +:+ o) <> Some Dir) ->
   badDir = LFSStorageDir cfg +:+ "/bad"
   /\ (forall o, o ∈ oids -> filepath_Join badDir o = badDir +:+ "/" +:+ o)
   /\ r.1 = Exits (os_Exit 1)
   /\ exit_status r.1 = 1
   /\ fs r.2 !! badDir = Some Dir
   /\ (forall o, o ∈ oids ->
         fs r.2 !! ObjectPathname cfg o = None
         /\ fs r.2 !! (badDir +:+ "/" +:+ o) = fs w !! ObjectPathname cfg o)
   /\ (forall name, name <> badDir ->
         (forall o, o ∈ oids ->
            name <> ObjectPathname cfg o /\ name <> badDir +:+ "/" +:+ o) ->
         fs r.2 !! name = fs w !! name))
  /\ (forall err w3, tools_MkdirAll badDir w2 = (Return (Some err), w3) ->
        r = (Exits (ExitWithError err), w2))
  /\ (forall w3 pre oid post w4 err w5,
        tools_MkdirAll badDir w2 = (Return None, w3) ->
        oids = pre ++ oid :: post ->
        move_corrupt cfg badDir pre w3 = (Return (), w4) ->
        os_Rename (ObjectPathname cfg oid) (filepath_Join badDir oid) w4
        = (Return (Some err), w5) ->
        r = (Exits (ExitWithError err), w4)).
Proof.
  intros H Hdry Hne. cbv zeta.
  rewrite (fsckCommand_conclude _ _ _ _ _ _ _ H), (conclude_repair _ _ _ _ _ Hdry Hne).
  cbv zeta. destruct (reads_only_passes _ _ _ _ _ _ _ H) as [Hfs Hro1].
  set (badDir := filepath_Join (LFSStorageDir cfg) "bad").
  set (w2 := printed _ w1).
  split; [|split].
  - intros _ Hro Hdir _ Hfile Hnd Hnames Hsep Hpre.
    destruct (badDir_clean _ Hdir) as [Hbad Hclean].
    fold badDir in Hbad. rewrite <- Hbad in Hclean.
    assert (Hdst : forall o, o ∈ oids -> filepath_Join badDir o = badDir +:+ "/" +:+ o).
    { intros o Ho. apply filepath_Join_element; [exact Hclean|].
      now apply (proj1 (Forall_forall _ _) Hnames). }
    assert (Hsb : forall o, o ∈ oids -> ObjectPathname cfg o <> badDir)
      by (intros o Ho; now apply Hsep).
    assert (Hdb : forall o, badDir +:+ "/" +:+ o <> badDir).
    { intros o. apply append_snoc_ne. now rewrite append_cons. }
    destruct (tools_MkdirAll_ok badDir w2) as (w3 & -> & Hro3 & _ & Hmade & Hkeep).
    { cbn. congruence. }
    { cbn. now rewrite Hfs. }
    assert (Hkeep' : forall name, name <> badDir -> fs w3 !! name = fs w !! name).
    { intros name Hn. rewrite Hkeep by exact Hn. cbn. now rewrite Hfs. }
    destruct (move_corrupt_ok cfg badDir oids w3) as (w4 & Hmv & _ & Hmoved & Hframe).
    { exact Hro3. }
    { exact Hnd. }
    { apply Hsep. }
    { intros o o' Ho Ho'. rewrite !Hdst by assumption. intros E.
      apply append_inj_l in E. now apply append_inj_l in E. }
    { apply Hsep. }
    { intros o Ho. destruct (Hpre o Ho) as [(data & m & Hs) Hd].
      rewrite Hdst by exact Ho. rewrite !Hkeep' by auto. eauto. }
    rewrite Hmv. cbn [fst snd].
    split; [exact Hbad|]. split; [exact Hdst|].
    split; [reflexivity|]. split; [reflexivity|]. split; [|split].
    + rewrite Hframe; [exact Hmade|]. intros o Ho.
      split; [apply not_eq_sym; now apply Hsb|].
      rewrite Hdst by exact Ho. apply not_eq_sym, Hdb.
    + intros o Ho. destruct (Hmoved o Ho) as [E1 E2]. split; [exact E1|].
      rewrite <- Hdst by exact Ho. rewrite E2. now apply Hkeep', Hsb.
    + intros name Hn Hname. rewrite Hframe.
      * now apply Hkeep'.
      * intros o Ho. rewrite Hdst by exact Ho. now apply Hname.
  - intros err w3 Hmk. rewrite Hmk.
    apply tools_MkdirAll_inv in Hmk as [(? & _)|(e & _ & ->)]; [discriminate|].
    reflexivity.
  - intros w3 pre oid post w4 err w5 Hmk -> Hpre Hren. rewrite Hmk.
    now rewrite (move_corrupt_abort _ _ _ _ _ _ _ _ _ Hpre Hren).
Qed.

(** Closes a goal about the members of a list written out, by taking
    them one by one. *)
Ltac each_member H :=
  repeat (apply elem_of_cons in H as [->|H]); [..|now apply elem_of_nil in H].

Lemma sample_paths_separate :
  separate_paths Sample.cfg [Sample.oid_hello; Sample.oid_hundred].
Proof.
  split.
  - intros o o' _ _ E. cbn in E. now apply append_inj_l in E.
  - intros o o' Ho Ho'. each_member Ho; each_member Ho';
      intros E; vm_compute in E; discriminate E.
  - intros o Ho. each_member Ho; intros E; vm_compute in E; discriminate E.
Qed.

Lemma repair_moves_corrupt_objects_witness :
  let git := Sample.repo Sample.calls_two_corrupt [] [] in
  let r := fsckCommand Sample.cfg git Sample.default_flags [] Sample.repository in
  (passes Sample.cfg git Sample.default_flags [] Sample.repository).1
  = Return (false, [Sample.oid_hello; Sample.oid_hundred], [])
  /\ r.1 = Exits (os_Exit 1)
  /\ fs r.2 !! "/repo/.git/lfs/bad"%string = Some Dir
  /\ (forall o, o ∈ [Sample.oid_hello; Sample.oid_hundred] ->
        fs r.2 !! ObjectPathname Sample.cfg o = None
        /\ fs r.2 !! ("/repo/.git/lfs/bad" +:+ "/" +:+ o)
           = fs Sample.repository !! ObjectPathname Sample.cfg o).
Proof.
  cbv zeta.
  assert (Hpasses :
    (passes Sample.cfg (Sample.repo Sample.calls_two_corrupt [] [])
       Sample.default_flags [] Sample.repository).1
    = Return (false, [Sample.oid_hello; Sample.oid_hundred], [])) by by_vm.
  split; [exact Hpasses|]. apply run_as_pair in Hpasses.
  assert (Hdry : fsckDryRun Sample.default_flags = false) by reflexivity.
  assert (Hne : [Sample.oid_hello; Sample.oid_hundred] <> []) by discriminate.
  assert (Hdir : clean_dir (LFSStorageDir Sample.cfg))
    by (split; [reflexivity|split; discriminate]).
  assert (Hstorage : fs Sample.repository !! LFSStorageDir Sample.cfg = Some Dir)
    by by_vm.
  assert (Hro : readonly Sample.repository = false) by reflexivity.
  assert (Htree : tree_like (fs Sample.repository))
    by (apply (bool_decide_unpack _); vm_compute; exact I).
  assert (Hbad : forall data m,
            fs Sample.repository !! filepath_Join (LFSStorageDir Sample.cfg) "bad"
            <> Some (File data m)).
  { intros data m.
    assert (E : fs Sample.repository !! filepath_Join (LFSStorageDir Sample.cfg) "bad"
                = None) by by_vm.
    rewrite E. discriminate. }
  assert (Hnd : NoDup [Sample.oid_hello; Sample.oid_hundred]).
  { apply (bool_decide_unpack _). vm_compute. exact I. }
  assert (Hnames : Forall (fun o => path_element o = true)
                     [Sample.oid_hello; Sample.oid_hundred])
    by (repeat constructor).
  assert (Hthere : forall o, o ∈ [Sample.oid_hello; Sample.oid_hundred] ->
            (exists data m,
               fs Sample.repository !! ObjectPathname Sample.cfg o
               = Some (File data m))
            /\ fs Sample.repository
                 !! (filepath_Join (LFSStorageDir Sample.cfg) "bad" +:+ "/" +:+ o)
               <> Some Dir).
  { assert (E1 : fs Sample.repository !! ObjectPathname Sample.cfg Sample.oid_hello
                 = Some (File "helln" Readable)) by by_vm.
    assert (E2 : fs Sample.repository !! ObjectPathname Sample.cfg Sample.oid_hundred
                 = Some (File "bbbbbbbbbbbbbbbbbbbbbbbbbbbbbbbbbbbbbbbbbbbbbbbbbb"
                           Readable)) by by_vm.
    assert (E3 : fs Sample.repository
                   !! (filepath_Join (LFSStorageDir Sample.cfg) "bad" +:+ "/"
                       +:+ Sample.oid_hello) = None) by by_vm.
    assert (E4 : fs Sample.repository
                   !! (filepath_Join (LFSStorageDir Sample.cfg) "bad" +:+ "/"
                       +:+ Sample.oid_hundred) = None) by by_vm.
    intros o Ho. each_member Ho.
    - rewrite E1, E3. split; [eauto|discriminate].
    - rewrite E2, E4. split; [eauto|discriminate]. }
  destruct (proj1 (repair_moves_corrupt_objects _ _ _ _ _ _ _ _ Hpasses Hdry Hne)
              Htree Hro Hdir Hstorage Hbad Hnd Hnames sample_paths_separate Hthere)
    as (Ebad & _ & E & _ & Hmade & Hmoved & _).
  rewrite Ebad in Hmade, Hmoved.
  split; [exact E|]. split; [exact Hmade|exact Hmoved].
Defined.

(** ** The corrupt list *)

Lemma run_calls_objects cfg l : forall acc w acc' w',
  run_calls (objects_callback cfg) l acc w = (Return acc', w') ->
  acc' = acc ++ findings_of cfg (fs w) l.
Proof.
  induction l as [|c l IH]; intros acc w acc' w' H; cbn [run_calls] in H.
  - inversion H. unfold findings_of. cbn. now rewrite app_nil_r.
  - apply bind_inv in H as [(a & w1 & H1 & H2)|(e & _ & ?)]; [|discriminate].
    destruct c as [[p|] [e|]]; try discriminate.
    rewrite objects_callback_classify in H1. cbv zeta in H1.
    unfold findings_of, pointers_of. cbn [omap list_omap fst]. rewrite filter_cons.
    destruct (classify cfg (fs w) p) eqn:Ec; inversion H1; subst; clear H1;
      apply IH in H2; cbn [fs traced printed] in H2; rewrite H2;
      unfold findings_of, pointers_of; cbn [is_finding];
      case_decide; try discriminate; try congruence;
      now rewrite <- app_assoc.
Qed.

(** C9, counterexample: the same pointer, whose object has a flipped
    bit, is yielded by the history scan and again by the index scan, and
    its content hash is in the corrupt list twice. *)
Lemma corrupt_oid_listed_twice : ~ corrupt_oids_never_repeat.
Proof.
  intros H.
  assert (Hrun :
    (doFsckObjects Sample.cfg
       (Sample.repo [(Some Sample.p_hello, None)] [(Some Sample.p_hello, None)] [])
       EmptyString "c0ffee" true Sample.world).1
    = Return [Sample.oid_hello; Sample.oid_hello]) by by_vm.
  apply run_as_pair in Hrun.
  pose proof (H _ _ _ _ _ _ _ _ Hrun) as Hnd.
  apply NoDup_cons in Hnd as [Hnotin _]. apply Hnotin. left.
Qed.

(** C9 (amended): the corrupt list holds, in the order of the callback
    calls (history scan, then index scan), one entry for each record
    classified openError or corruptObject, so a content hash is listed
    once for every failing record that declares it; it is listed at most
    once when the scans yield no two records with the same content hash. *)
Theorem corrupt_oids_one_per_failing_record cfg git start end_ useIndex w oids w' :
  doFsckObjects cfg git start end_ useIndex w = (Return oids, w') ->
  let l := object_pass_calls cfg git start end_ useIndex in
  oids = Oid <$> filter (fun p => is_finding (classify cfg (fs w) p) = true)
                   (pointers_of l)
  /\ (NoDup (Oid <$> pointers_of l) -> NoDup oids).
Proof.
  intros H. cbv zeta. apply doFsckObjects_inv in H as (_ & _ & H).
  apply run_calls_objects in H. rewrite app_nil_l in H.
  split; [exact H|]. intros Hnd. rewrite H. unfold findings_of.
  eapply sublist_NoDup; [exact Hnd|]. apply fmap_sublist, sublist_filter.
Qed.

Lemma corrupt_oids_one_per_failing_record_witness :
  let git := Sample.repo [(Some Sample.p_hello, None); (Some Sample.p_abc, None)]
               [(Some Sample.p_gone, None); (Some Sample.p_hello, None)] [] in
  (doFsckObjects Sample.cfg git EmptyString "c0ffee" true Sample.world).1
  = Return [Sample.oid_hello; Sample.oid_gone; Sample.oid_hello]
  /\ [Sample.oid_hello; Sample.oid_gone; Sample.oid_hello]
     = Oid <$> filter (fun p => is_finding (classify Sample.cfg (fs Sample.world) p) = true)
                 (pointers_of (object_pass_calls Sample.cfg git EmptyString "c0ffee" true)).
Proof.
  cbv zeta.
  assert (Hrun :
    (doFsckObjects Sample.cfg
       (Sample.repo [(Some Sample.p_hello, None); (Some Sample.p_abc, None)]
          [(Some Sample.p_gone, None); (Some Sample.p_hello, None)] [])
       EmptyString "c0ffee" true Sample.world).1
    = Return [Sample.oid_hello; Sample.oid_gone; Sample.oid_hello]) by by_vm.
  split; [exact Hrun|]. apply run_as_pair in Hrun.
  exact (proj1 (corrupt_oids_one_per_failing_record _ _ _ _ _ _ _ _ Hrun)).
Defined.

(** ** The pointer pass and the index *)

Lemma pointers_callback_world acc c w w' :
  (pointers_callback acc c w).1 = (pointers_callback acc c w').1.
Proof.
  destruct c as [[p|] err].
  - rewrite !pointers_callback_pointer. cbv zeta. now destruct (Canonical p).
  - rewrite !pointers_callback_error. now destruct err as [[]|].
Qed.

Lemma run_calls_pointers_world l : forall acc w w',
  (run_calls pointers_callback l acc w).1 = (run_calls pointers_callback l acc w').1.
Proof.
  induction l as [|c l IH]; intros acc w w'; [reflexivity|].
  cbn [run_calls]. unfold mbind, M_bind.
  pose proof (pointers_callback_world acc c w w') as Hc.
  destruct (pointers_callback acc c w) as [[a|e] w1],
           (pointers_callback acc c w') as [[a'|e'] w1']; cbn in Hc;
    try discriminate; inversion Hc; subst; [apply IH|reflexivity].
Qed.

Lemma doFsckPointers_world git start end_ w w' :
  (doFsckPointers git start end_ w).1 = (doFsckPointers git start end_ w').1.
Proof.
  rewrite !doFsckPointers_eq. unfold exit_on_error, run_scan, mbind, M_bind.
  pose proof (run_calls_pointers_world (calls (tree_scan git start end_)) [] w w') as Hr.
  destruct (run_calls _ _ _ w) as [[a|e] w1],
           (run_calls _ _ _ w') as [[a'|e'] w1']; cbn in Hr;
    try discriminate; inversion Hr; subst; cbn; [|reflexivity].
  now destruct (result _).
Qed.

(** C10: the pointer pass never looks at the index.  Whatever the index
    scan would yield, [doFsckPointers] behaves the same; a run with
    [--pointers] alone is the same run, also with no argument where the
    index is part of the range; and when both passes run, the list of
    corrupt pointers does not depend on the index scan. *)
Theorem pointer_pass_ignores_index cfg git index :
  (forall start end_ w,
     doFsckPointers (with_ScanIndex git index) start end_ w
     = doFsckPointers git start end_ w)
  /\ (forall dryRun args w,
        fsckCommand cfg (with_ScanIndex git index) (mkFlags dryRun false true) args w
        = fsckCommand cfg git (mkFlags dryRun false true) args w)
  /\ (forall flags args w ok oids ptrs w1 ok' oids' ptrs' w1',
        passes cfg git flags args w = (Return (ok, oids, ptrs), w1) ->
        passes cfg (with_ScanIndex git index) flags args w
        = (Return (ok', oids', ptrs'), w1') ->
        ptrs' = ptrs).
Proof.
  split; [reflexivity|]. split; [reflexivity|].
  intros flags args w ok oids ptrs w1 ok' oids' ptrs' w1' H H'.
  apply passes_inv in H as (useIndex & start & end_ & ok1 & wm & Hr & _ & Hp).
  apply passes_inv in H' as (useIndex' & start' & end_' & ok1' & wm' & Hr' & _ & Hp').
  change (scan_range (with_ScanIndex git index) args w) with (scan_range git args w) in Hr'.
  rewrite Hr in Hr'. inversion Hr'; subst; clear Hr'.
  apply pointers_pass_inv in Hp as [_ Hp]. apply pointers_pass_inv in Hp' as [_ Hp'].
  destruct (requested flags).2.
  - change (doFsckPointers (with_ScanIndex git index) start' end_' wm')
      with (doFsckPointers git start' end_' wm') in Hp'.
    pose proof (doFsckPointers_world git start' end_' wm wm') as E.
    rewrite Hp, Hp' in E. cbn in E. now inversion E.
  - destruct Hp as [-> _], Hp' as [-> _]. reflexivity.
Qed.

Lemma pointer_pass_ignores_index_witness :
  let git := Sample.repo Sample.calls_clean [] [(Some Sample.p_loose, None)] in
  let index := fun (_ : option Filter) (_ : string) =>
                 mkScan [(Some (mkWrappedPointer "0a0b" "i.bin" Sample.oid_hello 5 false),
                          None)] None in
  let run := passes Sample.cfg git Sample.default_flags [] Sample.world in
  let run' := passes Sample.cfg (with_ScanIndex git index) Sample.default_flags []
                Sample.world in
  (run.1 = Return (false, [], pointer_findings run.1)
   /\ run'.1 = Return (false, [Sample.oid_hello], pointer_findings run'.1)
   /\ length (pointer_findings run.1) = 1%nat)
  /\ pointer_findings run'.1 = pointer_findings run.1.
Proof.
  cbv zeta.
  assert (Hrun :
    (passes Sample.cfg
       (Sample.repo Sample.calls_clean [] [(Some Sample.p_loose, None)])
       Sample.default_flags [] Sample.world).1
    = Return (false, [],
              pointer_findings
                (passes Sample.cfg
                   (Sample.repo Sample.calls_clean [] [(Some Sample.p_loose, None)])
                   Sample.default_flags [] Sample.world).1)) by by_vm.
  assert (Hrun' :
    (passes Sample.cfg
       (with_ScanIndex
          (Sample.repo Sample.calls_clean [] [(Some Sample.p_loose, None)])
          (fun _ _ =>
             mkScan [(Some (mkWrappedPointer "0a0b" "i.bin" Sample.oid_hello 5 false),
                      None)] None))
       Sample.default_flags [] Sample.world).1
    = Return (false, [Sample.oid_hello],
              pointer_findings
                (passes Sample.cfg
                   (with_ScanIndex
                      (Sample.repo Sample.calls_clean [] [(Some Sample.p_loose, None)])
                      (fun _ _ =>
                         mkScan [(Some (mkWrappedPointer "0a0b" "i.bin"
                                          Sample.oid_hello 5 false), None)] None))
                   Sample.default_flags [] Sample.world).1)) by by_vm.
  assert (Hlen :
    length (pointer_findings
              (passes Sample.cfg
                 (Sample.repo Sample.calls_clean [] [(Some Sample.p_loose, None)])
                 Sample.default_flags [] Sample.world).1) = 1%nat) by by_vm.
  split; [split; [exact Hrun | split; [exact Hrun' | exact Hlen]]|].
  exact (proj2 (proj2 (pointer_pass_ignores_index Sample.cfg
                         (Sample.repo Sample.calls_clean [] [(Some Sample.p_loose, None)])
                         (fun _ _ =>
                            mkScan [(Some (mkWrappedPointer "0a0b" "i.bin"
                                             Sample.oid_hello 5 false), None)] None)))
           _ _ _ _ _ _ _ _ _ _ _ (run_as_pair _ _ Hrun) (run_as_pair _ _ Hrun')).
Defined.

(** * Further properties of the command *)

(** ** How the process can end *)

Lemma never_os_Exit_ret {A} (a : A) : never_os_Exit (mret a).
Proof. intros w e w' H. inversion H. Qed.

Lemma never_os_Exit_leave {A} e :
  (forall code, e <> os_Exit code) -> never_os_Exit (@leave A e).
Proof. intros He w e' w' H. inversion H; subst. exact He. Qed.

Lemma never_os_Exit_bind {A B} (m : M A) (k : A -> M B) :
  never_os_Exit m -> (forall a, never_os_Exit (k a)) -> never_os_Exit (m ≫= k).
Proof.
  intros Hm Hk w e w2 H. apply bind_inv in H as [(a & w1 & H1 & H2)|(e' & H1 & E)].
  - exact (Hk a _ _ _ H2).
  - inversion E; subst. exact (Hm _ _ _ H1).
Qed.

Lemma never_os_Exit_Print line : never_os_Exit (Print line).
Proof. intros w e w' H. inversion H. Qed.

Lemma never_os_Exit_Debug line : never_os_Exit (Debug line).
Proof. intros w e w' H. inversion H. Qed.

Lemma never_os_Exit_os_Open name : never_os_Exit (os_Open name).
Proof.
  intros w e w' H. unfold os_Open in H. repeat case_match; inversion H.
Qed.

Create HintDb ending.
#[local] Hint Resolve never_os_Exit_ret never_os_Exit_Print never_os_Exit_Debug
  never_os_Exit_os_Open : ending.

Ltac ending_step :=
  first [ solve [auto with ending]
        | apply never_os_Exit_leave; discriminate
        | apply never_os_Exit_bind; [| intros ? ]
        | progress cbv zeta
        | case_match ].

Lemma never_os_Exit_fsckPointer cfg name oid size :
  never_os_Exit (fsckPointer cfg name oid size).
Proof. unfold fsckPointer. repeat ending_step. Qed.

Lemma never_os_Exit_objects_callback cfg acc c :
  never_os_Exit (objects_callback cfg acc c).
Proof.
  unfold objects_callback. destruct c as [p err].
  pose proof never_os_Exit_fsckPointer. repeat ending_step.
Qed.

Lemma never_os_Exit_pointers_callback acc c :
  never_os_Exit (pointers_callback acc c).
Proof. unfold pointers_callback. destruct c as [p err]. repeat ending_step. Qed.

Lemma never_os_Exit_scan {S} (cb : S -> found -> M S) sc s :
  (forall s c, never_os_Exit (cb s c)) ->
  never_os_Exit (exit_on_error (run_scan cb sc s)).
Proof.
  intros Hcb. unfold exit_on_error, run_scan.
  assert (Hrun : forall l s, never_os_Exit (run_calls cb l s)).
  { induction l as [|c l IH]; intros s'; cbn [run_calls]; repeat ending_step. }
  repeat ending_step.
Qed.

Lemma never_os_Exit_passes cfg git flags args :
  never_os_Exit (passes cfg git flags args).
Proof.
  unfold passes, objects_pass, pointers_pass, scan_range, doFsckObjects, doFsckPointers.
  pose proof (fun sc s => never_os_Exit_scan (objects_callback cfg) sc s
                            (never_os_Exit_objects_callback cfg)).
  pose proof (fun sc s => never_os_Exit_scan pointers_callback sc s
                            never_os_Exit_pointers_callback).
  repeat ending_step.
Qed.

Lemma conclude_status cfg flags oids ptrs w1 :
  exit_status (conclude cfg flags (false, oids, ptrs) w1).1 <> 0.
Proof.
  unfold conclude. destruct (fsckDryRun flags); [discriminate|]. cbn [orb].
  case_bool_decide as Hlen; [discriminate|].
  unfold mbind, M_bind, Print, leave.
  destruct (tools_MkdirAll _ _) as [[[e|]|x] w3] eqn:Em.
  - discriminate.
  - destruct (move_corrupt cfg _ oids w3) as [o w4] eqn:Ev.
    apply move_corrupt_outcome in Ev as [->|(oid & e & _ & ->)]; discriminate.
  - apply tools_MkdirAll_inv in Em as [(? & _)|(e & ? & _)]; discriminate.
Qed.

(** X1: the command ends with status 0 only when the requested passes ran
    to their end without a finding; it has then printed the success line
    and returned. *)
Theorem status_0_only_when_clean cfg git flags args w :
  exit_status (fsckCommand cfg git flags args w).1 = 0 ->
  exists w1,
    passes cfg git flags args w = (Return (true, [], []), w1)
    /\ fsckCommand cfg git flags args w = (Return (), printed "Git LFS fsck OK" w1).
Proof.
  intros H. destruct (passes cfg git flags args w) as [[[[ok oids] ptrs]|e] w1] eqn:E.
  - rewrite (fsckCommand_conclude _ _ _ _ _ _ _ E) in *.
    destruct ok.
    + destruct (verdict_ok _ _ _ _ _ _ _ _ _ E) as ([[-> ->] _] & _); [reflexivity|].
      exists w1. split; reflexivity.
    + now apply conclude_status in H.
  - unfold fsckCommand in H. rewrite (bind_Exits _ _ _ _ _ E) in H. cbn in H.
    destruct e; try discriminate.
    now destruct (never_os_Exit_passes _ _ _ _ _ _ _ E code).
Qed.

Lemma status_0_only_when_clean_witness :
  let git := Sample.repo Sample.calls_clean [(Some Sample.p_abc, None)]
               Sample.calls_clean in
  exit_status (fsckCommand Sample.cfg git Sample.default_flags [] Sample.world).1 = 0
  /\ exists w1,
       passes Sample.cfg git Sample.default_flags [] Sample.world
       = (Return (true, [], []), w1)
       /\ fsckCommand Sample.cfg git Sample.default_flags [] Sample.world
          = (Return (), printed "Git LFS fsck OK" w1).
Proof.
  cbv zeta.
  assert (H0 : exit_status
                 (fsckCommand Sample.cfg
                    (Sample.repo Sample.calls_clean [(Some Sample.p_abc, None)]
                       Sample.calls_clean)
                    Sample.default_flags [] Sample.world).1 = 0) by by_vm.
  split; [exact H0|]. exact (status_0_only_when_clean _ _ _ _ _ H0).
Defined.

(** ** What changes the store *)

Lemma reads_only_conclude_skip cfg flags ok oids ptrs :
  ok = true \/ fsckDryRun flags = true \/ oids = [] ->
  reads_only (conclude cfg flags (ok, oids, ptrs)).
Proof.
  intros H. unfold conclude. destruct ok; [apply reads_only_Print|].
  destruct H as [?|[-> | ->]]; [discriminate| |].
  - apply reads_only_leave.
  - rewrite bool_decide_eq_true_2 by reflexivity. rewrite orb_true_r.
    apply reads_only_leave.
Qed.

(** X2: with [--dry-run] the command leaves the store as it found it,
    however it ends: returning, with status 1, or aborting on an error. *)
Theorem dry_run_never_changes_store cfg git flags args w :
  fsckDryRun flags = true ->
  let r := fsckCommand cfg git flags args w in
  fs r.2 = fs w /\ readonly r.2 = readonly w.
Proof.
  intros Hdry. cbv zeta.
  destruct (fsckCommand cfg git flags args w) as [o w'] eqn:E.
  revert E. apply reads_only_bind; [apply reads_only_passes|].
  intros [[ok oids] ptrs]. apply reads_only_conclude_skip. auto.
Qed.

Lemma dry_run_never_changes_store_witness :
  let git := Sample.repo Sample.calls_two_corrupt [(Some Sample.p_gone, None)] [] in
  let r := fsckCommand Sample.cfg git Sample.dry_run [] Sample.world in
  fsckDryRun Sample.dry_run = true
  /\ r.1 = Exits (os_Exit 1)
  /\ fs r.2 = fs Sample.world /\ readonly r.2 = readonly Sample.world.
Proof.
  cbv zeta. split; [reflexivity|]. split; [by_vm|].
  apply (dry_run_never_changes_store Sample.cfg _ Sample.dry_run [] Sample.world).
  reflexivity.
Defined.

(** X3: the store is changed by nothing but the repair: if the command
    leaves a store other than the one it found, then dry-run was off, the
    object pass was requested, and the passes had returned a non-empty
    list of corrupt objects. *)
Theorem store_changes_only_by_repair cfg git flags args w :
  fs (fsckCommand cfg git flags args w).2 <> fs w ->
  fsckDryRun flags = false
  /\ (requested flags).1 = true
  /\ exists oids ptrs w1,
       passes cfg git flags args w = (Return (false, oids, ptrs), w1)
       /\ oids <> [].
Proof.
  intros Hchg.
  destruct (passes cfg git flags args w) as [[[[ok oids] ptrs]|e] w1] eqn:E.
  - destruct (reads_only_passes _ _ _ _ _ _ _ E) as [Hfs _].
    rewrite (fsckCommand_conclude _ _ _ _ _ _ _ E) in Hchg.
    assert (Hskip : ~ (ok = true \/ fsckDryRun flags = true \/ oids = [])).
    { intros Hs. apply Hchg.
      destruct (conclude cfg flags (ok, oids, ptrs) w1) as [o w2] eqn:Ec.
      apply (reads_only_conclude_skip _ _ _ _ _ Hs) in Ec as [Ec _].
      cbn [snd]. now rewrite Ec. }
    destruct ok; [tauto|]. destruct (fsckDryRun flags); [tauto|].
    split; [reflexivity|].
    destruct (verdict_ok _ _ _ _ _ _ _ _ _ E) as (_ & Hno & _).
    split; [destruct (requested flags).1; [reflexivity|tauto]|].
    exists oids, ptrs, w1. split; [reflexivity|tauto].
  - exfalso. apply Hchg. unfold fsckCommand.
    rewrite (bind_Exits _ _ _ _ _ E). now apply reads_only_passes in E.
Qed.

Lemma store_changes_only_by_repair_witness :
  let git := Sample.repo Sample.calls_two_corrupt [] [] in
  let r := fsckCommand Sample.cfg git Sample.default_flags [] Sample.world in
  fs r.2 <> fs Sample.world
  /\ fsckDryRun Sample.default_flags = false
  /\ (requested Sample.default_flags).1 = true.
Proof.
  cbv zeta.
  assert (Hbad :
    fs (fsckCommand Sample.cfg (Sample.repo Sample.calls_two_corrupt [] [])
          Sample.default_flags [] Sample.world).2 !! "/repo/.git/lfs/bad"%string
    = Some Dir) by by_vm.
  assert (Hnone : fs Sample.world !! "/repo/.git/lfs/bad"%string = None) by by_vm.
  assert (Hchg :
    fs (fsckCommand Sample.cfg (Sample.repo Sample.calls_two_corrupt [] [])
          Sample.default_flags [] Sample.world).2 <> fs Sample.world).
  { intros E. rewrite E, Hnone in Hbad. discriminate Hbad. }
  split; [exact Hchg|].
  destruct (store_changes_only_by_repair _ _ _ _ _ Hchg) as (Hdry & Hreq & _).
  split; [exact Hdry|exact Hreq].
Defined.

(** ** Flags and arguments *)

(** X4: some pass always runs, and with neither [--objects] nor
    [--pointers] the command is the command with both. *)
Theorem no_pass_flag_means_both cfg git dryRun args w :
  (forall flags, (requested flags).1 = true \/ (requested flags).2 = true)
  /\ fsckCommand cfg git (mkFlags dryRun false false) args w
     = fsckCommand cfg git (mkFlags dryRun true true) args w.
Proof.
  split; [|reflexivity].
  intros [d [] []]; cbn; auto.
Qed.

(** X5: with two or more arguments no ref is resolved and the arguments
    are not read: the passes scan the history of [HEAD], without the
    index, whatever the arguments are and whatever the refs resolve to. *)
Theorem surplus_arguments_are_ignored cfg git flags a b rest w :
  scan_range git (a :: b :: rest) w = (Return (false, EmptyString, "HEAD"%string), w)
  /\ forall current resolve a' b' rest',
       fsckCommand cfg (with_refs git current resolve) flags (a' :: b' :: rest') w
       = fsckCommand cfg git flags (a :: b :: rest) w.
Proof. split; reflexivity. Qed.

(** ** What the passes print *)




Lemma run_calls_objects_lines cfg l : forall acc w acc' w',
  run_calls (objects_callback cfg) l acc w = (Return acc', w') ->
  stdout w' = stdout w ++ (object_line cfg (fs w) <$> failing_records cfg (fs w) l).
Proof.
  induction l as [|c l IH]; intros acc w acc' w' H; cbn [run_calls] in H.
  - inversion H. unfold failing_records. cbn. now rewrite app_nil_r.
  - apply bind_inv in H as [(a & w1 & H1 & H2)|(e & _ & ?)]; [|discriminate].
    destruct c as [[p|] [e|]]; try discriminate.
    rewrite objects_callback_classify in H1. cbv zeta in H1.
    apply IH in H2.
    assert (Hline : forall v, classify cfg (fs w) p = v ->
              object_line cfg (fs w) p
              = match v with OpenError e => openError_line p e
                           | _ => corruptObject_line p end)
      by (intros v <-; reflexivity).
    unfold failing_records, pointers_of in *. cbn [omap list_omap fst].
    rewrite filter_cons.
    destruct (classify cfg (fs w) p) eqn:Ec; inversion H1; subst; clear H1;
      cbn [fs traced printed stdout] in H2; rewrite H2; cbn [is_finding];
      case_decide; try discriminate; try congruence.
    + rewrite fmap_cons, (Hline _ eq_refl). now rewrite <- app_assoc.
    + rewrite fmap_cons, (Hline _ eq_refl). now rewrite <- app_assoc.
Qed.

(** X7: when the object pass returns, it has printed exactly one line for
    each entry of its corrupt list, in the order of the list: the
    openError line with the cause for a record whose object could not be
    opened, the corruptObject line for one whose hash does not match. *)
Theorem object_findings_are_printed cfg git start end_ useIndex w oids w' :
  doFsckObjects cfg git start end_ useIndex w = (Return oids, w') ->
  let records :=
    failing_records cfg (fs w) (object_pass_calls cfg git start end_ useIndex) in
  oids = Oid <$> records
  /\ stdout w' = stdout w ++ (object_line cfg (fs w) <$> records).
Proof.
  intros H. cbv zeta. apply doFsckObjects_inv in H as (_ & _ & H). split.
  - apply run_calls_objects in H. now rewrite app_nil_l in H.
  - now apply run_calls_objects_lines in H.
Qed.

Lemma object_findings_are_printed_witness :
  let git := Sample.repo [(Some Sample.p_hello, None); (Some Sample.p_abc, None)]
               [(Some Sample.p_gone, None)] [] in
  let run := doFsckObjects Sample.cfg git EmptyString "c0ffee" true Sample.world in
  run.1 = Return [Sample.oid_hello; Sample.oid_gone]
  /\ stdout run.2
     = stdout Sample.world
       ++ (object_line Sample.cfg (fs Sample.world)
           <$> failing_records Sample.cfg (fs Sample.world)
                 (object_pass_calls Sample.cfg git EmptyString "c0ffee" true)).
Proof.
  cbv zeta.
  assert (Hrun :
    (doFsckObjects Sample.cfg
       (Sample.repo [(Some Sample.p_hello, None); (Some Sample.p_abc, None)]
          [(Some Sample.p_gone, None)] [])
       EmptyString "c0ffee" true Sample.world).1
    = Return [Sample.oid_hello; Sample.oid_gone]) by by_vm.
  split; [exact Hrun|].
  exact (proj2 (object_findings_are_printed _ _ _ _ _ _ _ _ (run_as_pair _ _ Hrun))).
Defined.

(** ** When the repair can complete *)

Lemma os_Rename_done old new w w' :
  os_Rename old new w = (Return None, w') ->
  exists n, fs w !! old = Some n /\ fs w' = <[new := n]> (delete old (fs w)).
Proof.
  intros H. apply os_Rename_inv in H as [(e & E & _)|(n & _ & Hn & _ & _ & ->)];
    [discriminate|].
  now exists n.
Qed.

Lemma move_corrupt_done cfg badDir oids :
  (forall o o', o ∈ oids -> o' ∈ oids ->
     ObjectPathname cfg o <> filepath_Join badDir o') ->
  forall w w',
    move_corrupt cfg badDir oids w = (Return (), w') ->
    NoDup oids /\ forall o, o ∈ oids -> is_Some (fs w !! ObjectPathname cfg o).
Proof.
  induction oids as [|o oids IH]; intros Hsep w w' H.
  - split; [constructor|]. intros o Ho. inversion Ho.
  - cbn [move_corrupt] in H.
    apply bind_inv in H as [(err & w1 & H1 & H2)|(e & _ & ?)]; [|discriminate].
    destruct err as [err|]; [discriminate|].
    apply os_Rename_done in H1 as (n & Hn & Hfs).
    apply IH in H2 as [Hnd Hthere];
      [|intros a b Ha Hb; apply Hsep; now right].
    assert (Hother : forall a, a ∈ o :: oids ->
              ObjectPathname cfg a <> filepath_Join badDir o)
      by (intros a Ha; apply Hsep; [exact Ha|left]).
    assert (Hgone : fs w1 !! ObjectPathname cfg o = None).
    { rewrite Hfs, lookup_insert_ne by (apply not_eq_sym, Hother; left).
      apply lookup_delete_eq. }
    assert (Hnotin : o ∉ oids).
    { intros Ho. apply Hthere in Ho as [n' Hn']. congruence. }
    split; [now constructor|].
    intros o' Ho'. apply elem_of_cons in Ho' as [->|Ho']; [now exists n|].
    destruct (Hthere o' Ho') as [n' Hn']. rewrite Hfs in Hn'.
    rewrite lookup_insert_ne in Hn' by (apply not_eq_sym, Hother; now right).
    apply lookup_delete_Some in Hn' as [_ Hn']. now exists n'.
Qed.

(** X8: the repair runs to its end, and the command ends with status 1
    after it, only if no content hash is in the corrupt list twice and
    every listed object has a file at its store path when the command
    starts.  A missing object, which is an openError finding, or a hash
    yielded twice therefore makes a run without dry-run end on the rename
    error instead. *)
Theorem repair_needs_present_distinct_objects cfg git flags args w oids ptrs w1 :
  separate_paths cfg oids ->
  passes cfg git flags args w = (Return (false, oids, ptrs), w1) ->
  fsckDryRun flags = false -> oids <> [] ->
  (fsckCommand cfg git flags args w).1 = Exits (os_Exit 1) ->
  NoDup oids /\ forall o, o ∈ oids -> is_Some (fs w !! ObjectPathname cfg o).
Proof.
  intros Hsep H Hdry Hne Hexit.
  rewrite (fsckCommand_conclude _ _ _ _ _ _ _ H), (conclude_repair _ _ _ _ _ Hdry Hne)
    in Hexit.
  cbv zeta in Hexit. destruct (reads_only_passes _ _ _ _ _ _ _ H) as [Hfs _].
  destruct (tools_MkdirAll _ _) as [rm w3] eqn:Em.
  apply tools_MkdirAll_inv in Em as [(-> & _ & _ & _ & _ & Hkeep)|(e & -> & _)];
    [|discriminate].
  destruct (move_corrupt cfg _ oids w3) as [[[]|x] w4] eqn:Ev.
  - apply (move_corrupt_done _ _ _ (object_not_bad _ _ Hsep)) in Ev as [Hnd Hthere].
    split; [exact Hnd|]. intros o Ho. destruct (Hthere o Ho) as [n Hn].
    rewrite Hkeep in Hn by (now apply (object_not_badDir _ _ Hsep)).
    cbn [fs printed] in Hn. rewrite Hfs in Hn. now exists n.
  - apply move_corrupt_outcome in Ev as [?|(oid & e & _ & E)]; [discriminate|].
    cbn in Hexit. congruence.
Qed.

Lemma repair_needs_present_distinct_objects_witness :
  let git := Sample.repo Sample.calls_two_corrupt [] [] in
  (passes Sample.cfg git Sample.default_flags [] Sample.world).1
  = Return (false, [Sample.oid_hello; Sample.oid_hundred], [])
  /\ (fsckCommand Sample.cfg git Sample.default_flags [] Sample.world).1
     = Exits (os_Exit 1)
  /\ NoDup [Sample.oid_hello; Sample.oid_hundred]
  /\ forall o, o ∈ [Sample.oid_hello; Sample.oid_hundred] ->
               is_Some (fs Sample.world !! ObjectPathname Sample.cfg o).
Proof.
  cbv zeta.
  assert (Hpasses :
    (passes Sample.cfg (Sample.repo Sample.calls_two_corrupt [] [])
       Sample.default_flags [] Sample.world).1
    = Return (false, [Sample.oid_hello; Sample.oid_hundred], [])) by by_vm.
  assert (Hexit :
    (fsckCommand Sample.cfg (Sample.repo Sample.calls_two_corrupt [] [])
       Sample.default_flags [] Sample.world).1 = Exits (os_Exit 1)) by by_vm.
  split; [exact Hpasses|]. split; [exact Hexit|].
  assert (Hne : [Sample.oid_hello; Sample.oid_hundred] <> []) by discriminate.
  exact (repair_needs_present_distinct_objects _ _ _ _ _ _ _ _ sample_paths_separate
           (run_as_pair _ _ Hpasses) eq_refl Hne Hexit).
Defined.

(** ** The pointer pass and the store *)

Lemma scan_range_any_world git args w w' :
  (scan_range git args w).1 = (scan_range git args w').1.
Proof. unfold scan_range. repeat case_match; reflexivity. Qed.

(** X9: with [--pointers] alone, how the command ends does not depend on
    the object store: for any two worlds, whatever files they hold, the
    outcome is the same. *)
Theorem pointers_only_ignores_the_store cfg git flags args w w' :
  fsckObjects flags = false -> fsckPointers flags = true ->
  (fsckCommand cfg git flags args w).1 = (fsckCommand cfg git flags args w').1.
Proof.
  intros Ho Hp. unfold fsckCommand, passes, requested. rewrite Ho, Hp. cbn [negb andb].
  unfold mbind, M_bind.
  pose proof (scan_range_any_world git args w w') as Hr.
  destruct (scan_range git args w) as [[[[useIndex start] end_]|e] w0] eqn:E0,
           (scan_range git args w') as [[[[useIndex' start'] end_']|e'] w0'] eqn:E0';
    cbn in Hr; try discriminate; inversion Hr; subst; [|reflexivity].
  unfold objects_pass, pointers_pass, mret, M_ret, mbind, M_bind.
  pose proof (doFsckPointers_world git start' end_' w0 w0') as Hd.
  destruct (doFsckPointers git start' end_' w0) as [[ptrs|e] w1],
           (doFsckPointers git start' end_' w0') as [[ptrs'|e'] w1'];
    cbn in Hd; try discriminate; inversion Hd; subst; [|reflexivity].
  unfold conclude. cbn [andb].
  case_bool_decide; [reflexivity|].
  rewrite bool_decide_eq_true_2 by reflexivity. now rewrite orb_true_r.
Qed.

Lemma pointers_only_ignores_the_store_witness :
  let git := Sample.repo [] [] [(Some Sample.p_loose, None)] in
  let bare := {| fs := ∅; readonly := true; stdout := []; trace := [] |} in
  (fsckCommand Sample.cfg git Sample.pointers_only [] Sample.world).1
  = Exits (os_Exit 1)
  /\ (fsckCommand Sample.cfg git Sample.pointers_only [] bare).1 = Exits (os_Exit 1).
Proof.
  cbv zeta.
  assert (H1 :
    (fsckCommand Sample.cfg (Sample.repo [] [] [(Some Sample.p_loose, None)])
       Sample.pointers_only [] Sample.world).1 = Exits (os_Exit 1)) by by_vm.
  split; [exact H1|].
  rewrite <- H1. symmetry.
  apply (pointers_only_ignores_the_store Sample.cfg); reflexivity.
Defined.

(** ** The declared size *)

(** X10: [fsckPointer] uses the declared size for one thing only, whether
    it is zero when the object cannot be opened.  Two sizes that are both
    zero or both not zero give the same result, and when the object can
    be opened every size gives the same result: the length of the file is
    never compared with the declared size. *)
Theorem declared_size_only_tested_for_zero cfg name oid size size' w :
  ((size =? 0) = (size' =? 0) ->
   fsckPointer cfg name oid size w = fsckPointer cfg name oid size' w)
  /\ (forall f w', os_Open (ObjectPathname cfg oid) w = (Return (inr f), w') ->
        fsckPointer cfg name oid size w = fsckPointer cfg name oid size' w).
Proof.
  split.
  - intros E. unfold fsckPointer. now rewrite E.
  - intros f w' H. unfold fsckPointer, mbind, M_bind, Debug.
    assert (Ht : os_Open (ObjectPathname cfg oid)
                   (traced ("Examining " +:+ name +:+ " ("
                            +:+ ObjectPathname cfg oid +:+ ")") w)
                 = (Return (inr f),
                    traced ("Examining " +:+ name +:+ " ("
                            +:+ ObjectPathname cfg oid +:+ ")") w)).
    { unfold os_Open in *. cbn [fs traced].
      destruct (fs w !! ObjectPathname cfg oid) as [[data []|]|];
        inversion H; reflexivity. }
    now rewrite Ht.
Qed.

Lemma declared_size_only_tested_for_zero_witness :
  (5 =? 0) = (100 =? 0)
  /\ fsckPointer Sample.cfg "t.bin" Sample.oid_hundred 5 Sample.world
     = fsckPointer Sample.cfg "t.bin" Sample.oid_hundred 100 Sample.world.
Proof.
  split; [reflexivity|].
  apply (declared_size_only_tested_for_zero Sample.cfg "t.bin" Sample.oid_hundred
           5 100 Sample.world).
  reflexivity.
Defined.

(** ** A scan that fails *)

(** X11: when the history scan of the object pass returns an error after
    its callback calls, the command ends there through [ExitWithError]
    with that error: the findings of the calls have been printed, but the
    index is not scanned, the pointer pass does not run and nothing is
    moved. *)
Theorem scan_error_ends_the_command cfg git flags args w useIndex start end_
    err acc w1 :
  scan_range git args w = (Return (useIndex, start, end_), w) ->
  (requested flags).1 = true ->
  result (blob_scan cfg git start end_) = Some err ->
  run_calls (objects_callback cfg) (calls (blob_scan cfg git start end_)) [] w
  = (Return acc, w1) ->
  doFsckObjects cfg git start end_ useIndex w = (Exits (ExitWithError err), w1)
  /\ fsckCommand cfg git flags args w = (Exits (ExitWithError err), w1)
  /\ fs w1 = fs w
  /\ stdout w1
     = stdout w
       ++ (object_line cfg (fs w)
           <$> failing_records cfg (fs w) (calls (blob_scan cfg git start end_))).
Proof.
  intros Hr Hreq Hres Hrun.
  assert (Hd : doFsckObjects cfg git start end_ useIndex w
               = (Exits (ExitWithError err), w1)).
  { rewrite doFsckObjects_eq. apply bind_Exits.
    rewrite (scan_Return _ _ _ _ _ _ Hrun), Hres. reflexivity. }
  split; [exact Hd|]. split; [|split].
  - now apply (passes_objects_exit _ _ _ _ _ _ _ _ _ _ Hr Hreq).
  - eapply reads_only_run_calls; [apply reads_only_objects_callback|exact Hrun].
  - now apply run_calls_objects_lines in Hrun.
Qed.

Lemma scan_error_ends_the_command_witness :
  let git := Sample.broken_scan [(Some Sample.p_hello, None)]
               (ErrorString "git rev-list failed") in
  let r := fsckCommand Sample.cfg git Sample.default_flags [] Sample.world in
  r.1 = Exits (ExitWithError (ErrorString "git rev-list failed"))
  /\ stdout r.2 = [corruptObject_line Sample.p_hello]
  /\ fs r.2 = fs Sample.world.
Proof.
  cbv zeta.
  assert (Hrange :
    scan_range (Sample.broken_scan [(Some Sample.p_hello, None)]
                  (ErrorString "git rev-list failed")) [] Sample.world
    = (Return (true, EmptyString, "c0ffee"%string), Sample.world)) by reflexivity.
  assert (Hrun :
    (run_calls (objects_callback Sample.cfg)
       (calls (blob_scan Sample.cfg
                 (Sample.broken_scan [(Some Sample.p_hello, None)]
                    (ErrorString "git rev-list failed")) EmptyString "c0ffee"))
       [] Sample.world).1 = Return [Sample.oid_hello]) by by_vm.
  assert (Hout :
    stdout (run_calls (objects_callback Sample.cfg)
              (calls (blob_scan Sample.cfg
                        (Sample.broken_scan [(Some Sample.p_hello, None)]
                           (ErrorString "git rev-list failed")) EmptyString "c0ffee"))
              [] Sample.world).2 = [corruptObject_line Sample.p_hello]) by by_vm.
  destruct (scan_error_ends_the_command Sample.cfg _ Sample.default_flags []
              Sample.world true EmptyString "c0ffee"%string
              (ErrorString "git rev-list failed") _ _
              Hrange eq_refl eq_refl (run_as_pair _ _ Hrun)) as (_ & E & Hfs & _).
  rewrite E. cbn [fst snd]. split; [reflexivity|]. split; [exact Hout|exact Hfs].
Defined.

(** ** The shape of a content hash *)

Lemma round_length s kw : length s = 8%nat -> length (Sha256.round s kw) = 8%nat.
Proof.
  intros H. do 9 (destruct s as [|? s]; try discriminate). reflexivity.
Qed.

Lemma rounds_length l : forall s,
  length s = 8%nat -> length (foldl Sha256.round s l) = 8%nat.
Proof.
  induction l as [|kw l IH]; intros s H; cbn [foldl]; [exact H|].
  apply IH. now apply round_length.
Qed.

Lemma compress_length h block :
  length h = 8%nat -> length (Sha256.compress h block) = 8%nat.
Proof.
  intros H. unfold Sha256.compress. rewrite length_zip_with, rounds_length, H by exact H.
  reflexivity.
Qed.

Lemma compress_all_length blocks : forall h,
  length h = 8%nat -> length (foldl Sha256.compress h blocks) = 8%nat.
Proof.
  induction blocks as [|b blocks IH]; intros h H; cbn [foldl]; [exact H|].
  apply IH. now apply compress_length.
Qed.

Lemma be_bytes_byte n x : Forall (fun b => 0 <= b < 256) (Sha256.be_bytes n x).
Proof.
  induction n as [|n IH]; cbn [Sha256.be_bytes]; constructor; [|exact IH].
  change 0xff with (Z.ones 8). rewrite Z.land_ones by lia.
  apply Z.mod_pos_bound. reflexivity.
Qed.

Lemma be_bytes_length n x : length (Sha256.be_bytes n x) = n.
Proof. induction n as [|n IH]; cbn [Sha256.be_bytes length]; congruence. Qed.

Lemma words_bytes hs :
  length (mjoin (Sha256.be_bytes 4 <$> hs)) = (4 * length hs)%nat
  /\ Forall (fun b => 0 <= b < 256) (mjoin (Sha256.be_bytes 4 <$> hs)).
Proof.
  induction hs as [|h hs [IH1 IH2]]; [split; [reflexivity|constructor]|].
  change (mjoin (Sha256.be_bytes 4 <$> h :: hs))
    with (Sha256.be_bytes 4 h ++ mjoin (Sha256.be_bytes 4 <$> hs)).
  split.
  - rewrite length_app, be_bytes_length, IH1. cbn [length]. lia.
  - apply Forall_app. split; [apply be_bytes_byte|exact IH2].
Qed.

Lemma digest_bytes msg :
  length (Sha256.digest msg) = 32%nat
  /\ Forall (fun b => 0 <= b < 256) (Sha256.digest msg).
Proof.
  unfold Sha256.digest. cbv zeta.
  set (hs := foldl Sha256.compress Sha256.init _).
  assert (Hl : length hs = 8%nat) by (apply compress_all_length; reflexivity).
  destruct (words_bytes hs) as [H1 H2]. rewrite H1, Hl. auto.
Qed.

Lemma hex_digit_lower n : 0 <= n < 16 -> lower_hex (hex_digit n) = true.
Proof.
  intros H. rewrite <- (Z2Nat.id n) by lia.
  assert (Hk : (Z.to_nat n < 16)%nat) by lia.
  revert Hk. generalize (Z.to_nat n) as k. intros k Hk.
  do 16 (destruct k as [|k]; [reflexivity|]). lia.
Qed.

Lemma hex_EncodeToString_shape bs :
  Forall (fun b => 0 <= b < 256) bs ->
  String.length (hex_EncodeToString bs) = (2 * length bs)%nat
  /\ string_forall lower_hex (hex_EncodeToString bs) = true.
Proof.
  induction 1 as [|b bs Hb _ [IH1 IH2]]; [split; reflexivity|].
  cbn [hex_EncodeToString String.length string_forall length]. rewrite IH1, IH2.
  split; [lia|].
  rewrite !hex_digit_lower; [reflexivity| |].
  - change 0xf with (Z.ones 4). rewrite Z.land_ones by lia.
    apply Z.mod_pos_bound. reflexivity.
  - rewrite Z.shiftr_div_pow2 by lia. change (2 ^ 4) with 16.
    split; [apply Z.div_pos; lia|]. apply Z.div_lt_upper_bound; lia.
Qed.

Lemma sha256_hex_shape data :
  String.length (sha256_hex data) = 64%nat
  /\ string_forall lower_hex (sha256_hex data) = true.
Proof.
  unfold sha256_hex. destruct (digest_bytes (bytes_of_string data)) as [Hl Hb].
  destruct (hex_EncodeToString_shape _ Hb) as [H1 H2]. rewrite H1, Hl. auto.
Qed.

(** X12: the hash [fsckPointer] recomputes is always 64 characters, each
    one of [0-9a-f], and it is compared with the declared content hash as
    it stands.  A record whose content hash is not of that shape (written
    in capitals, say, or cut short) and whose object can be opened and
    read is therefore always reported as corruptObject, whatever the
    file holds. *)
Theorem misshapen_oid_is_corrupt cfg acc p w f w' data :
  os_Open (ObjectPathname cfg (Oid p)) w = (Return (inr f), w') ->
  io_Copy f = (data, None) ->
  String.length (Oid p) <> 64%nat \/ string_forall lower_hex (Oid p) = false ->
  (String.length (sha256_hex data) = 64%nat
   /\ string_forall lower_hex (sha256_hex data) = true)
  /\ objects_callback cfg acc (Some p, None) w
     = (Return (acc ++ [Oid p]),
        printed (corruptObject_line p) (traced (examining_line cfg p) w)).
Proof.
  intros Hopen Hio Hshape.
  destruct (sha256_hex_shape data) as [Hl Hc]. split; [auto|].
  destruct (classify_opened _ _ _ _ _ _ Hopen Hio) as [_ Hv].
  assert (Hne : String.eqb (sha256_hex data) (Oid p) = false).
  { apply String.eqb_neq. intros E. rewrite E in Hl, Hc.
    destruct Hshape as [Hs|Hs]; congruence. }
  rewrite Hne in Hv. rewrite objects_callback_classify, Hv. reflexivity.
Qed.

Lemma misshapen_oid_is_corrupt_witness :
  (os_Open (ObjectPathname Sample.cfg (Oid Sample.p_ABC)) Sample.capitals
   = (Return (inr (mkFile (ObjectPathname Sample.cfg (Oid Sample.p_ABC))
                     (File "abc" Readable))), Sample.capitals)
   /\ string_forall lower_hex (Oid Sample.p_ABC) = false)
  /\ objects_callback Sample.cfg [] (Some Sample.p_ABC, None) Sample.capitals
     = (Return ([] ++ [Oid Sample.p_ABC]),
        printed (corruptObject_line Sample.p_ABC)
          (traced (examining_line Sample.cfg Sample.p_ABC) Sample.capitals)).
Proof.
  assert (Hopen :
    os_Open (ObjectPathname Sample.cfg (Oid Sample.p_ABC)) Sample.capitals
    = (Return (inr (mkFile (ObjectPathname Sample.cfg (Oid Sample.p_ABC))
                      (File "abc" Readable))), Sample.capitals)) by by_vm.
  assert (Hcaps : string_forall lower_hex (Oid Sample.p_ABC) = false) by by_vm.
  split; [split; [exact Hopen|exact Hcaps]|].
  exact (proj2 (misshapen_oid_is_corrupt Sample.cfg [] Sample.p_ABC Sample.capitals
                  _ _ _ Hopen eq_refl (or_intror Hcaps))).
Defined.

(** ** Splitting the argument *)

Lemma length_append a b :
  String.length (a +:+ b) = (String.length a + String.length b)%nat.
Proof.
  induction a as [|x a IH]; [reflexivity|]. rewrite append_cons. cbn. now f_equal.
Qed.

Lemma strings_Cut_first sep s : forall before after,
  strings_Cut sep s = Some (before, after) ->
  forall before' after', s = before' +:+ sep +:+ after' ->
  (String.length before <= String.length before')%nat.
Proof.
  induction s as [|c s IH]; intros before after; rewrite strings_Cut_unfold;
    destruct (strip_prefix sep _) eqn:E.
  - intros H. inversion H; subst. cbn. lia.
  - discriminate.
  - intros H. inversion H; subst. cbn. lia.
  - destruct (strings_Cut sep s) as [[b a]|] eqn:Ec; [|discriminate].
    intros H. inversion H; subst. intros before' after' Hs.
    destruct before' as [|c' before'].
    + rewrite append_nil in Hs. apply strip_prefix_Some in Hs. congruence.
    + rewrite append_cons in Hs. inversion Hs; subst. cbn [String.length].
      apply le_n_S. eapply IH; reflexivity.
Qed.

(** X13: the argument is split at the first [..] only.  Either it holds
    no [..] and is the single piece, or there are exactly two pieces, the
    text before the first [..] and all the text after it (further [..]
    included), which joined by [..] give the argument back. *)
Theorem argument_split_at_first_dots arg :
  (~ contains ".." arg /\ strings_SplitN2 arg ".." = [arg])
  \/ exists before after,
       strings_SplitN2 arg ".." = [before; after]
       /\ arg = before +:+ ".." +:+ after
       /\ ~ contains ".." (before +:+ ".")
       /\ forall before' after', arg = before' +:+ ".." +:+ after' ->
            (String.length before <= String.length before')%nat.
Proof.
  unfold strings_SplitN2.
  destruct (strings_Cut ".." arg) as [[b a]|] eqn:E.
  - right. exists b, a. pose proof (strings_Cut_Some _ _ _ _ E) as Hs.
    pose proof (strings_Cut_first _ _ _ _ E) as Hfirst.
    split; [reflexivity|]. split; [exact Hs|]. split; [|exact Hfirst].
    intros (x & y & Hxy).
    assert (Hlen : (String.length b <= String.length x)%nat).
    { apply (Hfirst x (y +:+ "." +:+ a)). rewrite Hs.
      change (b +:+ ".." +:+ a) with (b +:+ ("." +:+ "." +:+ a)).
      rewrite <- (append_assoc b "." ("." +:+ a)), Hxy.
      now rewrite !append_assoc. }
    apply (f_equal String.length) in Hxy.
    rewrite !length_append in Hxy. cbn in Hxy. lia.
  - left. split; [now apply strings_Cut_None|reflexivity].
Qed.

Lemma argument_split_at_first_dots_witness :
  strings_SplitN2 "v1..v2..v3" ".." = ["v1"%string; "v2..v3"%string]
  /\ ~ contains ".." ("v1" +:+ ".").
Proof.
  assert (Hs : strings_SplitN2 "v1..v2..v3" ".." = ["v1"%string; "v2..v3"%string])
    by by_vm.
  split; [exact Hs|].
  destruct (argument_split_at_first_dots "v1..v2..v3")
    as [[_ Hone]|(b & a & Htwo & _ & Hfirst & _)].
  - rewrite Hs in Hone. discriminate Hone.
  - rewrite Hs in Htwo. inversion Htwo; subst. exact Hfirst.
Defined.

(** * Endpoints (lfshttp/endpoint.go) *)

Lemma span_not_colon_spec s : forall h r,
  Lfshttp.span_not_colon s = (h, r) ->
  s = h +:+ r /\ string_forall Lfshttp.not_colon h = true
  /\ (r = EmptyString \/ exists r', r = String ":" r').
Proof.
  induction s as [|c s IH]; intros h r H; cbn [Lfshttp.span_not_colon] in H.
  - inversion H; subst. auto.
  - destruct (Lfshttp.not_colon c) eqn:Ec.
    + destruct (Lfshttp.span_not_colon s) as [h' r'] eqn:Es. inversion H; subst.
      destruct (IH _ _ eq_refl) as (-> & Hh & Hr).
      rewrite append_cons. cbn [string_forall]. rewrite Ec, Hh. auto.
    + inversion H; subst. rewrite append_nil. split; [reflexivity|].
      split; [reflexivity|]. right. exists s.
      unfold Lfshttp.not_colon in Ec. apply negb_false_iff, Ascii.eqb_eq in Ec.
      now subst.
Qed.

Lemma span_not_colon_app h r :
  string_forall Lfshttp.not_colon h = true ->
  (r = EmptyString \/ exists r', r = String ":" r') ->
  Lfshttp.span_not_colon (h +:+ r) = (h, r).
Proof.
  intros Hh Hr. induction h as [|c h IH].
  - rewrite append_nil. destruct Hr as [->|[r' ->]]; reflexivity.
  - cbn [string_forall] in Hh. apply andb_true_iff in Hh as [Hc Hh].
    rewrite append_cons. cbn [Lfshttp.span_not_colon]. now rewrite Hc, (IH Hh).
Qed.

Lemma FindStringSubmatch_well_formed h port :
  Lfshttp.well_formed_host h port ->
  Lfshttp.FindStringSubmatch (Lfshttp.host_and_port h port)
  = Some [Lfshttp.host_and_port h port; h; port].
Proof.
  intros (Hne & Hh & Hp). unfold Lfshttp.FindStringSubmatch, Lfshttp.host_and_port.
  destruct port as [|d port].
  - rewrite <- (append_empty_r h) at 1. rewrite span_not_colon_app by auto.
    now destruct h.
  - rewrite span_not_colon_app by eauto. destruct h; [contradiction|].
    change (":" +:+ String d port) with (String ":" (String d port)).
    cbv iota. now rewrite Hp.
Qed.

Lemma FindStringSubmatch_Some s m :
  Lfshttp.FindStringSubmatch s = Some m ->
  exists h port,
    Lfshttp.well_formed_host h port /\ s = Lfshttp.host_and_port h port
    /\ m = [s; h; port].
Proof.
  unfold Lfshttp.FindStringSubmatch.
  destruct (Lfshttp.span_not_colon s) as [h r] eqn:Es.
  destruct (span_not_colon_spec _ _ _ Es) as (-> & Hh & Hr). intros H.
  destruct h as [|c h]; [discriminate|].
  destruct Hr as [->|[r' ->]].
  - inversion H; subst. exists (String c h), EmptyString.
    split; [split; [discriminate|split; [exact Hh|reflexivity]]|].
    unfold Lfshttp.host_and_port. now rewrite append_empty_r.
  - destruct r' as [|d port]; [discriminate|].
    destruct (string_forall Lfshttp.is_digit (String d port)) eqn:Hp; [|discriminate].
    inversion H; subst. exists (String c h), (String d port).
    split; [split; [discriminate|split; [exact Hh|exact Hp]]|].
    split; reflexivity.
Qed.

(** X14: for a host of the form [host] or [host:port], the host without
    a colon and the port all digits, [EndpointFromSshUrl] gives the SSH
    user and host ([user@host] when the URL names a user), the port and
    the path as they are, and the fallback URL [https://host/path], which
    carries neither the user nor the port. *)
Theorem ssh_url_endpoint u h port :
  Lfshttp.well_formed_host h port ->
  Lfshttp.Host u = Lfshttp.host_and_port h port ->
  Lfshttp.EndpointFromSshUrl u
  = Lfshttp.mkEndpoint ("https://" +:+ h +:+ Lfshttp.URLPath u)
      (Lfshttp.mkSSHMetadata
         (match Lfshttp.User u with
          | Some user =>
              if String.eqb (Lfshttp.Username user) EmptyString then h
              else Lfshttp.Username user +:+ "@" +:+ h
          | None => h
          end)
         port (Lfshttp.URLPath u))
      EmptyString.
Proof.
  intros Hwf Hhost. unfold Lfshttp.EndpointFromSshUrl.
  rewrite Hhost, (FindStringSubmatch_well_formed _ _ Hwf). cbn.
  destruct (Lfshttp.User u) as [user|]; [|reflexivity].
  now destruct (String.eqb (Lfshttp.Username user) EmptyString).
Qed.

Lemma ssh_url_endpoint_witness :
  let u := Lfshttp.mkURL (Some (Lfshttp.mkUserinfo "git")) "example.com:2222"
             "/org/repo.git" in
  Lfshttp.well_formed_host "example.com" "2222"
  /\ Lfshttp.EndpointFromSshUrl u
     = Lfshttp.mkEndpoint ("https://" +:+ "example.com" +:+ "/org/repo.git")
         (Lfshttp.mkSSHMetadata ("git" +:+ "@" +:+ "example.com") "2222"
            "/org/repo.git")
         EmptyString.
Proof.
  cbv zeta.
  assert (Hwf : Lfshttp.well_formed_host "example.com" "2222")
    by (split; [discriminate|split; reflexivity]).
  split; [exact Hwf|].
  exact (ssh_url_endpoint
           (Lfshttp.mkURL (Some (Lfshttp.mkUserinfo "git")) "example.com:2222"
              "/org/repo.git") "example.com" "2222" Hwf eq_refl).
Defined.

(** X15: [EndpointFromSshUrl] answers the unknown URL exactly when the
    host is not of the form [host] or [host:port] with a non-empty host
    without a colon and a port of digits (an empty host, [host:], an IPv6
    literal); the SSH fields are then all empty. *)
Theorem ssh_url_unknown_iff u :
  (Lfshttp.Url (Lfshttp.EndpointFromSshUrl u) = Lfshttp.UrlUnknown
   <-> ~ exists h port,
         Lfshttp.well_formed_host h port
         /\ Lfshttp.Host u = Lfshttp.host_and_port h port)
  /\ (Lfshttp.Url (Lfshttp.EndpointFromSshUrl u) = Lfshttp.UrlUnknown ->
      Lfshttp.EndpointFromSshUrl u
      = Lfshttp.mkEndpoint Lfshttp.UrlUnknown
          (Lfshttp.mkSSHMetadata EmptyString EmptyString EmptyString) EmptyString).
Proof.
  unfold Lfshttp.EndpointFromSshUrl.
  destruct (Lfshttp.FindStringSubmatch (Lfshttp.Host u)) as [m|] eqn:E.
  - destruct (FindStringSubmatch_Some _ _ E) as (h & port & Hwf & Hs & ->). cbn.
    split; [split|]; try discriminate.
    intros Hno. destruct Hno. now exists h, port.
  - cbn. split; [split; [|reflexivity]|reflexivity].
    intros _ (h & port & Hwf & Hs).
    rewrite Hs, (FindStringSubmatch_well_formed _ _ Hwf) in E. discriminate.
Qed.

Lemma ssh_url_unknown_iff_witness :
  let u := Lfshttp.mkURL None "[::1]:22" "/org/repo.git" in
  Lfshttp.Url (Lfshttp.EndpointFromSshUrl u) = Lfshttp.UrlUnknown
  /\ Lfshttp.EndpointFromSshUrl u
     = Lfshttp.mkEndpoint Lfshttp.UrlUnknown
         (Lfshttp.mkSSHMetadata EmptyString EmptyString EmptyString) EmptyString
  /\ ~ exists h port,
        Lfshttp.well_formed_host h port
        /\ Lfshttp.Host u = Lfshttp.host_and_port h port.
Proof.
  cbv zeta.
  assert (Hu : Lfshttp.Url (Lfshttp.EndpointFromSshUrl
                              (Lfshttp.mkURL None "[::1]:22" "/org/repo.git"))
               = Lfshttp.UrlUnknown) by by_vm.
  split; [exact Hu|].
  destruct (ssh_url_unknown_iff (Lfshttp.mkURL None "[::1]:22" "/org/repo.git"))
    as [[Hnot _] Hzero].
  split; [exact (Hzero Hu)|exact (Hnot Hu)].
Defined.

Lemma strings_Split_colon_piece a rest :
  string_forall Lfshttp.not_colon a = true ->
  Lfshttp.strings_Split_colon (a +:+ String ":" rest)
  = a :: Lfshttp.strings_Split_colon rest.
Proof.
  intros Ha. induction a as [|c a IH].
  - reflexivity.
  - cbn [string_forall] in Ha. apply andb_true_iff in Ha as [Hc Ha].
    rewrite append_cons. cbn [Lfshttp.strings_Split_colon]. now rewrite Hc, (IH Ha).
Qed.

Lemma strings_Split_colon_whole a :
  string_forall Lfshttp.not_colon a = true ->
  Lfshttp.strings_Split_colon a = [a].
Proof.
  intros Ha. induction a as [|c a IH]; [reflexivity|].
  cbn [string_forall] in Ha. apply andb_true_iff in Ha as [Hc Ha].
  cbn [Lfshttp.strings_Split_colon]. now rewrite Hc, (IH Ha).
Qed.

(** X16: a bare URL without a colon is not taken for an SSH URL: it is
    returned as the endpoint's URL as it stands, with empty SSH fields,
    and [url.Parse] is not consulted. *)
Theorem bare_url_without_colon url_Parse rawurl :
  string_forall Lfshttp.not_colon rawurl = true ->
  Lfshttp.EndpointFromBareSshUrl url_Parse rawurl
  = Lfshttp.mkEndpoint rawurl
      (Lfshttp.mkSSHMetadata EmptyString EmptyString EmptyString) EmptyString.
Proof.
  intros H. unfold Lfshttp.EndpointFromBareSshUrl, Lfshttp.bare_ssh_rawurl.
  now rewrite (strings_Split_colon_whole _ H).
Qed.

Lemma bare_url_without_colon_witness :
  string_forall Lfshttp.not_colon "/srv/git/repo.git" = true
  /\ Lfshttp.EndpointFromBareSshUrl Lfshttp.parse_example "/srv/git/repo.git"
     = Lfshttp.mkEndpoint "/srv/git/repo.git"
         (Lfshttp.mkSSHMetadata EmptyString EmptyString EmptyString) EmptyString.
Proof.
  split; [reflexivity|].
  apply (bare_url_without_colon Lfshttp.parse_example "/srv/git/repo.git").
  reflexivity.
Defined.

Lemma string_rev_app a b : forall acc,
  Lfshttp.string_rev (a +:+ b) acc = Lfshttp.string_rev b (Lfshttp.string_rev a acc).
Proof.
  induction a as [|c a IH]; intros acc; [reflexivity|].
  rewrite append_cons. cbn [Lfshttp.string_rev]. apply IH.
Qed.

Lemma string_rev_rev s : forall acc t,
  Lfshttp.string_rev (Lfshttp.string_rev s acc) t = Lfshttp.string_rev acc (s +:+ t).
Proof.
  induction s as [|c s IH]; intros acc t; [reflexivity|].
  cbn [Lfshttp.string_rev]. rewrite IH. reflexivity.
Qed.

Lemma strings_TrimSuffix_bracket s :
  Lfshttp.strings_TrimSuffix (s +:+ "]") "]" = s.
Proof.
  unfold Lfshttp.strings_TrimSuffix. rewrite string_rev_app.
  cbn [Lfshttp.string_rev strip_prefix]. rewrite Ascii.eqb_refl.
  rewrite string_rev_rev. cbn [Lfshttp.string_rev]. apply append_empty_r.
Qed.

(** X17: the two documented bare forms become the SSH URLs one expects:
    [user@host:path] is parsed as [ssh://user@host/path], and
    [[user@host:port]:path] as [ssh://user@host:port/path], the brackets
    removed and the colon before the path turned into a slash. *)
Theorem bare_ssh_rawurl_forms userhost port pth :
  string_forall Lfshttp.not_colon userhost = true ->
  string_forall Lfshttp.not_colon port = true ->
  string_forall Lfshttp.not_colon pth = true ->
  Lfshttp.bare_ssh_rawurl (userhost +:+ ":" +:+ pth)
  = Some ("ssh://" +:+ userhost +:+ "/" +:+ pth)
  /\ Lfshttp.bare_ssh_rawurl ("[" +:+ userhost +:+ ":" +:+ port +:+ "]:" +:+ pth)
     = Some ("ssh://" +:+ userhost +:+ ":" +:+ port +:+ "/" +:+ pth).
Proof.
  intros Hu Hport Hpth. unfold Lfshttp.bare_ssh_rawurl. split.
  - change (":" +:+ pth) with (String ":" pth).
    rewrite (strings_Split_colon_piece _ _ Hu), (strings_Split_colon_whole _ Hpth).
    reflexivity.
  - assert (Hb : string_forall Lfshttp.not_colon ("[" +:+ userhost) = true)
      by (rewrite append_cons, append_nil; cbn [string_forall]; now rewrite Hu).
    assert (Hp : string_forall Lfshttp.not_colon (port +:+ "]") = true).
    { clear -Hport. induction port as [|c port IH]; [reflexivity|].
      cbn [string_forall] in Hport. apply andb_true_iff in Hport as [Hc Hport].
      rewrite append_cons. cbn [string_forall]. now rewrite Hc, IH. }
    replace ("[" +:+ userhost +:+ ":" +:+ port +:+ "]:" +:+ pth)
      with (("[" +:+ userhost) +:+ String ":" ((port +:+ "]") +:+ String ":" pth)).
    2:{ rewrite !append_assoc. reflexivity. }
    rewrite (strings_Split_colon_piece _ _ Hb), (strings_Split_colon_piece _ _ Hp),
      (strings_Split_colon_whole _ Hpth).
    cbn [length Nat.ltb Nat.leb nth insert list_insert drop].
    rewrite strings_TrimSuffix_bracket.
    change (Lfshttp.strings_TrimPrefix ("[" +:+ userhost) "[") with userhost.
    reflexivity.
Qed.

Lemma bare_ssh_rawurl_forms_witness :
  Lfshttp.bare_ssh_rawurl ("git@example.com" +:+ ":" +:+ "org/repo.git")
  = Some ("ssh://" +:+ "git@example.com" +:+ "/" +:+ "org/repo.git")
  /\ Lfshttp.bare_ssh_rawurl
       ("[" +:+ "git@example.com" +:+ ":" +:+ "2222" +:+ "]:" +:+ "org/repo.git")
     = Some ("ssh://" +:+ "git@example.com" +:+ ":" +:+ "2222" +:+ "/"
             +:+ "org/repo.git").
Proof.
  apply (bare_ssh_rawurl_forms "git@example.com" "2222" "org/repo.git");
    reflexivity.
Defined.

(** X18: when a bare URL has a colon and [url.Parse] accepts the SSH URL
    made from it, the endpoint is the one [EndpointFromSshUrl] builds,
    except that the SSH path has lost one leading slash while the
    fallback URL keeps the path as parsed; when [url.Parse] refuses it,
    the endpoint is the unknown URL. *)
Theorem bare_ssh_endpoint url_Parse rawurl newrawurl :
  Lfshttp.bare_ssh_rawurl rawurl = Some newrawurl ->
  (forall err, url_Parse newrawurl = inl err ->
     Lfshttp.EndpointFromBareSshUrl url_Parse rawurl
     = Lfshttp.mkEndpoint Lfshttp.UrlUnknown
         (Lfshttp.mkSSHMetadata EmptyString EmptyString EmptyString) EmptyString)
  /\ (forall u h port,
        url_Parse newrawurl = inr u ->
        Lfshttp.well_formed_host h port ->
        Lfshttp.Host u = Lfshttp.host_and_port h port ->
        Lfshttp.EndpointFromBareSshUrl url_Parse rawurl
        = Lfshttp.mkEndpoint ("https://" +:+ h +:+ Lfshttp.URLPath u)
            (Lfshttp.mkSSHMetadata
               (Lfshttp.UserAndHost
                  (Lfshttp.SSHMetadata (Lfshttp.EndpointFromSshUrl u)))
               port
               (Lfshttp.strings_TrimPrefix (Lfshttp.URLPath u) "/"))
            EmptyString).
Proof.
  intros Hraw. unfold Lfshttp.EndpointFromBareSshUrl. rewrite Hraw. split.
  - intros err ->. reflexivity.
  - intros u h port -> Hwf Hhost. cbv zeta.
    unfold Lfshttp.EndpointFromSshUrl.
    rewrite Hhost, (FindStringSubmatch_well_formed _ _ Hwf).
    cbn [length Nat.ltb Nat.leb nth Lfshttp.SSHMetadata Lfshttp.Path Lfshttp.Url
           Lfshttp.Port Lfshttp.UserAndHost Lfshttp.Operation Lfshttp.zero_Endpoint].
    unfold Lfshttp.strings_TrimPrefix.
    now destruct (strip_prefix "/" (Lfshttp.URLPath u)).
Qed.

Lemma bare_ssh_endpoint_witness :
  Lfshttp.bare_ssh_rawurl "[git@example.com:2222]:org/repo.git"
  = Some "ssh://git@example.com:2222/org/repo.git"%string
  /\ Lfshttp.EndpointFromBareSshUrl Lfshttp.parse_example
       "[git@example.com:2222]:org/repo.git"
     = Lfshttp.mkEndpoint ("https://" +:+ "example.com" +:+ "/org/repo.git")
         (Lfshttp.mkSSHMetadata
            (Lfshttp.UserAndHost
               (Lfshttp.SSHMetadata
                  (Lfshttp.EndpointFromSshUrl
                     (Lfshttp.mkURL (Some (Lfshttp.mkUserinfo "git"))
                        "example.com:2222" "/org/repo.git"))))
            "2222"
            (Lfshttp.strings_TrimPrefix "/org/repo.git" "/"))
         EmptyString.
Proof.
  assert (Hraw : Lfshttp.bare_ssh_rawurl "[git@example.com:2222]:org/repo.git"
                 = Some "ssh://git@example.com:2222/org/repo.git"%string)
    by by_vm.
  split; [exact Hraw|].
  assert (Hwf : Lfshttp.well_formed_host "example.com" "2222")
    by (split; [discriminate|split; reflexivity]).
  exact (proj2 (bare_ssh_endpoint Lfshttp.parse_example _ _ Hraw)
           (Lfshttp.mkURL (Some (Lfshttp.mkUserinfo "git")) "example.com:2222"
              "/org/repo.git")
           "example.com" "2222" eq_refl Hwf eq_refl).
Defined.

(** X20: [endpointOperation] never answers the empty string.  An
    operation set on the endpoint is the answer whatever the method;
    without one the answer is [download] for the methods [GET] and [HEAD]
    exactly as written, and [upload] for every other method, [get] in
    small letters included. *)
Theorem endpoint_operation_cases e method :
  Lfshttp.endpointOperation e method <> EmptyString
  /\ (Lfshttp.Operation e <> EmptyString ->
      Lfshttp.endpointOperation e method = Lfshttp.Operation e)
  /\ (Lfshttp.Operation e = EmptyString ->
      (method = "GET"%string \/ method = "HEAD"%string ->
       Lfshttp.endpointOperation e method = "download"%string)
      /\ (method <> "GET"%string -> method <> "HEAD"%string ->
          Lfshttp.endpointOperation e method = "upload"%string)).
Proof.
  unfold Lfshttp.endpointOperation.
  destruct (Lfshttp.Operation e) as [|c op] eqn:Eop; cbn [String.length Nat.ltb Nat.leb].
  - split; [|split; [congruence|]].
    + destruct (String.eqb method "GET" || String.eqb method "HEAD"); discriminate.
    + intros _. split.
      * intros [-> | ->]; reflexivity.
      * intros H1 H2. apply String.eqb_neq in H1, H2. now rewrite H1, H2.
  - split; [discriminate|]. split; [reflexivity|discriminate].
Qed.

Lemma endpoint_operation_cases_witness :
  Lfshttp.Operation Lfshttp.zero_Endpoint = EmptyString
  /\ Lfshttp.endpointOperation Lfshttp.zero_Endpoint "HEAD" = "download"%string
  /\ Lfshttp.endpointOperation Lfshttp.zero_Endpoint "get" = "upload"%string.
Proof.
  split; [reflexivity|].
  destruct (endpoint_operation_cases Lfshttp.zero_Endpoint "HEAD") as (_ & _ & H).
  destruct (endpoint_operation_cases Lfshttp.zero_Endpoint "get") as (_ & _ & H').
  split.
  - apply (H eq_refl). now right.
  - apply (H' eq_refl); discriminate.
Defined.
